(** * Sticky messages addon: a shallow embedding and its verified properties

    The development embeds the two source units of the addon:
    - the event side (the webhook sweep [ensureWebhooks] and the
      [messageCreate] handler) together with the [/sticky] slash command;
    - the [VersionChecker] class.

    JavaScript effects are modelled by a small state-and-exception monad
    over a [world] that holds the persistent record collection, the
    module-level [cooldowns] map and the log of platform calls made so far.
    What the chat platform answers to a call is an input ([platform]), and
    so is what the embed builder of the platform library accepts: a call
    on the builder that is not accepted throws. *)

From Stdlib Require Import ZArith String Ascii List Bool Lia.
From stdpp Require Import base option list gmap strings.

Local Open Scope string_scope.
Local Open Scope Z_scope.

(** ** JavaScript values used by the addon *)

Module Js.

(** A property that holds a string, or is [null]/[undefined]. *)
Definition str_truthy (s : string) : bool :=
  match s with EmptyString => false | String _ _ => true end.

(** Truthiness of a string-or-null value: [null], [undefined] and the
    empty string are falsy. *)
Definition truthy (o : option string) : bool :=
  match o with Some s => str_truthy s | None => false end.

(** [a || b] on string-or-null values. *)
Definition or_else (a b : option string) : option string :=
  if truthy a then a else b.

Definition nl : string := String "010"%char EmptyString.

(** [s.includes(sub)] *)
Fixpoint includes (s sub : string) : bool :=
  if String.prefix sub s then true
  else match s with
       | EmptyString => false
       | String _ s' => includes s' sub
       end.

(** [s.replace(/\\n/g, '\n')]: every backslash followed by [n] becomes a
    line feed. *)
Fixpoint unescape_newlines (s : string) : string :=
  match s with
  | String "\"%char (String "n"%char rest) => String "010"%char (unescape_newlines rest)
  | String c rest => String c (unescape_newlines rest)
  | EmptyString => EmptyString
  end.

End Js.

(** ** Configuration (config.yml, read once at start-up) *)

Record footer_config := {
  Footer_Enabled : bool;
  Footer_text : option string;
  Footer_CustomIconURL : option string;
}.

Record embed_config := {
  Embed_Title : option string;
  Embed_Color : option string;
  Embed_Image : option string;
  Embed_PanelImage : option string;
  Embed_CustomThumbnailURL : option string;
  Embed_Footer : footer_config;
  Embed_Timestamp : bool;
}.

Record webhooks_config := {
  Webhooks_Name : option string;
  Webhooks_AvatarURL : option string;
  Webhooks_CreateOnStartup : bool;
  Webhooks_CheckIntervalSeconds : Z;
  Webhooks_EnabledByDefault : bool;
}.

(** [Enabled] and [EnableEmbeds] are tested both for truthiness and with
    [=== true] / [=== false], so a missing key ([None]) is kept apart from
    the two booleans. *)
Record config := {
  Enabled : option bool;
  MaxMessages : Z;
  EnableEmbeds : option bool;
  EmbedSettings : embed_config;
  StickiedMessageTitle : string;
  Webhooks : option webhooks_config;
  EnableSlowmode : bool;
  SlowmodeDelay : Z;
}.

Definition flag_truthy (o : option bool) : bool :=
  match o with Some b => b | None => false end.

(** ** Persistent records *)

(** One document of the sticky collection. [messageId] is the artifact id
    of the live sticky message. *)
Record sticky_record := {
  _id : N;
  channelId : string;
  message : string;
  msgCount : Z;
  messageId : option string;
  useWebhook : bool;
  webhookId : option string;
  webhookToken : option string;
  webhookName : option string;
  webhookAvatarURL : option string;
}.

Definition set_msgCount (f : Z → Z) (r : sticky_record) : sticky_record :=
  {| _id := _id r; channelId := channelId r; message := message r;
     msgCount := f (msgCount r); messageId := messageId r;
     useWebhook := useWebhook r; webhookId := webhookId r;
     webhookToken := webhookToken r; webhookName := webhookName r;
     webhookAvatarURL := webhookAvatarURL r |}.

(** The update document [{ msgCount: 0, messageId: id }]. *)
Definition set_reposted (id : string) (r : sticky_record) : sticky_record :=
  {| _id := _id r; channelId := channelId r; message := message r;
     msgCount := 0; messageId := Some id;
     useWebhook := useWebhook r; webhookId := webhookId r;
     webhookToken := webhookToken r; webhookName := webhookName r;
     webhookAvatarURL := webhookAvatarURL r |}.

(** The update document of the webhook sweep. *)
Definition set_webhook (wid wtoken name : string) (avatar : option string)
    (r : sticky_record) : sticky_record :=
  {| _id := _id r; channelId := channelId r; message := message r;
     msgCount := msgCount r; messageId := messageId r;
     useWebhook := useWebhook r; webhookId := Some wid;
     webhookToken := Some wtoken; webhookName := Some name;
     webhookAvatarURL := avatar |}.

(** ** Platform objects *)

(** The data an [EmbedBuilder] holds. *)
Record embed := {
  embed_title : option string;
  embed_description : option string;
  embed_color : option string;
  embed_image : option string;
  embed_thumbnail : option string;
  embed_footer : option (option string * option string);
  embed_timestamp : bool;
  embed_fields : list (string * string);
}.

(** One call on an [EmbedBuilder], with its arguments ([addFields] with
    the name and the value of each field). *)
Inductive setter :=
| SetTitle (title : option string)
| SetDescription (description : string)
| SetColor (color : option string)
| SetImage (url : option string)
| SetThumbnail (url : option string)
| SetFooter (text iconURL : option string)
| SetTimestamp
| AddFields (fields : list (string * string)).

Inductive payload :=
| PEmbeds (e : embed)
| PContent (s : string).

(** A message as the platform returns it. *)
Record platform_msg := {
  pm_id : string;
  pm_content : string;
  pm_embeds : list embed;
}.

(** [WebhookClient.send] resolves to one message; the handler also accepts
    an array of them. *)
Inductive hook_response :=
| HookOne (m : platform_msg)
| HookMany (ms : list platform_msg).

(** Calls made to the chat platform, in the order they are issued. *)
Inductive call :=
| CFetchMessage (channel id : string)
| CDeleteMessage (channel id : string)
| CFetchRecent (channel : string)
| CWebhookSend (wid wtoken : string) (p : payload)
| CChannelSend (channel : string) (p : payload)
| CFetchWebhooks (channel : string)
| CCreateWebhook (channel name : string) (avatar : option string)
| CSetRateLimit (channel : string) (delay : Z)
| CReplyText (content : string)
| CReplyEmbed (e : embed).

(** What the platform answers: [None] is a rejected promise. The channel
    cache of the client is part of it, and so is the verdict of the
    [EmbedBuilder] of the platform library, which is not part of the
    sources: the builder validates each call against the data it holds
    (the lengths of the title, the description, the footer and the
    fields, the number of fields, the format of colours and addresses)
    and a call it does not accept throws. *)
Record platform := {
  fetch_message : string → string → option platform_msg;
  delete_message : string → string → option unit;
  fetch_recent : string → option (list platform_msg);
  webhook_send : string → string → payload → option hook_response;
  channel_send : string → payload → option platform_msg;
  fetch_webhooks : string → option (list string);
  create_webhook : string → string → option string → option (string * string);
  channel_cache : gmap string string;
  builder_accepts : embed → setter → bool;
}.

(** ** The monad of handler code *)

(** A computation over a state [W] that returns a value or throws an
    error [E]; the state reached is kept in both cases. *)
Inductive outcome (E A : Type) :=
| Returned (a : A)
| Thrown (e : E).
Arguments Returned {E A} a.
Arguments Thrown {E A} e.

Definition Eff (W E A : Type) : Type := W → W * outcome E A.

#[global] Instance Eff_ret {W E} : MRet (Eff W E) := λ A a w, (w, Returned a).
#[global] Instance Eff_bind {W E} : MBind (Eff W E) := λ A B f m w,
  match m w with
  | (w', Returned a) => f a w'
  | (w', Thrown e) => (w', Thrown e)
  end.

Definition throw {W E A} (e : E) : Eff W E A := λ w, (w, Thrown e).

(** [try { body } catch (e) { handler }] *)
Definition try_catch {W E A} (body : Eff W E A) (handler : E → Eff W E A) : Eff W E A :=
  λ w, match body w with
       | (w', Returned a) => (w', Returned a)
       | (w', Thrown e) => handler e w'
       end.

(** [promise.catch(() => v)] *)
Definition catch_with {W E A} (body : Eff W E A) (v : A) : Eff W E A :=
  try_catch body (λ _, mret v).

Fixpoint for_each {W E A} (l : list A) (body : A → Eff W E unit) : Eff W E unit :=
  match l with
  | [] => mret tt
  | x :: l' => body x ;; for_each l' body
  end.

(** *** Handlers of the addon *)

Inductive js_error :=
| Rejected (c : call)
| TypeError (what : string)
| Invalid (s : setter).

Record world := {
  store : list sticky_record;
  cooldowns : gmap string Z;
  calls : list call;
}.

Abbreviation M := (Eff world js_error).

Definition get_store : M (list sticky_record) := λ w, (w, Returned (store w)).

Definition modify_store (f : list sticky_record → list sticky_record) : M unit := λ w,
  ({| store := f (store w); cooldowns := cooldowns w; calls := calls w |}, Returned tt).

Definition get_cooldowns : M (gmap string Z) := λ w, (w, Returned (cooldowns w)).

Definition cooldowns_set (k : string) (v : Z) : M unit := λ w,
  ({| store := store w; cooldowns := <[k := v]> (cooldowns w); calls := calls w |},
   Returned tt).

Definition log_call (c : call) : M unit := λ w,
  ({| store := store w; cooldowns := cooldowns w; calls := calls w ++ [c] |},
   Returned tt).

(** An awaited platform call: it is logged, then resolves or rejects. *)
Definition await {A} (c : call) (answer : option A) : M A :=
  log_call c ;;
  match answer with
  | Some a => mret a
  | None => throw (Rejected c)
  end.


(** ** The record collection *)

(** The module [./StickyModel] is not part of the sources. The collection
    is a list of documents in insertion order; the operations below are
    the ones the addon calls on it. *)
Module StickyModel.

Definition has_channel (c : string) (r : sticky_record) : bool :=
  String.eqb (channelId r) c.

Definition has_id (i : N) (r : sticky_record) : bool := N.eqb (_id r) i.

(** Modelled from the spec: [StickyModel.findOne({ channelId: c })], the
    [get] of the record store, which is missing from the sources: the
    record of the channel (the first one, should there be several) or
    nothing. *)
Definition findOne (c : string) : M (option sticky_record) :=
  s ← get_store; mret (List.find (has_channel c) s).

Fixpoint update_first (i : N) (f : sticky_record → sticky_record)
    (s : list sticky_record) : list sticky_record :=
  match s with
  | [] => []
  | r :: s' => if has_id i r then f r :: s' else r :: update_first i f s'
  end.

(** Modelled from the spec: [StickyModel.findByIdAndUpdate(i, update)],
    the [update] of the record store, which is missing from the sources:
    the document with that id is updated in place; no document, no
    change. *)
Definition findByIdAndUpdate (i : N) (f : sticky_record → sticky_record) : M unit :=
  modify_store (update_first i f).

(** Modelled from the spec: [StickyModel.find({ useWebhook: true })],
    the [listAll] of the record store restricted by the filter, which is
    missing from the sources. *)
Definition find_useWebhook : M (list sticky_record) :=
  s ← get_store; mret (List.filter useWebhook s).

(** Modelled from the spec: [StickyModel.find()], the [listAll] of the
    record store, which is missing from the sources. *)
Definition find_all : M (list sticky_record) := get_store.

Fixpoint remove_first (c : string) (s : list sticky_record) : list sticky_record :=
  match s with
  | [] => []
  | r :: s' => if has_channel c r then s' else r :: remove_first c s'
  end.

(** Modelled from the spec: [StickyModel.findOneAndDelete({ channelId: c })],
    the [delete] of the record store, which is missing from the sources:
    the record of the channel is removed; deleting an absent record
    changes nothing. *)
Definition findOneAndDelete (c : string) : M unit :=
  modify_store (remove_first c).

Definition fresh_id (s : list sticky_record) : N :=
  N.succ (fold_right N.max 0%N (map _id s)).

(** Modelled from the spec: [StickyModel.create(fields)], the [create]
    of the record store, which is missing from the sources: the document
    is added with an identifier no stored document has. *)
Definition create (mk : N → sticky_record) : M unit :=
  modify_store (λ s, (s ++ [mk (fresh_id s)])%list).

End StickyModel.

(** ** The embed builder *)

Definition empty_embed : embed :=
  {| embed_title := None; embed_description := None; embed_color := None;
     embed_image := None; embed_thumbnail := None; embed_footer := None;
     embed_timestamp := false; embed_fields := [] |}.

(** What an accepted call does to the data of the builder. *)
Definition apply_setter (s : setter) (e : embed) : embed :=
  match s with
  | SetTitle t =>
      {| embed_title := t; embed_description := embed_description e;
         embed_color := embed_color e; embed_image := embed_image e;
         embed_thumbnail := embed_thumbnail e; embed_footer := embed_footer e;
         embed_timestamp := embed_timestamp e; embed_fields := embed_fields e |}
  | SetDescription d =>
      {| embed_title := embed_title e; embed_description := Some d;
         embed_color := embed_color e; embed_image := embed_image e;
         embed_thumbnail := embed_thumbnail e; embed_footer := embed_footer e;
         embed_timestamp := embed_timestamp e; embed_fields := embed_fields e |}
  | SetColor c =>
      {| embed_title := embed_title e; embed_description := embed_description e;
         embed_color := c; embed_image := embed_image e;
         embed_thumbnail := embed_thumbnail e; embed_footer := embed_footer e;
         embed_timestamp := embed_timestamp e; embed_fields := embed_fields e |}
  | SetImage u =>
      {| embed_title := embed_title e; embed_description := embed_description e;
         embed_color := embed_color e; embed_image := u;
         embed_thumbnail := embed_thumbnail e; embed_footer := embed_footer e;
         embed_timestamp := embed_timestamp e; embed_fields := embed_fields e |}
  | SetThumbnail u =>
      {| embed_title := embed_title e; embed_description := embed_description e;
         embed_color := embed_color e; embed_image := embed_image e;
         embed_thumbnail := u; embed_footer := embed_footer e;
         embed_timestamp := embed_timestamp e; embed_fields := embed_fields e |}
  | SetFooter text iconURL =>
      {| embed_title := embed_title e; embed_description := embed_description e;
         embed_color := embed_color e; embed_image := embed_image e;
         embed_thumbnail := embed_thumbnail e; embed_footer := Some (text, iconURL);
         embed_timestamp := embed_timestamp e; embed_fields := embed_fields e |}
  | SetTimestamp =>
      {| embed_title := embed_title e; embed_description := embed_description e;
         embed_color := embed_color e; embed_image := embed_image e;
         embed_thumbnail := embed_thumbnail e; embed_footer := embed_footer e;
         embed_timestamp := true; embed_fields := embed_fields e |}
  | AddFields fs =>
      {| embed_title := embed_title e; embed_description := embed_description e;
         embed_color := embed_color e; embed_image := embed_image e;
         embed_thumbnail := embed_thumbnail e; embed_footer := embed_footer e;
         embed_timestamp := embed_timestamp e;
         embed_fields := embed_fields e ++ fs |}
  end.

(** One call on the builder: it updates the data, or throws when the
    builder does not accept it. *)
Definition call_builder (p : platform) (s : setter) (e : embed) : M embed :=
  if builder_accepts p e s then mret (apply_setter s e) else throw (Invalid s).

(** Calls made one after the other on the same builder. *)
Fixpoint call_all (p : platform) (calls : list setter) (e : embed) : M embed :=
  match calls with
  | [] => mret e
  | s :: rest => e' ← call_builder p s e; call_all p rest e'
  end.

(** [if (b) call] *)
Definition when (b : bool) (s : setter) : list setter := if b then [s] else [].

(** ** Rendering *)

(** The [EmbedBuilder] calls of the handler, in the order it makes them.
    The second [setFooter] is made whenever the icon is configured, with
    whatever the footer text is. *)
Definition embed_calls (cfg : config) (body : string) : list setter :=
  let e := EmbedSettings cfg in
  let f := Embed_Footer e in
  (when (Js.truthy (Embed_Title e)) (SetTitle (Embed_Title e))
   ++ [SetDescription body]
   ++ when (Js.truthy (Embed_Color e)) (SetColor (Embed_Color e))
   ++ when (Js.truthy (Embed_Image e)) (SetImage (Embed_PanelImage e))
   ++ when (Js.truthy (Embed_CustomThumbnailURL e))
        (SetThumbnail (Embed_CustomThumbnailURL e))
   ++ when (Footer_Enabled f && Js.truthy (Footer_text f)) (SetFooter (Footer_text f) None)
   ++ when (Js.truthy (Footer_CustomIconURL f))
        (SetFooter (Footer_text f) (Footer_CustomIconURL f))
   ++ when (Embed_Timestamp e) SetTimestamp)%list.

(** The embed of the handler: it is built on every repost, whether or
    not embeds are enabled, and a call the builder rejects throws. *)
Definition build_embed (cfg : config) (p : platform) (body : string) : M embed :=
  call_all p (embed_calls cfg body) empty_embed.

Definition text_body (cfg : config) (body : string) : string :=
  StickiedMessageTitle cfg ++ Js.nl ++ Js.nl ++ body.

(** The payload of the handler: the embed or plain text, by
    [EnableEmbeds]. *)
Definition payload_of (cfg : config) (e : embed) (body : string) : payload :=
  if flag_truthy (EnableEmbeds cfg) then PEmbeds e else PContent (text_body cfg body).

(** ** The messageCreate handler *)

Record message_event := {
  author_id : string;
  client_user_id : string;
  in_guild : bool;
  channel_id : string;
  now_at_check : Z;   (* Date.now() read by the cooldown test *)
  now_at_set : Z;     (* Date.now() read when the cooldown is set *)
}.

(** The test of the fallback scan: does a fetched message carry the sticky
    text? *)
Definition carries_sticky (cfg : config) (sm : sticky_record) (m : platform_msg) : bool :=
  (negb (flag_truthy (EnableEmbeds cfg)) && Js.str_truthy (pm_content m)
     && Js.includes (pm_content m) (message sm))
  || (flag_truthy (EnableEmbeds cfg)
      && existsb (λ e, Js.truthy (embed_description e)
                       && match embed_description e with
                          | Some d => Js.includes d (message sm)
                          | None => false
                          end) (pm_embeds m)).

(** [msg.delete().catch(() => {})] *)
Definition delete_quietly (p : platform) (ch : string) (m : platform_msg) : M unit :=
  catch_with (await (CDeleteMessage ch (pm_id m)) (delete_message p ch (pm_id m))) tt.

(** The scan of the recent messages of the channel; the fetch itself is
    awaited without a handler. *)
Definition scan_and_delete (cfg : config) (p : platform) (ch : string)
    (sm : sticky_record) : M unit :=
  messages ← await (CFetchRecent ch) (fetch_recent p ch);
  for_each messages (λ m,
    if carries_sticky cfg sm m then delete_quietly p ch m else mret tt).

(** Removal of the previous artifact: by the stored id when there is one,
    else by the scan. *)
Definition delete_previous (cfg : config) (p : platform) (ch : string)
    (sm : sticky_record) : M unit :=
  match messageId sm with
  | Some mid =>
      if Js.str_truthy mid then
        oldMsg ← catch_with
                   (m ← await (CFetchMessage ch mid) (fetch_message p ch mid); mret (Some m))
                   None;
        match oldMsg with
        | Some m => delete_quietly p ch m
        | None => mret tt
        end
      else scan_and_delete cfg p ch sm
  | None => scan_and_delete cfg p ch sm
  end.

(** [Array.isArray(res) ? res[0] : res] *)
Definition first_message (res : hook_response) : option platform_msg :=
  match res with
  | HookOne m => Some m
  | HookMany ms => head ms
  end.

Definition send_direct (p : platform) (ch : string) (pl : payload) : M (option platform_msg) :=
  m ← await (CChannelSend ch pl) (channel_send p ch pl); mret (Some m).

(** The test [useWebhook && webhookId && webhookToken] of the dispatch
    block, with the identity it lets through. *)
Definition webhook_identity (sm : sticky_record) : option (string * string) :=
  match useWebhook sm, webhookId sm, webhookToken sm with
  | true, Some wid, Some wtoken =>
      if Js.str_truthy wid && Js.str_truthy wtoken then Some (wid, wtoken) else None
  | _, _, _ => None
  end.

(** Dispatch: through the webhook when the record has one, with the direct
    post as the handler of any error of that path. *)
Definition dispatch (cfg : config) (p : platform) (ch : string)
    (sm : sticky_record) (e : embed) : M (option platform_msg) :=
  let pl := payload_of cfg e (message sm) in
  match webhook_identity sm with
  | Some (wid, wtoken) =>
      try_catch
        (res ← await (CWebhookSend wid wtoken pl) (webhook_send p wid wtoken pl);
         mret (first_message res))
        (λ _, send_direct p ch pl)
  | None => send_direct p ch pl
  end.

(** The repost branch of the handler: removal of the previous artifact,
    the embed, the dispatch, the update of the record. *)
Definition repost (cfg : config) (p : platform) (ch : string)
    (sm : sticky_record) : M unit :=
  delete_previous cfg p ch sm ;;
  embed ← build_embed cfg p (message sm);
  sentMessage ← dispatch cfg p ch sm embed;
  match sentMessage with
  | Some m => StickyModel.findByIdAndUpdate (_id sm) (set_reposted (pm_id m))
  | None => throw (TypeError "sentMessage.id")
  end.

Definition cooldown_open (cd : gmap string Z) (ch : string) (now : Z) : bool :=
  match cd !! ch with
  | None => true
  | Some t => t <=? now
  end.

(** The threshold decision, on the record as the handler read it. *)
Definition reconcile (cfg : config) (p : platform) (ch : string)
    (sm : sticky_record) : M unit :=
  if MaxMessages cfg <=? msgCount sm then repost cfg p ch sm else mret tt.

(** The cooldown gate in front of the decision. *)
Definition gate (cfg : config) (p : platform) (ev : message_event)
    (sm : sticky_record) : M unit :=
  cd ← get_cooldowns;
  if cooldown_open cd (channel_id ev) (now_at_check ev) then
    cooldowns_set (channel_id ev) (now_at_set ev + 1 * 1000) ;;
    reconcile cfg p (channel_id ev) sm
  else mret tt.

(** The author filter of the handler. *)
Definition ignored (ev : message_event) : bool :=
  String.eqb (author_id ev) (client_user_id ev) || negb (in_guild ev).

Definition messageCreate (cfg : config) (p : platform) (ev : message_event) : M unit :=
  if ignored ev then mret tt
  else
    stickyMessage ← StickyModel.findOne (channel_id ev);
    match stickyMessage with
    | None => mret tt
    | Some sm =>
        StickyModel.findByIdAndUpdate (_id sm) (set_msgCount (λ n, n + 1)) ;;
        gate cfg p ev sm
    end.

(** The handler is registered only when the addon is enabled. *)
Definition on_messageCreate (cfg : config) (p : platform) (ev : message_event) : M unit :=
  if flag_truthy (Enabled cfg) then messageCreate cfg p ev else mret tt.

(** A run of the event loop over successive events, each with the answers
    the platform gives while it is handled. An error thrown by a handler
    is reported by the emitter and does not stop the loop. *)
Fixpoint run_events (cfg : config) (evs : list (platform * message_event))
    (w : world) : world :=
  match evs with
  | [] => w
  | (p, ev) :: rest => run_events cfg rest (fst (on_messageCreate cfg p ev w))
  end.

(** ** The webhook sweep *)

Definition config_webhook_name (cfg : config) : option string :=
  match Webhooks cfg with Some w => Webhooks_Name w | None => None end.

Definition config_webhook_avatar (cfg : config) : option string :=
  match Webhooks cfg with Some w => Webhooks_AvatarURL w | None => None end.

(** [rec.webhookName || (config.Webhooks && config.Webhooks.Name) || "Sticky"] *)
Definition sweep_name (cfg : config) (rec : sticky_record) : string :=
  default "Sticky"
    (Js.or_else (webhookName rec) (Js.or_else (config_webhook_name cfg) (Some "Sticky"))).

(** [rec.webhookAvatarURL || (config.Webhooks && config.Webhooks.AvatarURL) || null] *)
Definition sweep_avatar (cfg : config) (rec : sticky_record) : option string :=
  Js.or_else (webhookAvatarURL rec) (Js.or_else (config_webhook_avatar cfg) None).

(** The test that decides [needCreate] for one record. *)
Definition need_create (p : platform) (rec : sticky_record) : M bool :=
  match webhookId rec, webhookToken rec with
  | Some wid, Some wtoken =>
      if Js.str_truthy wid && Js.str_truthy wtoken then
        try_catch
          (hooks ← await (CFetchWebhooks (channelId rec)) (fetch_webhooks p (channelId rec));
           mret (negb (existsb (String.eqb wid) hooks)))
          (λ _, mret true)
      else mret true
  | _, _ => mret true
  end.

(** The body of the loop of [ensureWebhooks]. *)
Definition ensure_record (cfg : config) (p : platform) (rec : sticky_record) : M unit :=
  match channel_cache p !! channelId rec with
  | None => mret tt
  | Some _ =>
      needCreate ← need_create p rec;
      if needCreate : bool then
        let name := sweep_name cfg rec in
        let avatarURL := sweep_avatar cfg rec in
        try_catch
          (created ← await (CCreateWebhook (channelId rec) name avatarURL)
                           (create_webhook p (channelId rec) name avatarURL);
           StickyModel.findByIdAndUpdate (_id rec)
             (set_webhook (fst created) (snd created) name avatarURL))
          (λ _, mret tt)
      else mret tt
  end.

Definition ensureWebhooks (cfg : config) (p : platform) : M unit :=
  try_catch
    (records ← StickyModel.find_useWebhook;
     for_each records (ensure_record cfg p))
    (λ _, mret tt).

(** ** The slash command *)

Inductive subcommand :=
| SubCreate (msg : string) (webhook : option bool)
| SubDelete
| SubList.

Record interaction := {
  can_ManageMessages : bool;
  can_ManageWebhooks : bool;
  interaction_channel : string;
  interaction_sub : subcommand;
}.

Definition reply (content : string) : M unit := log_call (CReplyText content).

(** The [EmbedBuilder] calls of the [create] subcommand; its footer
    rules differ from the ones of the handler. *)
Definition embed_calls_command (cfg : config) (body : string) : list setter :=
  let e := EmbedSettings cfg in
  let f := Embed_Footer e in
  (when (Js.truthy (Embed_Title e)) (SetTitle (Embed_Title e))
   ++ [SetDescription body]
   ++ when (Js.truthy (Embed_Color e)) (SetColor (Embed_Color e))
   ++ when (Js.truthy (Embed_Image e)) (SetImage (Embed_PanelImage e))
   ++ when (Js.truthy (Embed_CustomThumbnailURL e))
        (SetThumbnail (Embed_CustomThumbnailURL e))
   ++ when (Footer_Enabled f && Js.truthy (Footer_text f)) (SetFooter (Footer_text f) None)
   ++ when (Footer_Enabled f && Js.truthy (Footer_text f)
            && Js.truthy (Footer_CustomIconURL f))
        (SetFooter (Footer_text f) (Footer_CustomIconURL f))
   ++ when (Embed_Timestamp e) SetTimestamp)%list.

(** The embed of [create]: built before any webhook or message call, and
    a call the builder rejects throws. *)
Definition build_embed_command (cfg : config) (p : platform) (body : string) : M embed :=
  call_all p (embed_calls_command cfg body) empty_embed.

(** [sentMessage?.id || null] for what a send resolved to. *)
Definition sent_id (sent : option hook_response) : option string :=
  match sent with
  | Some (HookOne m) => Js.or_else (Some (pm_id m)) None
  | Some (HookMany _) => None
  | None => None
  end.

Record webhook_data := {
  wd_id : option string;
  wd_token : option string;
  wd_name : option string;
  wd_avatar : option string;
}.

Definition no_webhook : webhook_data :=
  {| wd_id := None; wd_token := None; wd_name := None; wd_avatar := None |}.

(** The webhook part of [create]: the webhook is created outside the
    [try], the first send through it inside. *)
Definition create_via_webhook (cfg : config) (p : platform) (ch msg : string)
    (e : embed) : M (option hook_response * webhook_data * bool) :=
  let webhookName :=
    if Js.truthy (config_webhook_name cfg) then default "Sticky" (config_webhook_name cfg)
    else "Sticky" in
  let avatarURL :=
    if Js.truthy (config_webhook_avatar cfg) then config_webhook_avatar cfg else None in
  createdHook ← await (CCreateWebhook ch webhookName avatarURL)
                      (create_webhook p ch webhookName avatarURL);
  let pl := match EnableEmbeds cfg with
            | Some true => PEmbeds e
            | _ => PContent (text_body cfg msg)
            end in
  try_catch
    (sent ← await (CWebhookSend (fst createdHook) (snd createdHook) pl)
                  (webhook_send p (fst createdHook) (snd createdHook) pl);
     mret (Some sent,
           {| wd_id := Some (fst createdHook); wd_token := Some (snd createdHook);
              wd_name := Some webhookName; wd_avatar := avatarURL |},
           true))
    (λ _, mret (None, no_webhook, false)).

(** The direct post of [create]: one of two sends by [EnableEmbeds], none
    when the key is neither [true] nor [false]. *)
Definition create_direct (cfg : config) (p : platform) (ch msg : string)
    (e : embed) : M (option hook_response) :=
  match EnableEmbeds cfg with
  | Some false =>
      m ← await (CChannelSend ch (PContent (text_body cfg msg)))
                (channel_send p ch (PContent (text_body cfg msg)));
      mret (Some (HookOne m))
  | Some true =>
      m ← await (CChannelSend ch (PEmbeds e)) (channel_send p ch (PEmbeds e));
      mret (Some (HookOne m))
  | None => mret None
  end.

Definition sub_create (cfg : config) (p : platform) (i : interaction)
    (raw : string) (webhookOpt : option bool) : M unit :=
  let ch := interaction_channel i in
  existing ← StickyModel.findOne ch;
  match existing with
  | Some _ =>
      reply "There is already a sticky message in this channel! Delete the old one before creating a new one"
  | None =>
      let msg := Js.unescape_newlines raw in
      let wanted :=
        match webhookOpt with
        | Some b => b
        | None => match Webhooks cfg with
                  | Some w => Webhooks_EnabledByDefault w
                  | None => false
                  end
        end in
      if wanted && negb (can_ManageWebhooks i) then
        reply "You need Manage Webhooks permission to create sticky via webhook."
      else
        embed ← build_embed_command cfg p msg;
        first ← (if wanted then create_via_webhook cfg p ch msg embed
                 else mret (None, no_webhook, false));
        let '(sent0, webhookData, useWebhook') := first in
        sentMessage ← match sent0 with
                      | Some _ => mret sent0
                      | None => create_direct cfg p ch msg embed
                      end;
        StickyModel.create (λ fresh,
          {| _id := fresh; channelId := ch; message := msg; msgCount := 0;
             messageId := sent_id sentMessage; useWebhook := useWebhook';
             webhookId := wd_id webhookData; webhookToken := wd_token webhookData;
             webhookName := wd_name webhookData;
             webhookAvatarURL := wd_avatar webhookData |}) ;;
        reply "You have successfully set a sticky message in this channel!" ;;
        if EnableSlowmode cfg then log_call (CSetRateLimit ch (SlowmodeDelay cfg))
        else mret tt
  end.

Definition sub_delete (cfg : config) (p : platform) (i : interaction) : M unit :=
  let ch := interaction_channel i in
  stickyMessage ← StickyModel.findOne ch;
  match stickyMessage with
  | None => reply "There is no sticky message in this channel!"
  | Some sm =>
      StickyModel.findOneAndDelete ch ;;
      (if Js.truthy (messageId sm) then
         try_catch
           (oldMsg ← catch_with
                       (m ← await (CFetchMessage ch (default EmptyString (messageId sm)))
                                  (fetch_message p ch (default EmptyString (messageId sm)));
                        mret (Some m))
                       None;
            match oldMsg with
            | Some m => delete_quietly p ch m
            | None => mret tt
            end)
           (λ _, mret tt)
       else
         msgs ← await (CFetchRecent ch) (fetch_recent p ch);
         for_each msgs (λ m,
           if Js.str_truthy (pm_content m) && Js.includes (pm_content m) (message sm)
           then delete_quietly p ch m else mret tt)) ;;
      (if EnableSlowmode cfg then log_call (CSetRateLimit ch 0) else mret tt) ;;
      reply "You have successfully deleted the sticky message from this channel!"
  end.

(** The three fields [list] adds for a record whose channel is cached
    under [name]. *)
Definition record_fields (name : string) (sm : sticky_record) : list (string * string) :=
  [("Channel", name); ("Message", message sm);
   ("Webhook", if useWebhook sm then "Yes" else "No")].

(** The loop of [list] over the snapshot returned by [find()]: a record
    whose channel is cached adds three fields to the embed with one
    [addFields] call, which throws if the builder rejects it; any other
    record is removed from the collection. *)
Fixpoint list_loop (p : platform) (snapshot : list sticky_record)
    (e : embed) : M embed :=
  match snapshot with
  | [] => mret e
  | sm :: rest =>
      match channel_cache p !! channelId sm with
      | Some name =>
          e' ← call_builder p (AddFields (record_fields name sm)) e;
          list_loop p rest e'
      | None =>
          StickyModel.findOneAndDelete (channelId sm) ;;
          list_loop p rest e
      end
  end.

(** The two calls that start the embed of [list]. *)
Definition list_header : list setter :=
  [SetTitle (Some "Active Sticky Messages"); SetColor (Some "Green")].

Definition sub_list (p : platform) : M unit :=
  allStickyMessages ← StickyModel.find_all;
  match allStickyMessages with
  | [] => reply "There are no active sticky messages."
  | _ :: _ =>
      embed0 ← call_all p list_header empty_embed;
      embed ← list_loop p allStickyMessages embed0;
      log_call (CReplyEmbed embed)
  end.

Definition execute (cfg : config) (p : platform) (i : interaction) : M unit :=
  if negb (can_ManageMessages i) then
    reply "You don't have permissions to use this command!"
  else if match Enabled cfg with Some false => true | _ => false end then
    reply "This command has been disabled in the config!"
  else
    match interaction_sub i with
    | SubCreate msg webhookOpt => sub_create cfg p i msg webhookOpt
    | SubDelete => sub_delete cfg p i
    | SubList => sub_list p
    end.

(** ** The version checker *)

Module VersionChecker.

(** *** Values *)

(** A value the checker reads: a parsed JSON document or, where a lookup
    on an object falls through to [Object.prototype], the member found
    there (a function, or the prototype itself for [__proto__]). The
    fields of an object are its own properties, one entry per key;
    numbers are kept as integers, which is all the checker looks at
    (their truthiness). *)
#[warnings="-register-all"]
Inductive json :=
| JNull
| JBool (b : bool)
| JNum (z : Z)
| JStr (s : string)
| JArr (items : list json)
| JObj (fields : list (string * json))
| JInherited (member : string).

(** A JavaScript value of the checker: a JSON value or [undefined]. *)
Abbreviation jsval := (option json).

Definition truthy (v : jsval) : bool :=
  match v with
  | None | Some JNull => false
  | Some (JBool b) => b
  | Some (JNum z) => negb (z =? 0)
  | Some (JStr s) => Js.str_truthy s
  | Some (JArr _) | Some (JObj _) | Some (JInherited _) => true
  end.

(** [a || b] *)
Definition or_else (a b : jsval) : jsval := if truthy a then a else b.

Fixpoint lookup_field (k : string) (fields : list (string * json)) : jsval :=
  match fields with
  | [] => None
  | (k', v) :: rest => if String.eqb k' k then Some v else lookup_field k rest
  end.

(** *** Errors and effects *)

Inductive error :=
| HttpError (status : Z) (statusText : string)
| FetchFailed (reason : string)
| BodyNotJson
| FailedAfter (retries : Z) (cause : error)
| NotInRegistry (addon : string)
| NotReadable (property : string)
| NotAFunction (method : string).

(** What one [fetch] call does: it rejects (network failure, or the abort
    signal fired), or resolves to a response whose body parses or not. *)
Inductive fetch_result :=
| FetchRejected (reason : string)
| FetchResponse (ok : bool) (status : Z) (statusText : string) (body : option json).

Inductive event :=
| Request (url : string) (headers : list (string * string)) (abort_after : Z)
| Sleep (ms : Z)
| ConsoleLog (line : string).

(** The number of requests made so far and the log of what the checker
    did. The [n]-th request gets the answer the network gives to it. *)
Record net_world := {
  requests : nat;
  events : list event;
}.

Abbreviation V := (Eff net_world error).

Definition emit (e : event) : V unit := λ w,
  ({| requests := requests w; events := events w ++ [e] |}, Returned tt).

(** The members every object inherits from [Object.prototype]. *)
Definition inherited_member (k : string) : bool :=
  existsb (String.eqb k)
    ["constructor"; "hasOwnProperty"; "isPrototypeOf"; "propertyIsEnumerable";
     "toLocaleString"; "toString"; "valueOf"; "__proto__";
     "__defineGetter__"; "__defineSetter__"; "__lookupGetter__"; "__lookupSetter__"].

(** [obj[k]] on an object: its own property, else the inherited member. *)
Definition read_field (k : string) (fields : list (string * json)) : jsval :=
  match lookup_field k fields with
  | Some v => Some v
  | None => if inherited_member k then Some (JInherited k) else None
  end.

(** [v.k]: reading a property of [null] or [undefined] throws. On a
    string, an array, a number, a boolean or an inherited member the read
    gives [undefined]: none of the fixed keys the checker reads is a
    property of such a value. The one key that is not fixed is the name
    of the add-on in the registry lookup; there this is exact when
    [addons] is an object. *)
Definition get_prop (v : jsval) (k : string) : V jsval :=
  match v with
  | None | Some JNull => throw (NotReadable k)
  | Some (JObj fields) => mret (read_field k fields)
  | Some _ => mret None
  end.

(** *** Options *)

Record options_in := {
  in_apiUrl : option string;
  in_repositoryUrl : option string;
  in_checkOnStartup : option bool;
  in_timeout : option Z;
  in_retries : option Z;
  in_useLegacyApi : option bool;
  in_trackAnalytics : option bool;
}.

Record options := {
  apiUrl : string;
  repositoryUrl : string;
  checkOnStartup : bool;
  timeout : Z;
  retries : Z;
  useLegacyApi : bool;
  trackAnalytics : bool;
}.

(** [given || fallback] for a key that may be absent. *)
Definition or_default {A} (is_truthy : A → bool) (given : option A) (fallback : A) : A :=
  match given with
  | Some v => if is_truthy v then v else fallback
  | None => fallback
  end.

(** [given !== false] *)
Definition not_false (given : option bool) : bool :=
  match given with Some false => false | _ => true end.

(** The trailing [...options]: a key that is present overrides the value
    computed before it. *)
Definition spread {A} (given : option A) (computed : A) : A :=
  match given with Some v => v | None => computed end.

Definition make_options (o : options_in) : options :=
  {| apiUrl := spread (in_apiUrl o)
                 (or_default Js.str_truthy (in_apiUrl o) "https://addons.plexdev.live");
     repositoryUrl := spread (in_repositoryUrl o)
                 (or_default Js.str_truthy (in_repositoryUrl o)
                    "https://addons.plexdev.live/versions.json");
     checkOnStartup := spread (in_checkOnStartup o) (not_false (in_checkOnStartup o));
     timeout := spread (in_timeout o)
                 (or_default (λ z, negb (z =? 0)) (in_timeout o) 10000);
     retries := spread (in_retries o)
                 (or_default (λ z, negb (z =? 0)) (in_retries o) 2);
     useLegacyApi := spread (in_useLegacyApi o) (or_default id (in_useLegacyApi o) false);
     trackAnalytics := spread (in_trackAnalytics o) (not_false (in_trackAnalytics o)) |}.

Definition no_options : options_in :=
  {| in_apiUrl := None; in_repositoryUrl := None; in_checkOnStartup := None;
     in_timeout := None; in_retries := None; in_useLegacyApi := None;
     in_trackAnalytics := None |}.

Record checker := {
  addonName : string;
  currentVersion : string;
  opts : options;
}.

Definition constructor (name version : string) (o : options_in) : checker :=
  {| addonName := name; currentVersion := version; opts := make_options o |}.

(** *** Versions *)

Definition is_space (c : ascii) : bool :=
  let n := nat_of_ascii c in
  (Nat.leb 9 n && Nat.leb n 13) || Nat.eqb n 32.

Fixpoint skip_spaces (s : string) : string :=
  match s with
  | String c rest => if is_space c then skip_spaces rest else s
  | EmptyString => s
  end.

Definition digit_of (c : ascii) : option Z :=
  let n := Z.of_nat (nat_of_ascii c) in
  if (48 <=? n) && (n <=? 57) then Some (n - 48) else None.

(** The value of the longest prefix of decimal digits, [None] if it is
    empty. *)
Fixpoint read_digits (s : string) (acc : option Z) : option Z :=
  match s with
  | String c rest =>
      match digit_of c with
      | Some d => read_digits rest (Some (10 * default 0 acc + d))
      | None => acc
      end
  | EmptyString => acc
  end.

(** [parseInt(s, 10)], with [None] for [NaN]: leading white space, an
    optional sign, then digits. White space is the ASCII one, and the
    value is the exact integer: the code computes it as an IEEE double,
    which is that integer below 2^53. *)
Definition parseInt (s : string) : option Z :=
  match skip_spaces s with
  | String "-"%char rest => Z.opp <$> read_digits rest None
  | String "+"%char rest => read_digits rest None
  | t => read_digits t None
  end.

(** [s.split('.')] *)
Fixpoint split_dots (s : string) : list string :=
  match s with
  | EmptyString => [EmptyString]
  | String c rest =>
      if Ascii.eqb c "."%char then EmptyString :: split_dots rest
      else match split_dots rest with
           | h :: t => String c h :: t
           | [] => [String c EmptyString]
           end
  end.

(** [version.replace(/^v/i, '')] *)
Definition strip_v (version : string) : string :=
  match version with
  | String c rest => if Ascii.eqb c "v"%char || Ascii.eqb c "V"%char then rest else version
  | EmptyString => version
  end.

Definition parseVersion (version : string) : list Z :=
  map (λ num, default 0 (parseInt num)) (split_dots (strip_v version)).

(** The loop of [compareVersions] from index [i], with [n] indices left;
    [parts[i] || 0] reads 0 past the end of an array. *)
Fixpoint compare_from (currentParts latestParts : list Z) (n i : nat) : Z :=
  match n with
  | O => 0
  | S n' =>
      let currentPart := nth i currentParts 0 in
      let latestPart := nth i latestParts 0 in
      if currentPart <? latestPart then -1
      else if currentPart >? latestPart then 1
      else compare_from currentParts latestParts n' (S i)
  end.

Definition compareVersions (current latest : string) : Z :=
  let currentParts := parseVersion current in
  let latestParts := parseVersion latest in
  let maxLength := Nat.max (length currentParts) (length latestParts) in
  compare_from currentParts latestParts maxLength 0.




(** *** Slugs *)

(** [toLowerCase] on an ASCII character. *)
Definition lower (c : ascii) : ascii :=
  let n := nat_of_ascii c in
  if Nat.leb 65 n && Nat.leb n 90 then ascii_of_nat (n + 32) else c.

(** The class [a-z0-9]. *)
Definition is_slug_char (c : ascii) : bool :=
  let n := nat_of_ascii c in
  (Nat.leb 97 n && Nat.leb n 122) || (Nat.leb 48 n && Nat.leb n 57).

Fixpoint lowercase (s : string) : string :=
  match s with
  | EmptyString => EmptyString
  | String c rest => String (lower c) (lowercase rest)
  end.

(** [s.replace(/[^a-z0-9]+/g, '-')]: every maximal run of characters
    outside [a-z0-9] becomes one dash; [in_run] tells that the dash of
    the current run is already written. *)
Fixpoint dash_runs (in_run : bool) (s : string) : string :=
  match s with
  | EmptyString => EmptyString
  | String c rest =>
      if is_slug_char c then String c (dash_runs false rest)
      else if in_run then dash_runs true rest
           else String "-"%char (dash_runs true rest)
  end.

(** The two halves of [s.replace(/^-+|-+$/g, '')]. *)
Fixpoint strip_leading_dashes (s : string) : string :=
  match s with
  | String c rest => if Ascii.eqb c "-"%char then strip_leading_dashes rest else s
  | EmptyString => s
  end.

Fixpoint strip_trailing_dashes (s : string) : string :=
  match s with
  | EmptyString => EmptyString
  | String c rest =>
      match strip_trailing_dashes rest with
      | EmptyString => if Ascii.eqb c "-"%char then EmptyString else String c EmptyString
      | t => String c t
      end
  end.

(** [slugify(name)], for a name made of ASCII characters (a byte outside
    ASCII counts as a character outside [a-z0-9]). *)
Definition slugify (name : string) : string :=
  strip_trailing_dashes (strip_leading_dashes (dash_runs false (lowercase name))).

(** *** Requests *)

Section Requests.

(** The answer of the network to the [n]-th request. *)
Variable net : nat → fetch_result.
Variable self : checker.

Definition user_agent : string :=
  "PlexAddons-VersionChecker/" ++ addonName self ++ "/2.1.0".

(** The [try] block of one attempt: the request is sent with an abort
    timer of [options.timeout] milliseconds; a response that is not [ok]
    throws, else its body is parsed. *)
Definition attempt_once (url : string) (extraHeaders : list (string * string)) : V jsval :=
  λ w,
    let headers := ([("User-Agent", user_agent); ("Accept", "application/json")]
                    ++ extraHeaders)%list in
    let w' := {| requests := S (requests w);
                 events := events w ++ [Request url headers (timeout (opts self))] |} in
    match net (requests w) with
    | FetchRejected reason => (w', Thrown (FetchFailed reason))
    | FetchResponse ok status statusText body =>
        if ok then
          match body with
          | Some j => (w', Returned (Some j))
          | None => (w', Thrown BodyNotJson)
          end
        else (w', Thrown (HttpError status statusText))
    end.

(** The loop [for (attempt = 1; attempt <= retries; attempt++)] from the
    current value of [attempt]; [n] is the number of values of [attempt]
    the test still lets through. Leaving the loop returns [undefined]. *)
Fixpoint attempts_from (url : string) (extraHeaders : list (string * string))
    (n : nat) (attempt : Z) : V jsval :=
  match n with
  | O => mret None
  | S n' =>
      try_catch (attempt_once url extraHeaders)
        (λ error,
           if attempt =? retries (opts self)
           then throw (FailedAfter (retries (opts self)) error)
           else emit (Sleep (1000 * attempt)) ;;
                attempts_from url extraHeaders n' (attempt + 1))
  end.

Definition fetchWithRetry (url : string) (extraHeaders : list (string * string)) : V jsval :=
  attempts_from url extraHeaders (Z.to_nat (retries (opts self))) 1.

(** The [addon] part of what a fetch returns (the slug is left out). *)
Record addon_info := {
  addon_name : jsval;
  addon_external : jsval;
  addon_homepage : jsval;
  addon_description : jsval;
}.

Record fetched := {
  f_addon : addon_info;
  f_latestVersion : jsval;
  f_repository : jsval;
  f_supportContact : jsval;
  f_lastUpdated : jsval;
}.

Definition fetchFromApi : V fetched :=
  let latestUrl := apiUrl (opts self) ++ "/api/addons/" ++ addonName self ++ "/latest" in
  let headers := if trackAnalytics (opts self)
                 then [("X-Current-Version", currentVersion self)] else [] in
  latestVersion ← fetchWithRetry latestUrl headers;
  name ← get_prop latestVersion "name";
  external ← get_prop latestVersion "external";
  homepage ← get_prop latestVersion "homepage";
  description ← get_prop latestVersion "description";
  mret {| f_addon := {| addon_name := or_else name (Some (JStr (addonName self)));
                        addon_external := or_else external (Some (JBool false));
                        addon_homepage := or_else homepage (Some JNull);
                        addon_description := or_else description (Some JNull) |};
          f_latestVersion := latestVersion;
          f_repository := None;
          f_supportContact := None;
          f_lastUpdated := None |}.

Definition fetchFromLegacy : V fetched :=
  data ← fetchWithRetry (repositoryUrl (opts self)) [];
  addons ← get_prop data "addons";
  if negb (truthy addons) then throw (NotInRegistry (addonName self))
  else
    entry ← get_prop addons (addonName self);
    if negb (truthy entry) then throw (NotInRegistry (addonName self))
    else
      external ← get_prop entry "external";
      homepage ← get_prop entry "homepage";
      description ← get_prop entry "description";
      repository ← get_prop data "repository";
      supportContact ← get_prop data "supportContact";
      supportServer ← get_prop data "supportServer";
      lastUpdated ← get_prop data "lastUpdated";
      mret {| f_addon := {| addon_name := Some (JStr (addonName self));
                            addon_external := or_else external (Some (JBool false));
                            addon_homepage := or_else homepage (Some JNull);
                            addon_description := or_else description (Some JNull) |};
              f_latestVersion := entry;
              f_repository := repository;
              f_supportContact := or_else supportContact supportServer;
              f_lastUpdated := lastUpdated |}.

(** *** The update check *)

(** The object [checkForUpdates] resolves to. [error] is the error whose
    message the object carries. The fields read off the release entry
    after the comparison (dates, links, change log) are reads of
    properties of a value known to be truthy there and are left out. *)
Record check_result := {
  success : bool;
  isOutdated : bool;
  isNewer : bool;
  isCurrent : bool;
  current : option string;
  latest : option string;
  error_of : option error;
  note : option string;
  repository : jsval;
  supportContact : jsval;
  apiSource : option string;
}.

(** [compareVersions(this.currentVersion, latestVersionStr)] on a value
    read from the response: [parseVersion] calls [replace] on it, which
    only a string has. *)
Definition compare_with (latestVersionStr : jsval) : V (Z * string) :=
  match latestVersionStr with
  | Some (JStr s) => mret (compareVersions (currentVersion self) s, s)
  | None | Some JNull => throw (NotReadable "replace")
  | Some _ => throw (NotAFunction "replace")
  end.

Definition checkForUpdates : V check_result :=
  try_catch
    (data ← (if useLegacyApi (opts self) then fetchFromLegacy
             else try_catch fetchFromApi
                    (λ apiError,
                       emit (ConsoleLog "[VersionChecker] API unavailable, falling back to legacy endpoint") ;;
                       fetchFromLegacy));
     let latestVersion := f_latestVersion data in
     if negb (truthy latestVersion) then
       mret {| success := true; isOutdated := false; isCurrent := true; isNewer := false;
               current := Some (currentVersion self);
               latest := Some (currentVersion self);
               error_of := None;
               note := Some "No version information available";
               repository := None; supportContact := None; apiSource := None |}
     else
       latestVersionStr ← get_prop latestVersion "version";
       cmp ← compare_with latestVersionStr;
       let comparison := fst cmp in
       mret {| success := true;
               isOutdated := comparison <? 0;
               isNewer := comparison >? 0;
               isCurrent := comparison =? 0;
               current := Some (currentVersion self);
               latest := Some (snd cmp);
               error_of := None;
               note := None;
               repository :=
                 or_else (f_repository data)
                   (Some (JStr "https://github.com/Bali0531-RC/Plexdev-Addons"));
               supportContact :=
                 or_else (f_supportContact data) (Some (JStr "https://discord.gg/plexdev"));
               apiSource := Some (if useLegacyApi (opts self) then "legacy" else "api") |})
    (λ error,
       mret {| success := false; isOutdated := false; isCurrent := false; isNewer := false;
               current := None; latest := None;
               error_of := Some error;
               note := None;
               repository := None; supportContact := None; apiSource := None |}).

End Requests.

(** *** The list of versions *)

(** One entry of [versions]; of its fields only [version] is kept, like
    the fields of [check_result]. *)
Record version_entry := {
  ve_version : option string;
}.

Record versions_result := {
  vr_success : bool;
  vr_versions : list version_entry;
  vr_error : option error;
  vr_note : option string;
}.

(** [getAllVersions(limit)]; both branches call [checkForUpdates] and wrap
    its latest version. *)
Definition getAllVersions (net : nat → fetch_result) (self : checker) (limit : Z)
    : V versions_result :=
  try_catch
    (if useLegacyApi (opts self) then
       result ← checkForUpdates net self;
       mret {| vr_success := success result;
               vr_versions := if success result
                              then [{| ve_version := latest result |}] else [];
               vr_error := error_of result;
               vr_note := None |}
     else
       result ← checkForUpdates net self;
       mret {| vr_success := success result;
               vr_versions := if success result
                              then [{| ve_version := latest result |}] else [];
               vr_error := error_of result;
               vr_note := Some "Public API only returns latest version. Use versions.json for all versions." |})
    (λ error,
       mret {| vr_success := false; vr_versions := []; vr_error := Some error;
               vr_note := None |}).

(** *** Vocabulary of the statements *)

(** A well-formed slug: characters of [a-z0-9] and single dashes between
    them, none at either end. [after_char] tells that the previous
    character was of [a-z0-9]. *)
Fixpoint slug_tail (after_char : bool) (s : string) : bool :=
  match s with
  | EmptyString => after_char
  | String c rest =>
      if is_slug_char c then slug_tail true rest
      else Ascii.eqb c "-"%char && after_char && slug_tail false rest
  end.

Definition is_slug (s : string) : bool :=
  match s with
  | EmptyString => true
  | String c rest => is_slug_char c && slug_tail true rest
  end.

(** Every character of the name is an ASCII character. *)
Fixpoint ascii_only (s : string) : bool :=
  match s with
  | EmptyString => true
  | String c rest => Nat.ltb (nat_of_ascii c) 128 && ascii_only rest
  end.

(** A tag that may follow the last number of a version, as [-beta] or
    [+build5]: it holds no dot and does not start with a digit. *)
Fixpoint no_dot (s : string) : bool :=
  match s with
  | EmptyString => true
  | String c rest => negb (Ascii.eqb c "."%char) && no_dot rest
  end.

Definition is_tag (t : string) : bool :=
  match t with
  | EmptyString => true
  | String c _ => match digit_of c with Some _ => false | None => no_dot t end
  end.

(** The [i]-th component of a parsed version, 0 past its end. *)
Definition component (parts : list Z) (i : nat) : Z := nth i parts 0.

(** [data.addons[name]] for a document whose [addons] is an object: the
    entry of the registry for the add-on, [undefined] when there is
    none. *)
Definition registry_entry (doc : json) (name : string) : jsval :=
  match doc with
  | JObj fields =>
      match lookup_field "addons" fields with
      | Some (JObj addons) => read_field name addons
      | _ => None
      end
  | _ => None
  end.

(** The [addons] of the document is an object, or it is missing or falsy
    (the document may be anything but [null]). *)
Definition plain_registry (doc : json) : bool :=
  match doc with
  | JObj fields =>
      match lookup_field "addons" fields with
      | Some (JObj _) | None => true
      | Some v => negb (truthy (Some v))
      end
  | _ => true
  end.

(** A network that answers every request with the given body. *)
Definition net_serving (body : json) : nat → fetch_result :=
  λ _, FetchResponse true 200 "OK" (Some body).

(** The error one attempt ends with, if the answer to its request makes
    it fail, and the value it returns otherwise. *)
Definition attempt_failure (r : fetch_result) : option error :=
  match r with
  | FetchRejected reason => Some (FetchFailed reason)
  | FetchResponse ok status statusText body =>
      if ok then match body with Some _ => None | None => Some BodyNotJson end
      else Some (HttpError status statusText)
  end.

Definition attempt_value (r : fetch_result) : jsval :=
  match r with
  | FetchResponse _ _ _ body => body
  | FetchRejected _ => None
  end.

(** The request every attempt sends. *)
Definition request_event (self : checker) (url : string)
    (extraHeaders : list (string * string)) : event :=
  Request url
    ([("User-Agent", user_agent self); ("Accept", "application/json")] ++ extraHeaders)%list
    (timeout (opts self)).

(** The log of [k] attempts, the first of them numbered [attempt]: a
    request per attempt and, between two attempts, a pause of 1000 ms
    times the number of the attempt that failed. *)
Fixpoint retry_trace (req : event) (k : nat) (attempt : Z) : list event :=
  match k with
  | O => []
  | S k' =>
      req :: match k' with
             | O => []
             | S _ => Sleep (1000 * attempt) :: retry_trace req k' (attempt + 1)
             end
  end.

(** What a run of the loop amounts to: [k] of the [n] attempts left were
    made from the world [w], all but the last failed, and the last one
    decided the outcome [out]. *)
Definition retried (net : nat → fetch_result) (self : checker) (url : string)
    (extra : list (string * string)) (n k : nat) (attempt : Z)
    (w w' : net_world) (out : outcome error jsval) : Prop :=
  (k ≤ n)%nat
  ∧ requests w' = (requests w + k)%nat
  ∧ events w' = (events w ++ retry_trace (request_event self url extra) k attempt)%list
  ∧ (∀ j, (S j < k)%nat → attempt_failure (net (requests w + j)%nat) ≠ None)
  ∧ match out with
    | Returned v =>
        (k = 0%nat ∧ n = 0%nat ∧ v = None)
        ∨ ∃ j, k = S j
               ∧ attempt_failure (net (requests w + j)%nat) = None
               ∧ v = attempt_value (net (requests w + j)%nat)
    | Thrown e =>
        ∃ j cause, k = S j ∧ k = n
                   ∧ attempt_failure (net (requests w + j)%nat) = Some cause
                   ∧ e = FailedAfter (retries (opts self)) cause
    end.



(** A network on which every request fails with HTTP 503. *)
Definition net_unavailable : nat → fetch_result :=
  λ _, FetchResponse false 503 "Service Unavailable" None.

End VersionChecker.

(** * Vocabulary of the statements and sample data *)

(** ** Vocabulary of the statements *)

(** The record stored for a channel. *)
Definition stored (s : list sticky_record) (ch : string) : option sticky_record :=
  List.find (StickyModel.has_channel ch) s.

(** Document identifiers are unique in the collection. *)
Definition unique_ids (s : list sticky_record) : Prop := NoDup (map _id s).

Definition bump (r : sticky_record) : sticky_record := set_msgCount (λ n, n + 1) r.

(** The world once the increment for the record [sm] is persisted. *)
Definition counted (sm : sticky_record) (w : world) : world :=
  {| store := StickyModel.update_first (_id sm) bump (store w);
     cooldowns := cooldowns w; calls := calls w |}.

(** The world once the cooldown of the channel of [ev] is set. *)
Definition armed (ev : message_event) (w : world) : world :=
  {| store := store w;
     cooldowns := <[channel_id ev := now_at_set ev + 1 * 1000]> (cooldowns w);
     calls := calls w |}.

(** The first of a sequence of calls that the builder rejects, if there
    is one, and the data the builder holds once all are accepted. *)
Fixpoint rejected_call (p : platform) (calls : list setter) (e : embed) : option setter :=
  match calls with
  | [] => None
  | s :: rest =>
      if builder_accepts p e s then rejected_call p rest (apply_setter s e) else Some s
  end.

Definition embed_after (calls : list setter) (e : embed) : embed :=
  fold_left (λ e s, apply_setter s e) calls e.

(** The builder accepts the embed of the handler for a record. *)
Definition embed_accepted (cfg : config) (p : platform) (sm : sticky_record) : Prop :=
  rejected_call p (embed_calls cfg (message sm)) empty_embed = None.

(** The embed of the handler for a record, once the builder has accepted
    its calls, and the payload the handler then sends. *)
Definition handler_embed (cfg : config) (sm : sticky_record) : embed :=
  embed_after (embed_calls cfg (message sm)) empty_embed.

Definition render (cfg : config) (sm : sticky_record) : payload :=
  payload_of cfg (handler_embed cfg sm) (message sm).

Definition is_dispatch (c : call) : bool :=
  match c with
  | CWebhookSend _ _ _ | CChannelSend _ _ => true
  | _ => false
  end.

Definition is_delete (c : call) : bool :=
  match c with CDeleteMessage _ _ => true | _ => false end.

Definition is_create_webhook (c : call) : bool :=
  match c with CCreateWebhook _ _ _ => true | _ => false end.

(** The message a send call produced, if the platform accepted it. *)
Definition posted_by (p : platform) (c : call) : option platform_msg :=
  match c with
  | CChannelSend ch pl => channel_send p ch pl
  | CWebhookSend wid wtoken pl =>
      match webhook_send p wid wtoken pl with
      | Some res => first_message res
      | None => None
      end
  | _ => None
  end.

(** The world after the calls [cs] have been issued. *)
Definition logged (cs : list call) (w : world) : world :=
  {| store := store w; cooldowns := cooldowns w; calls := calls w ++ cs |}.

(** The delete calls of a scan over the fetched messages. *)
Definition scan_calls (cfg : config) (ch : string) (sm : sticky_record)
    (messages : list platform_msg) : list call :=
  map (λ m, CDeleteMessage ch (pm_id m)) (List.filter (carries_sticky cfg sm) messages).

(** The platform calls of the removal step. *)
Definition removal_calls (cfg : config) (p : platform) (ch : string)
    (sm : sticky_record) : list call :=
  if Js.truthy (messageId sm) then
    let mid := default EmptyString (messageId sm) in
    CFetchMessage ch mid ::
      match fetch_message p ch mid with
      | Some m => [CDeleteMessage ch (pm_id m)]
      | None => []
      end
  else
    CFetchRecent ch ::
      match fetch_recent p ch with
      | Some messages => scan_calls cfg ch sm messages
      | None => []
      end.

(** The removal step is cut short only when the scan cannot read the
    recent messages. *)
Definition scan_unreadable (p : platform) (ch : string) (sm : sticky_record) : bool :=
  negb (Js.truthy (messageId sm))
  && match fetch_recent p ch with Some _ => false | None => true end.

(** The send calls of a dispatch and what it resolves to. *)
Definition dispatch_calls (cfg : config) (p : platform) (ch : string)
    (sm : sticky_record) : list call :=
  let pl := render cfg sm in
  match webhook_identity sm with
  | Some (wid, wtoken) =>
      match webhook_send p wid wtoken pl with
      | Some _ => [CWebhookSend wid wtoken pl]
      | None => [CWebhookSend wid wtoken pl; CChannelSend ch pl]
      end
  | None => [CChannelSend ch pl]
  end.

Definition direct_outcome (cfg : config) (p : platform) (ch : string)
    (sm : sticky_record) : outcome js_error (option platform_msg) :=
  match channel_send p ch (render cfg sm) with
  | Some m => Returned (Some m)
  | None => Thrown (Rejected (CChannelSend ch (render cfg sm)))
  end.

Definition dispatch_outcome (cfg : config) (p : platform) (ch : string)
    (sm : sticky_record) : outcome js_error (option platform_msg) :=
  match webhook_identity sm with
  | Some (wid, wtoken) =>
      match webhook_send p wid wtoken (render cfg sm) with
      | Some res => Returned (first_message res)
      | None => direct_outcome cfg p ch sm
      end
  | None => direct_outcome cfg p ch sm
  end.

(** The webhook identity of a record is live on the platform. *)
Definition healthy (p : platform) (rec : sticky_record) : Prop :=
  ∃ wid wtoken hooks,
    webhookId rec = Some wid ∧ webhookToken rec = Some wtoken ∧
    Js.str_truthy wid = true ∧ Js.str_truthy wtoken = true ∧
    fetch_webhooks p (channelId rec) = Some hooks ∧ In wid hooks.

(** The platform with other answers to delete calls. *)
Definition with_delete_answers (d : string → string → option unit) (p : platform) : platform :=
  {| fetch_message := fetch_message p; delete_message := d;
     fetch_recent := fetch_recent p; webhook_send := webhook_send p;
     channel_send := channel_send p; fetch_webhooks := fetch_webhooks p;
     create_webhook := create_webhook p; channel_cache := channel_cache p;
     builder_accepts := builder_accepts p |}.

(** The fields [list] renders for the records whose channel is cached. *)
Definition rendered_fields (p : platform) (s : list sticky_record) : list (string * string) :=
  flat_map (λ sm, match channel_cache p !! channelId sm with
                  | Some name => record_fields name sm
                  | None => []
                  end) s.

Definition channel_cached (p : platform) (sm : sticky_record) : bool :=
  match channel_cache p !! channelId sm with Some _ => true | None => false end.

(** How many records of the snapshot [list] gets through, starting with
    the embed [e]: all of them, or the ones before the first record whose
    fields the builder rejects. *)
Fixpoint list_progress (p : platform) (snapshot : list sticky_record) (e : embed) : nat :=
  match snapshot with
  | [] => 0
  | sm :: rest =>
      match channel_cache p !! channelId sm with
      | Some name =>
          if builder_accepts p e (AddFields (record_fields name sm))
          then S (list_progress p rest (apply_setter (AddFields (record_fields name sm)) e))
          else 0
      | None => S (list_progress p rest e)
      end
  end.

(** The builder accepts every call [list] makes for the collection. *)
Definition list_accepted (p : platform) (s : list sticky_record) : Prop :=
  rejected_call p list_header empty_embed = None
  ∧ list_progress p s (embed_after list_header empty_embed) = length s.

(** At most one record per channel. *)
Definition unique_channels (s : list sticky_record) : Prop := NoDup (map channelId s).

(** The fields of a record the message handler never writes. *)
Definition fixed_by_handler (r : sticky_record)
    : N * string * string * bool * (option string * option string)
      * (option string * option string) :=
  (_id r, channelId r, message r, useWebhook r,
   (webhookId r, webhookToken r), (webhookName r, webhookAvatarURL r)).

(** The fields of a record the webhook sweep never writes. *)
Definition fixed_by_sweep (r : sticky_record)
    : N * string * string * Z * option string * bool :=
  (_id r, channelId r, message r, msgCount r, messageId r, useWebhook r).

(** The platform message [m] shows the payload [pl]. *)
Definition shows (pl : payload) (m : platform_msg) : Prop :=
  match pl with
  | PContent text => pm_content m = text
  | PEmbeds e => In e (pm_embeds m)
  end.

Definition is_webhook_call (c : call) : bool :=
  match c with
  | CFetchWebhooks _ | CCreateWebhook _ _ _ => true
  | _ => false
  end.

Definition is_reply (c : call) : bool :=
  match c with
  | CReplyText _ | CReplyEmbed _ => true
  | _ => false
  end.

(** [create] goes through a webhook: the option of the command, else the
    default of the configuration. *)
Definition wants_webhook (cfg : config) (webhookOpt : option bool) : bool :=
  match webhookOpt with
  | Some b => b
  | None => match Webhooks cfg with
            | Some w => Webhooks_EnabledByDefault w
            | None => false
            end
  end.

(** The name and the avatar [create] gives the webhook it makes, the
    embed it holds once the builder has accepted its calls, the payload
    it sends through the webhook, and the webhook fields it stores after
    that send. *)
Definition command_webhook_name (cfg : config) : string :=
  if Js.truthy (config_webhook_name cfg) then default "Sticky" (config_webhook_name cfg)
  else "Sticky".

Definition command_webhook_avatar (cfg : config) : option string :=
  if Js.truthy (config_webhook_avatar cfg) then config_webhook_avatar cfg else None.

Definition command_embed (cfg : config) (raw : string) : embed :=
  embed_after (embed_calls_command cfg (Js.unescape_newlines raw)) empty_embed.

Definition command_payload (cfg : config) (raw : string) : payload :=
  match EnableEmbeds cfg with
  | Some true => PEmbeds (command_embed cfg raw)
  | _ => PContent (text_body cfg (Js.unescape_newlines raw))
  end.

Definition stored_webhook (cfg : config) (wid wtoken : string) : webhook_data :=
  {| wd_id := Some wid; wd_token := Some wtoken;
     wd_name := Some (command_webhook_name cfg);
     wd_avatar := command_webhook_avatar cfg |}.

(** The world once [create] has written its record and made the calls
    [cs]. *)
Definition created (r : sticky_record) (cs : list call) (w : world) : world :=
  {| store := store w ++ [r]; cooldowns := cooldowns w; calls := calls w ++ cs |}.

(** The record [create] writes once its message is sent. *)
Definition created_record (i : interaction) (raw : string) (id : N)
    (sent : option hook_response) (data : webhook_data) (via_webhook : bool)
    : sticky_record :=
  {| _id := id; channelId := interaction_channel i;
     message := Js.unescape_newlines raw; msgCount := 0;
     messageId := sent_id sent; useWebhook := via_webhook;
     webhookId := wd_id data; webhookToken := wd_token data;
     webhookName := wd_name data; webhookAvatarURL := wd_avatar data |}.

(** A computation that leaves the collection and the cooldowns alone,
    whatever it returns or throws. *)
Definition keeps_state {A} (m : M A) : Prop :=
  ∀ w, store (fst (m w)) = store w ∧ cooldowns (fst (m w)) = cooldowns w.

(** The two invariants of the collection. *)
Definition well_formed (s : list sticky_record) : Prop :=
  unique_ids s ∧ unique_channels s.

(** The record has no usable webhook identity stored. *)
Definition lacks_identity (r : sticky_record) : bool :=
  negb (Js.truthy (webhookId r) && Js.truthy (webhookToken r)).

(** ** Sample data *)

Module Sample.

Definition embed_settings : embed_config :=
  {| Embed_Title := Some "Sticky"; Embed_Color := None; Embed_Image := None;
     Embed_PanelImage := None; Embed_CustomThumbnailURL := None;
     Embed_Footer := {| Footer_Enabled := false; Footer_text := None;
                        Footer_CustomIconURL := None |};
     Embed_Timestamp := false |}.

Definition cfg : config :=
  {| Enabled := Some true; MaxMessages := 5; EnableEmbeds := Some false;
     EmbedSettings := embed_settings; StickiedMessageTitle := "Pinned";
     Webhooks := None; EnableSlowmode := false; SlowmodeDelay := 0 |}.

(** The same configuration with an icon for the footer and no footer
    text. *)
Definition cfg_footer_icon : config :=
  {| Enabled := Some true; MaxMessages := 5; EnableEmbeds := Some false;
     EmbedSettings :=
       {| Embed_Title := Some "Sticky"; Embed_Color := None; Embed_Image := None;
          Embed_PanelImage := None; Embed_CustomThumbnailURL := None;
          Embed_Footer := {| Footer_Enabled := false; Footer_text := None;
                             Footer_CustomIconURL := Some "https://example.org/icon.png" |};
          Embed_Timestamp := false |};
     StickiedMessageTitle := "Pinned";
     Webhooks := None; EnableSlowmode := false; SlowmodeDelay := 0 |}.

Definition msg (id : string) : platform_msg :=
  {| pm_id := id; pm_content := "Pinned"; pm_embeds := [] |}.

Definition within (lo hi : nat) (s : string) : bool :=
  Nat.leb lo (String.length s) && Nat.leb (String.length s) hi.

(** The limits of a Discord embed as the builder enforces them: a title
    of 1 to 256 characters, a description of 1 to 4096, a footer text of
    1 to 2048, field names of 1 to 256 and field values of 1 to 1024, and
    25 fields at most. Colours and addresses are taken as well formed. *)
Definition discord_limits (e : embed) (s : setter) : bool :=
  match s with
  | SetTitle (Some t) => within 1 256 t
  | SetDescription d => within 1 4096 d
  | SetFooter (Some t) _ => within 1 2048 t
  | SetFooter None _ => false
  | AddFields fs =>
      forallb (λ f, within 1 256 (fst f) && within 1 1024 (snd f)) fs
      && Nat.leb (length (embed_fields e) + length fs) 25
  | _ => true
  end.

(** A platform on which every call succeeds; a send yields the message
    [fresh]. *)
Definition platform_ok (fresh : string) : platform :=
  {| fetch_message := λ _ id, Some (msg id);
     delete_message := λ _ _, Some tt;
     fetch_recent := λ _, Some [];
     webhook_send := λ _ _ _, Some (HookOne (msg fresh));
     channel_send := λ _ _, Some (msg fresh);
     fetch_webhooks := λ _, Some ["hook-1"];
     create_webhook := λ _ _ _, Some ("hook-2", "token-2");
     channel_cache := {[ "general" := "general-chat" ]};
     builder_accepts := discord_limits |}.

(** The same platform with the webhook path broken. *)
Definition platform_webhook_down (fresh : string) : platform :=
  {| fetch_message := λ _ id, Some (msg id);
     delete_message := λ _ _, Some tt;
     fetch_recent := λ _, Some [];
     webhook_send := λ _ _ _, None;
     channel_send := λ _ _, Some (msg fresh);
     fetch_webhooks := λ _, Some ["hook-1"];
     create_webhook := λ _ _ _, Some ("hook-2", "token-2");
     channel_cache := {[ "general" := "general-chat" ]};
     builder_accepts := discord_limits |}.

(** A platform that rejects every send. *)
Definition platform_down : platform :=
  {| fetch_message := λ _ id, Some (msg id);
     delete_message := λ _ _, None;
     fetch_recent := λ _, Some [];
     webhook_send := λ _ _ _, None;
     channel_send := λ _ _, None;
     fetch_webhooks := λ _, Some ["hook-1"];
     create_webhook := λ _ _ _, None;
     channel_cache := {[ "general" := "general-chat" ]};
     builder_accepts := discord_limits |}.

Definition record (count : Z) : sticky_record :=
  {| _id := 1%N; channelId := "general"; message := "Read the rules";
     msgCount := count; messageId := Some "artifact-0"; useWebhook := false;
     webhookId := None; webhookToken := None; webhookName := None;
     webhookAvatarURL := None |}.

Definition webhook_record (count : Z) : sticky_record :=
  {| _id := 1%N; channelId := "general"; message := "Read the rules";
     msgCount := count; messageId := Some "artifact-0"; useWebhook := true;
     webhookId := Some "hook-1"; webhookToken := Some "token-1";
     webhookName := Some "Sticky"; webhookAvatarURL := None |}.

(** A record of a channel the client no longer has in its cache. *)
Definition orphan_record : sticky_record :=
  {| _id := 2%N; channelId := "gone"; message := "Old notice";
     msgCount := 3; messageId := None; useWebhook := false;
     webhookId := None; webhookToken := None; webhookName := None;
     webhookAvatarURL := None |}.

(** A record whose artifact id was never stored. *)
Definition unposted_record (count : Z) : sticky_record :=
  {| _id := 1%N; channelId := "general"; message := "Read the rules";
     msgCount := count; messageId := None; useWebhook := false;
     webhookId := None; webhookToken := None; webhookName := None;
     webhookAvatarURL := None |}.

(** A platform on which the bot may post but not read the history of the
    channel: both fetches are rejected. *)
Definition platform_history_unreadable : platform :=
  {| fetch_message := λ _ _, None;
     delete_message := λ _ _, Some tt;
     fetch_recent := λ _, None;
     webhook_send := λ _ _ _, Some (HookOne (msg "artifact-1"));
     channel_send := λ _ _, Some (msg "artifact-1");
     fetch_webhooks := λ _, Some ["hook-1"];
     create_webhook := λ _ _ _, Some ("hook-2", "token-2");
     channel_cache := {[ "general" := "general-chat" ]};
     builder_accepts := discord_limits |}.

Definition world_of (s : list sticky_record) : world :=
  {| store := s; cooldowns := ∅; calls := [] |}.

(** A user message in the channel at time [t] (milliseconds). *)
Definition user_message (t : Z) : message_event :=
  {| author_id := "user-7"; client_user_id := "bot"; in_guild := true;
     channel_id := "general"; now_at_check := t; now_at_set := t |}.

(** The message event of an artifact sent through the webhook [hook-1]. *)
Definition webhook_echo (t : Z) : message_event :=
  {| author_id := "hook-1"; client_user_id := "bot"; in_guild := true;
     channel_id := "general"; now_at_check := t; now_at_set := t |}.

(** [n] user messages, two seconds apart. *)
Definition burst (n : nat) : list (platform * message_event) :=
  map (λ k, (platform_ok "artifact-1", user_message (2000 * Z.of_nat k))) (seq 1 n).

(** Nine channels the client has in its cache, with a record each, and
    behind them the record of a channel that is gone. *)
Definition crowded_channels : list string :=
  ["c1"; "c2"; "c3"; "c4"; "c5"; "c6"; "c7"; "c8"; "c9"].

Definition record_of (id : N) (ch : string) : sticky_record :=
  {| _id := id; channelId := ch; message := "Read the rules";
     msgCount := 0; messageId := Some "artifact-0"; useWebhook := false;
     webhookId := None; webhookToken := None; webhookName := None;
     webhookAvatarURL := None |}.

Definition crowded_store : list sticky_record :=
  ([record_of 1 "c1"; record_of 2 "c2"; record_of 3 "c3"; record_of 4 "c4";
    record_of 5 "c5"; record_of 6 "c6"; record_of 7 "c7"; record_of 8 "c8";
    record_of 9 "c9"] ++ [record_of 10 "gone"])%list.

Definition platform_crowded : platform :=
  {| fetch_message := λ _ id, Some (msg id);
     delete_message := λ _ _, Some tt;
     fetch_recent := λ _, Some [];
     webhook_send := λ _ _ _, Some (HookOne (msg "artifact-1"));
     channel_send := λ _ _, Some (msg "artifact-1");
     fetch_webhooks := λ _, Some ["hook-1"];
     create_webhook := λ _ _ _, Some ("hook-2", "token-2");
     channel_cache := list_to_map (map (λ c, (c, c)) crowded_channels);
     builder_accepts := discord_limits |}.

Definition list_interaction : interaction :=
  {| can_ManageMessages := true; can_ManageWebhooks := false;
     interaction_channel := "general"; interaction_sub := SubList |}.

(** A record that asks for a webhook and has none yet. *)
Definition unprovisioned_record : sticky_record :=
  {| _id := 3%N; channelId := "general"; message := "Read the rules";
     msgCount := 0; messageId := None; useWebhook := true;
     webhookId := None; webhookToken := None; webhookName := None;
     webhookAvatarURL := None |}.

(** A platform on which the webhooks of every channel are gone. *)
Definition platform_no_hooks : platform :=
  {| fetch_message := λ _ id, Some (msg id);
     delete_message := λ _ _, Some tt;
     fetch_recent := λ _, Some [];
     webhook_send := λ _ _ _, None;
     channel_send := λ _ _, Some (msg "artifact-1");
     fetch_webhooks := λ _, Some [];
     create_webhook := λ _ _ _, Some ("hook-2", "token-2");
     channel_cache := {[ "general" := "general-chat" ]};
     builder_accepts := discord_limits |}.

Definition create_interaction (webhook : option bool) (manage_webhooks : bool) : interaction :=
  {| can_ManageMessages := true; can_ManageWebhooks := manage_webhooks;
     interaction_channel := "general";
     interaction_sub := SubCreate "Read the rules" webhook |}.

Definition delete_interaction : interaction :=
  {| can_ManageMessages := true; can_ManageWebhooks := false;
     interaction_channel := "general"; interaction_sub := SubDelete |}.


End Sample.

(** * Properties *)

(** ** Running the monad *)

Ltac eff_unfold :=
  unfold mbind, mret, Eff_bind, Eff_ret, throw, try_catch, catch_with; cbv beta iota.

Lemma bind_run {W E A B} (m : Eff W E A) (f : A → Eff W E B) (w : W) :
  (m ≫= f) w = match m w with
               | (w', Returned a) => f a w'
               | (w', Thrown e) => (w', Thrown e)
               end.
Proof. reflexivity. Qed.

Lemma logged_nil w : logged [] w = w.
Proof. destruct w. unfold logged. simpl. by rewrite app_nil_r. Qed.

Lemma logged_logged cs1 cs2 w : logged cs2 (logged cs1 w) = logged (cs1 ++ cs2) w.
Proof. unfold logged. simpl. by rewrite <- app_assoc. Qed.

Lemma await_run {A} c (answer : option A) w :
  await c answer w =
  (logged [c] w, match answer with Some a => Returned a | None => Thrown (Rejected c) end).
Proof. unfold await, log_call. eff_unfold. by destruct answer. Qed.

Lemma delete_quietly_run p ch m w :
  delete_quietly p ch m w = (logged [CDeleteMessage ch (pm_id m)] w, Returned tt).
Proof.
  unfold delete_quietly, catch_with, try_catch. rewrite await_run.
  by destruct (delete_message p ch (pm_id m)) as [[]|].
Qed.

Lemma scan_loop_run cfg p ch sm messages w :
  for_each messages
    (λ m, if carries_sticky cfg sm m then delete_quietly p ch m else mret tt) w
  = (logged (scan_calls cfg ch sm messages) w, Returned tt).
Proof.
  revert w. induction messages as [|m ms IH]; intros w.
  - simpl. by rewrite logged_nil.
  - simpl. rewrite bind_run. unfold scan_calls. simpl.
    destruct (carries_sticky cfg sm m).
    + rewrite delete_quietly_run, IH, logged_logged. reflexivity.
    + unfold mret, Eff_ret. by rewrite IH.
Qed.

Lemma delete_previous_run cfg p ch sm w :
  delete_previous cfg p ch sm w =
  (logged (removal_calls cfg p ch sm) w,
   if scan_unreadable p ch sm then Thrown (Rejected (CFetchRecent ch)) else Returned tt).
Proof.
  assert (Hscan : Js.truthy (messageId sm) = false →
    scan_and_delete cfg p ch sm w =
    (logged (removal_calls cfg p ch sm) w,
     if scan_unreadable p ch sm then Thrown (Rejected (CFetchRecent ch)) else Returned tt)).
  { intros Hf. unfold scan_and_delete, removal_calls, scan_unreadable. rewrite Hf.
    rewrite bind_run, await_run. simpl.
    destruct (fetch_recent p ch) as [ms|]; [| done].
    rewrite scan_loop_run, logged_logged. reflexivity. }
  unfold delete_previous.
  destruct (messageId sm) as [mid|] eqn:Hm; [| by apply Hscan].
  destruct (Js.str_truthy mid) eqn:Ht; [| by apply Hscan].
  unfold removal_calls, scan_unreadable. rewrite Hm. simpl. rewrite Ht. simpl.
  rewrite bind_run. unfold catch_with, try_catch. rewrite bind_run, await_run.
  destruct (fetch_message p ch mid) as [m|].
  - unfold mret, Eff_ret. rewrite delete_quietly_run, logged_logged. reflexivity.
  - reflexivity.
Qed.

(** The builder changes nothing in the world: a run of calls returns the
    data after them, or throws at the first call that is rejected. *)
Lemma call_all_run p calls e w :
  call_all p calls e w =
  (w, match rejected_call p calls e with
      | Some s => Thrown (Invalid s)
      | None => Returned (embed_after calls e)
      end).
Proof.
  revert e. induction calls as [|s calls IH]; intros e; [done |].
  cbn [call_all rejected_call embed_after fold_left]. rewrite bind_run.
  unfold call_builder. destruct (builder_accepts p e s); [| done].
  unfold mret, Eff_ret. by rewrite IH.
Qed.

Lemma build_embed_run cfg p sm w :
  build_embed cfg p (message sm) w =
  (w, match rejected_call p (embed_calls cfg (message sm)) empty_embed with
      | Some s => Thrown (Invalid s)
      | None => Returned (handler_embed cfg sm)
      end).
Proof. apply call_all_run. Qed.

Lemma send_direct_run cfg p ch sm w :
  send_direct p ch (render cfg sm) w =
  (logged [CChannelSend ch (render cfg sm)] w, direct_outcome cfg p ch sm).
Proof.
  unfold send_direct, direct_outcome. rewrite bind_run, await_run.
  by destruct (channel_send p ch (render cfg sm)).
Qed.

Lemma dispatch_run cfg p ch sm w :
  dispatch cfg p ch sm (handler_embed cfg sm) w =
  (logged (dispatch_calls cfg p ch sm) w, dispatch_outcome cfg p ch sm).
Proof.
  unfold dispatch, dispatch_calls, dispatch_outcome.
  change (payload_of cfg (handler_embed cfg sm) (message sm)) with (render cfg sm).
  destruct (webhook_identity sm) as [[wid wtoken]|]; [| apply send_direct_run].
  unfold try_catch. rewrite bind_run, await_run.
  destruct (webhook_send p wid wtoken (render cfg sm)) as [res|].
  - reflexivity.
  - rewrite send_direct_run, logged_logged. reflexivity.
Qed.

(** What a repost does, case by case: stopped by an unreadable history
    or, after the removal, by a call the embed builder rejects; or removal
    and dispatch followed by the update of the record, by the failed read
    of the id of the sent message, or by the error of the dispatch. *)
Lemma repost_run cfg p ch sm w :
  repost cfg p ch sm w =
  if scan_unreadable p ch sm then
    (logged (removal_calls cfg p ch sm) w, Thrown (Rejected (CFetchRecent ch)))
  else
    match rejected_call p (embed_calls cfg (message sm)) empty_embed with
    | Some s => (logged (removal_calls cfg p ch sm) w, Thrown (Invalid s))
    | None =>
        let w1 := logged (removal_calls cfg p ch sm ++ dispatch_calls cfg p ch sm) w in
        match dispatch_outcome cfg p ch sm with
        | Returned (Some m) =>
            ({| store := StickyModel.update_first (_id sm) (set_reposted (pm_id m))
                           (store w1);
                cooldowns := cooldowns w1; calls := calls w1 |}, Returned tt)
        | Returned None => (w1, Thrown (TypeError "sentMessage.id"))
        | Thrown e => (w1, Thrown e)
        end
    end.
Proof.
  unfold repost. rewrite bind_run, delete_previous_run.
  destruct (scan_unreadable p ch sm); [done |].
  rewrite bind_run, build_embed_run.
  destruct (rejected_call p (embed_calls cfg (message sm)) empty_embed); [done |].
  rewrite bind_run, dispatch_run, logged_logged.
  destruct (dispatch_outcome cfg p ch sm) as [[m|]|e]; reflexivity.
Qed.

(** ** The collection *)

Section Store.
Import StickyModel.

Lemma has_id_spec i r : has_id i r = true ↔ _id r = i.
Proof. unfold has_id. apply N.eqb_eq. Qed.

Lemma has_channel_spec c r : has_channel c r = true ↔ channelId r = c.
Proof. unfold has_channel. apply String.eqb_eq. Qed.

Lemma stored_update_first s c r f :
  unique_ids s → stored s c = Some r →
  (∀ x, channelId (f x) = channelId x) →
  stored (update_first (_id r) f s) c = Some (f r).
Proof.
  unfold unique_ids, stored. intros Hu Hs Hf.
  induction s as [|a s IH]; [done |].
  simpl in *. inversion Hu as [|? ? Hnotin Hu']; subst.
  destruct (has_channel c a) eqn:Hc.
  - injection Hs as ->. rewrite (proj2 (has_id_spec _ _) eq_refl). simpl.
    unfold has_channel in *. rewrite Hf. by rewrite Hc.
  - destruct (has_id (_id r) a) eqn:Hi.
    + apply has_id_spec in Hi. apply find_some in Hs as [Hin _].
      exfalso. apply Hnotin. rewrite Hi. by apply list_elem_of_In, in_map.
    + simpl. rewrite Hc. by apply IH.
Qed.

Lemma update_first_ids i f s :
  (∀ x, _id (f x) = _id x) → map _id (update_first i f s) = map _id s.
Proof.
  intros Hf. induction s as [|a s IH]; [done |].
  simpl. destruct (has_id i a); simpl; [by rewrite Hf | by rewrite IH].
Qed.
End Store.


(** ** The handler, block by block *)

Lemma reconcile_run cfg p ch sm w :
  reconcile cfg p ch sm w =
  if MaxMessages cfg <=? msgCount sm then repost cfg p ch sm w else (w, Returned tt).
Proof. unfold reconcile. by destruct (MaxMessages cfg <=? msgCount sm). Qed.

Lemma gate_run cfg p ev sm w :
  gate cfg p ev sm w =
  if cooldown_open (cooldowns w) (channel_id ev) (now_at_check ev)
  then reconcile cfg p (channel_id ev) sm (armed ev w)
  else (w, Returned tt).
Proof.
  unfold gate, get_cooldowns, cooldowns_set. eff_unfold.
  by destruct (cooldown_open (cooldowns w) (channel_id ev) (now_at_check ev)).
Qed.

Lemma messageCreate_ignored cfg p ev w :
  ignored ev = true → messageCreate cfg p ev w = (w, Returned tt).
Proof. intros H. unfold messageCreate. by rewrite H. Qed.

Lemma messageCreate_no_record cfg p ev w :
  stored (store w) (channel_id ev) = None → messageCreate cfg p ev w = (w, Returned tt).
Proof.
  intros H. unfold messageCreate. destruct (ignored ev); [done |].
  unfold stored in H. unfold StickyModel.findOne, get_store. eff_unfold. by rewrite H.
Qed.

Lemma messageCreate_tracked cfg p ev w sm :
  ignored ev = false → stored (store w) (channel_id ev) = Some sm →
  messageCreate cfg p ev w = gate cfg p ev sm (counted sm w).
Proof.
  intros Hi Hs. unfold messageCreate. rewrite Hi. unfold stored in Hs.
  unfold StickyModel.findOne, get_store. eff_unfold. by rewrite Hs.
Qed.

Lemma stored_counted w ch sm :
  unique_ids (store w) → stored (store w) ch = Some sm →
  stored (store (counted sm w)) ch = Some (bump sm).
Proof. intros Hu Hs. simpl. by apply stored_update_first. Qed.

Lemma unique_ids_counted w sm : unique_ids (store w) → unique_ids (store (counted sm w)).
Proof. unfold unique_ids. simpl. by rewrite update_first_ids. Qed.

(** Whatever the repost does, it leaves the cooldown map alone; when it
    throws, it leaves the collection alone too. *)
Lemma repost_cooldowns cfg p ch sm w :
  cooldowns (fst (repost cfg p ch sm w)) = cooldowns w.
Proof.
  rewrite repost_run. destruct (scan_unreadable p ch sm); [done |].
  destruct (rejected_call p _ _); [done |].
  by destruct (dispatch_outcome cfg p ch sm) as [[m|]|e].
Qed.

Lemma repost_thrown cfg p ch sm w w' e :
  repost cfg p ch sm w = (w', Thrown e) → store w' = store w.
Proof.
  rewrite repost_run. destruct (scan_unreadable p ch sm).
  - by intros [= <- _].
  - destruct (rejected_call p _ _); [by intros [= <- _] |].
    destruct (dispatch_outcome cfg p ch sm) as [[m|]|e']; [done | |]; by intros [= <- _].
Qed.

(** ** C1 *)

(** The decision compares the threshold with the count of the record as
    it was read, that is, before the increment of the triggering message:
    with the gate open, a record read at [MaxMessages - 1] is counted up
    to [MaxMessages] and left alone. *)
Lemma threshold_reads_count_before_increment cfg p ev w sm :
  ignored ev = false →
  stored (store w) (channel_id ev) = Some sm →
  cooldown_open (cooldowns w) (channel_id ev) (now_at_check ev) = true →
  messageCreate cfg p ev w =
  if MaxMessages cfg <=? msgCount sm
  then repost cfg p (channel_id ev) sm (armed ev (counted sm w))
  else (armed ev (counted sm w), Returned tt).
Proof.
  intros Hi Hs Ho. rewrite (messageCreate_tracked _ _ _ _ _ Hi Hs), gate_run.
  simpl. rewrite Ho. apply reconcile_run.
Qed.

(** The message that brings the stored count up to the threshold makes
    no platform call: the record is left with [msgCount = MaxMessages] and
    its artifact. *)
Lemma message_reaching_threshold_is_not_reposted cfg p ev w sm :
  ignored ev = false →
  stored (store w) (channel_id ev) = Some sm →
  unique_ids (store w) →
  cooldown_open (cooldowns w) (channel_id ev) (now_at_check ev) = true →
  msgCount sm = MaxMessages cfg - 1 →
  ∃ w' r,
    messageCreate cfg p ev w = (w', Returned tt)
    ∧ calls w' = calls w
    ∧ stored (store w') (channel_id ev) = Some r
    ∧ msgCount r = MaxMessages cfg ∧ messageId r = messageId sm.
Proof.
  intros Hi Hs Hu Ho Hcount.
  rewrite (threshold_reads_count_before_increment _ _ _ _ _ Hi Hs Ho).
  destruct (Z.leb_spec (MaxMessages cfg) (msgCount sm)); [lia |].
  eexists _, (bump sm). split; [reflexivity |]. split; [done |].
  split; [by apply stored_counted |]. simpl. split; [lia | done].
Qed.

(** C1. With [MaxMessages = 5] and a record at [msgCount = 0], five
    tracked messages (two seconds apart, so the gate is open each time)
    cause no platform call at all and leave [msgCount = 5]; the dispatch
    comes with the sixth message, which removes the previous artifact,
    posts once and resets the count. *)
Theorem fifth_message_does_not_repost :
  let w0 := Sample.world_of [Sample.record 0] in
  let w5 := run_events Sample.cfg (Sample.burst 5) w0 in
  let w6 := run_events Sample.cfg (Sample.burst 6) w0 in
  (calls w5 = [] ∧ map msgCount (store w5) = [5]
   ∧ map messageId (store w5) = [Some "artifact-0"])
  ∧ (List.filter is_dispatch (calls w6)
       = [CChannelSend "general" (render Sample.cfg (Sample.record 0))]
     ∧ List.filter is_delete (calls w6) = [CDeleteMessage "general" "artifact-0"]
     ∧ map msgCount (store w6) = [0]
     ∧ map messageId (store w6) = [Some "artifact-1"]).
Proof. vm_compute. repeat split. Qed.

(** ** C2 *)

Lemma webhook_identity_some sm wid wtoken :
  useWebhook sm = true → webhookId sm = Some wid → webhookToken sm = Some wtoken →
  Js.str_truthy wid = true → Js.str_truthy wtoken = true →
  webhook_identity sm = Some (wid, wtoken).
Proof. intros H1 H2 H3 H4 H5. unfold webhook_identity. by rewrite H1, H2, H3, H4, H5. Qed.

Lemma removal_calls_not_dispatch cfg p ch sm :
  List.filter is_dispatch (removal_calls cfg p ch sm) = [].
Proof.
  unfold removal_calls. destruct (Js.truthy (messageId sm)); simpl.
  - by destruct (fetch_message p ch _).
  - destruct (fetch_recent p ch) as [ms|]; [| done].
    unfold scan_calls. induction (List.filter _ ms); [done | by simpl].
Qed.

(** A dispatch, whatever the embed it is given, throws only the rejection
    of the direct post, and only after the webhook path, when the record
    has one, has failed too. *)
Lemma dispatch_thrown cfg p ch sm e w w' err :
  dispatch cfg p ch sm e w = (w', Thrown err) →
  let pl := payload_of cfg e (message sm) in
  err = Rejected (CChannelSend ch pl)
  ∧ channel_send p ch pl = None
  ∧ (∀ wid wtoken, webhook_identity sm = Some (wid, wtoken) →
       webhook_send p wid wtoken pl = None).
Proof.
  unfold dispatch. cbv zeta.
  destruct (webhook_identity sm) as [[wid wtoken]|].
  - unfold try_catch. rewrite bind_run, await_run.
    destruct (webhook_send p wid wtoken _) as [res|] eqn:Hw; [done |].
    unfold send_direct. rewrite bind_run, await_run.
    destruct (channel_send p ch _); [done |].
    intros [= _ <-]. repeat split. by intros ? ? [= <- <-].
  - unfold send_direct. rewrite bind_run, await_run.
    destruct (channel_send p ch _); [done |].
    intros [= _ <-]. repeat split. done.
Qed.

(** With a webhook identity the dispatch calls the webhook first, and a
    rejected webhook send is followed by the direct post, whose outcome is
    the outcome of the dispatch. *)
Lemma dispatch_by_webhook cfg p ch sm e wid wtoken w :
  webhook_identity sm = Some (wid, wtoken) →
  let pl := payload_of cfg e (message sm) in
  dispatch cfg p ch sm e w =
  match webhook_send p wid wtoken pl with
  | Some res => (logged [CWebhookSend wid wtoken pl] w, Returned (first_message res))
  | None =>
      (logged [CWebhookSend wid wtoken pl; CChannelSend ch pl] w,
       match channel_send p ch pl with
       | Some m => Returned (Some m)
       | None => Thrown (Rejected (CChannelSend ch pl))
       end)
  end.
Proof.
  intros Hid. unfold dispatch. cbv zeta. rewrite Hid.
  unfold try_catch. rewrite bind_run, await_run.
  destruct (webhook_send p wid wtoken _) as [res|]; [done |].
  unfold send_direct. rewrite bind_run, await_run, logged_logged.
  by destruct (channel_send p ch _).
Qed.

Lemma stored_reposted w ch sm id :
  unique_ids (store w) → stored (store w) ch = Some sm →
  stored (StickyModel.update_first (_id sm) (set_reposted id) (store (counted sm w))) ch
  = Some (set_reposted id (bump sm)).
Proof.
  intros Hu Hs.
  apply (stored_update_first (store (counted sm w)) ch (bump sm) (set_reposted id)).
  - by apply unique_ids_counted.
  - by apply stored_counted.
  - done.
Qed.

Lemma removal_calls_no_send cfg p ch sm c :
  In c (removal_calls cfg p ch sm) → is_dispatch c = false.
Proof.
  intros Hin. destruct (is_dispatch c) eqn:Hc; [| done].
  assert (Hf : In c (List.filter is_dispatch (removal_calls cfg p ch sm))).
  { by apply filter_In. }
  by rewrite removal_calls_not_dispatch in Hf.
Qed.

(** C2. For a record with [useWebhook] set and a stored webhook id and
    token, the dispatch, whatever the embed it is given, calls the webhook
    first; when that send is rejected its next call is the direct post,
    and the dispatch returns the directly posted message when the
    platform accepts it. In the handler: whenever a run on a tracked
    message makes the webhook send and the platform rejects it while it
    accepts the direct post, the handler returns normally, its two send
    calls are the webhook send followed by the direct post, and the id of
    the directly posted message is stored as the artifact id (with the
    count reset); and the run does make that send when the message
    passes the gate, the count meets the threshold, and the removal step
    and the embed builder let the repost reach its dispatch. For any
    record, a dispatch throws only if the direct post was rejected and,
    when the record has a webhook identity, the webhook send was rejected
    as well. *)
Theorem webhook_error_falls_back_to_direct_post cfg p ev w sm wid wtoken :
  useWebhook sm = true → webhookId sm = Some wid → webhookToken sm = Some wtoken →
  Js.str_truthy wid = true → Js.str_truthy wtoken = true →
  let ch := channel_id ev in
  (∀ e w0,
     let pl := payload_of cfg e (message sm) in
     (∃ rest, calls (fst (dispatch cfg p ch sm e w0))
              = (calls w0 ++ CWebhookSend wid wtoken pl :: rest)%list)
     ∧ (webhook_send p wid wtoken pl = None →
        calls (fst (dispatch cfg p ch sm e w0))
        = (calls w0 ++ [CWebhookSend wid wtoken pl; CChannelSend ch pl])%list
        ∧ ∀ m, channel_send p ch pl = Some m →
               snd (dispatch cfg p ch sm e w0) = Returned (Some m)))
  ∧ (let pl := render cfg sm in
     ignored ev = false →
     stored (store w) ch = Some sm →
     unique_ids (store w) →
     webhook_send p wid wtoken pl = None →
     ∀ m, channel_send p ch pl = Some m →
     (∀ w' o cs,
        messageCreate cfg p ev w = (w', o) →
        calls w' = (calls w ++ cs)%list →
        In (CWebhookSend wid wtoken pl) cs →
        o = Returned tt
        ∧ List.filter is_dispatch cs = [CWebhookSend wid wtoken pl; CChannelSend ch pl]
        ∧ ∃ r, stored (store w') ch = Some r
               ∧ messageId r = Some (pm_id m) ∧ msgCount r = 0)
     ∧ (cooldown_open (cooldowns w) ch (now_at_check ev) = true →
        MaxMessages cfg ≤ msgCount sm →
        scan_unreadable p ch sm = false →
        embed_accepted cfg p sm →
        ∃ w' cs r,
          messageCreate cfg p ev w = (w', Returned tt)
          ∧ calls w' = (calls w ++ cs)%list
          ∧ List.filter is_dispatch cs = [CWebhookSend wid wtoken pl; CChannelSend ch pl]
          ∧ stored (store w') ch = Some r
          ∧ messageId r = Some (pm_id m) ∧ msgCount r = 0))
  ∧ (∀ sm' e w0 w1 err,
       dispatch cfg p ch sm' e w0 = (w1, Thrown err) →
       let pl := payload_of cfg e (message sm') in
       err = Rejected (CChannelSend ch pl)
       ∧ channel_send p ch pl = None
       ∧ (∀ i t, webhook_identity sm' = Some (i, t) → webhook_send p i t pl = None)).
Proof.
  intros H1 H2 H3 H4 H5 ch.
  pose proof (webhook_identity_some sm wid wtoken H1 H2 H3 H4 H5) as Hid.
  split; [| split].
  - intros e w0 pl. rewrite (dispatch_by_webhook cfg p ch sm e wid wtoken w0 Hid). fold pl.
    destruct (webhook_send p wid wtoken pl) as [res|]; simpl.
    + split; [by eexists | done].
    + split; [by eexists |]. intros _. split; [done |].
      intros m Hm. by rewrite Hm.
  - intros pl Hi Hs Hu Hhook m Hsend.
    assert (Hout : dispatch_outcome cfg p ch sm = Returned (Some m)).
    { unfold dispatch_outcome, direct_outcome. rewrite Hid. fold pl. by rewrite Hhook, Hsend. }
    assert (Hcalls : dispatch_calls cfg p ch sm = [CWebhookSend wid wtoken pl; CChannelSend ch pl]).
    { unfold dispatch_calls. rewrite Hid. fold pl. by rewrite Hhook. }
    assert (Hnone : ∀ cs0 cs,
      (calls w ++ cs0)%list = (calls w ++ cs)%list →
      (∀ c, In c cs0 → is_dispatch c = false) →
      ¬ In (CWebhookSend wid wtoken pl) cs).
    { intros cs0 cs Hc Hno Hin.
      apply app_inv_head in Hc. subst cs0. by apply Hno in Hin. }
    split.
    + intros w' o cs Hrun Hcs Hin.
      rewrite (messageCreate_tracked _ _ _ _ _ Hi Hs), gate_run in Hrun.
      simpl in Hrun. fold ch in Hrun.
      destruct (cooldown_open (cooldowns w) ch (now_at_check ev)).
      2: { injection Hrun as <- <-. exfalso. simpl in Hcs.
           apply (Hnone [] cs); [by rewrite app_nil_r | by intros c [] | done]. }
      rewrite reconcile_run in Hrun.
      destruct (MaxMessages cfg <=? msgCount sm).
      2: { injection Hrun as <- <-. exfalso. simpl in Hcs.
           apply (Hnone [] cs); [by rewrite app_nil_r | by intros c [] | done]. }
      rewrite repost_run in Hrun. fold ch in Hrun.
      destruct (scan_unreadable p ch sm).
      { injection Hrun as <- <-. exfalso. simpl in Hcs.
        apply (Hnone (removal_calls cfg p ch sm) cs Hcs); [| done].
        intros c. apply removal_calls_no_send. }
      destruct (rejected_call p (embed_calls cfg (message sm)) empty_embed).
      { injection Hrun as <- <-. exfalso. simpl in Hcs.
        apply (Hnone (removal_calls cfg p ch sm) cs Hcs); [| done].
        intros c. apply removal_calls_no_send. }
      cbv zeta in Hrun. rewrite Hout, Hcalls in Hrun. injection Hrun as <- <-.
      simpl in Hcs. apply app_inv_head in Hcs. subst cs.
      split; [done |]. split.
      * by rewrite List.filter_app, removal_calls_not_dispatch.
      * eexists. split; [by apply stored_reposted | done].
    + intros Ho Hmax Hscan Hembed.
      rewrite (threshold_reads_count_before_increment _ _ _ _ _ Hi Hs Ho).
      rewrite (proj2 (Z.leb_le _ _) Hmax), repost_run. fold ch. rewrite Hscan.
      unfold embed_accepted in Hembed. rewrite Hembed.
      cbv zeta. rewrite Hout, Hcalls.
      eexists _, _, _. split; [reflexivity |]. simpl. split; [reflexivity |].
      split; [| split; [by apply stored_reposted | done]].
      by rewrite List.filter_app, removal_calls_not_dispatch.
  - intros sm' e w0 w1 err. apply dispatch_thrown.
Qed.

Lemma webhook_error_falls_back_witness :
  ∃ w' r,
    messageCreate Sample.cfg (Sample.platform_webhook_down "artifact-1")
      (Sample.user_message 3000) (Sample.world_of [Sample.webhook_record 5])
    = (w', Returned tt)
    ∧ stored (store w') "general" = Some r
    ∧ messageId r = Some "artifact-1" ∧ msgCount r = 0.
Proof.
  destruct (webhook_error_falls_back_to_direct_post Sample.cfg
              (Sample.platform_webhook_down "artifact-1") (Sample.user_message 3000)
              (Sample.world_of [Sample.webhook_record 5]) (Sample.webhook_record 5)
              "hook-1" "token-1" eq_refl eq_refl eq_refl eq_refl eq_refl) as (_ & H & _).
  assert (Hu : unique_ids (store (Sample.world_of [Sample.webhook_record 5]))).
  { unfold unique_ids. simpl. apply NoDup_singleton. }
  destruct (H eq_refl eq_refl Hu eq_refl (Sample.msg "artifact-1") eq_refl) as (_ & H').
  destruct (H' eq_refl (Z.le_refl 5) eq_refl eq_refl)
    as (w' & cs & r & H1 & _ & _ & H2 & H3 & H4).
  exists w', r. auto.
Defined.

(** A repost whose embed the builder rejects stops after the removal of
    the previous artifact and before any send, whether or not embeds are
    enabled: with an icon configured for the footer and no footer text,
    the second [setFooter] is rejected. *)
Example rejected_embed_stops_repost :
  let r := messageCreate Sample.cfg_footer_icon (Sample.platform_webhook_down "artifact-1")
             (Sample.user_message 3000) (Sample.world_of [Sample.webhook_record 5]) in
  snd r = Thrown (Invalid (SetFooter None (Some "https://example.org/icon.png")))
  ∧ calls (fst r)
    = [CFetchMessage "general" "artifact-0"; CDeleteMessage "general" "artifact-0"]
  ∧ map msgCount (store (fst r)) = [6]
  ∧ map messageId (store (fst r)) = [Some "artifact-0"].
Proof. vm_compute. repeat split. Qed.

(** ** C3 *)

Lemma messageCreate_run cfg p ev w :
  messageCreate cfg p ev w =
  if ignored ev then (w, Returned tt)
  else match stored (store w) (channel_id ev) with
       | Some sm => gate cfg p ev sm (counted sm w)
       | None => (w, Returned tt)
       end.
Proof.
  destruct (ignored ev) eqn:Hi; [by apply messageCreate_ignored |].
  destruct (stored (store w) (channel_id ev)) as [sm|] eqn:Hs.
  - by apply messageCreate_tracked.
  - by apply messageCreate_no_record.
Qed.

(** An error leaves the handler only from a repost that was decided. *)
Lemma messageCreate_thrown cfg p ev w w' e :
  messageCreate cfg p ev w = (w', Thrown e) →
  ∃ sm, ignored ev = false
      ∧ stored (store w) (channel_id ev) = Some sm
      ∧ MaxMessages cfg ≤ msgCount sm
      ∧ repost cfg p (channel_id ev) sm (armed ev (counted sm w)) = (w', Thrown e).
Proof.
  rewrite messageCreate_run. destruct (ignored ev); [done |].
  destruct (stored (store w) (channel_id ev)) as [sm|]; [| done].
  rewrite gate_run.
  destruct (cooldown_open _ _ _); [| done].
  rewrite reconcile_run. destruct (Z.leb_spec (MaxMessages cfg) (msgCount sm)); [| done].
  intros Hrep. by exists sm.
Qed.

Lemma rejected_call_delete_answers d p calls e :
  rejected_call (with_delete_answers d p) calls e = rejected_call p calls e.
Proof.
  revert e. induction calls as [|s calls IH]; intros e; [done |].
  cbn [rejected_call]. rewrite IH. reflexivity.
Qed.

(** When an error leaves the handler, the collection holds the increment
    of the triggering message and nothing else: the artifact id of the
    record is the stored one and its count still meets the threshold, so
    the next tracked message that passes the gate runs the whole repost
    again. Whether the platform accepts or rejects the delete calls makes
    no difference to what the handler does, and the removal by stored
    artifact id never throws. *)
Lemma failed_repost_leaves_record_for_retry :
  (∀ cfg p ev w w' e,
     messageCreate cfg p ev w = (w', Thrown e) →
     unique_ids (store w) →
     ∃ sm,
       stored (store w) (channel_id ev) = Some sm
       ∧ store w' = store (counted sm w)
       ∧ stored (store w') (channel_id ev) = Some (bump sm)
       ∧ messageId (bump sm) = messageId sm
       ∧ MaxMessages cfg ≤ msgCount (bump sm)
       ∧ ∀ p2 ev2,
           ignored ev2 = false → channel_id ev2 = channel_id ev →
           cooldown_open (cooldowns w') (channel_id ev2) (now_at_check ev2) = true →
           messageCreate cfg p2 ev2 w'
           = repost cfg p2 (channel_id ev) (bump sm) (armed ev2 (counted (bump sm) w')))
  ∧ (∀ cfg p ev w d,
       messageCreate cfg (with_delete_answers d p) ev w = messageCreate cfg p ev w)
  ∧ (∀ cfg p ch sm w,
       Js.truthy (messageId sm) = true →
       ∃ w1, delete_previous cfg p ch sm w = (w1, Returned tt) ∧ store w1 = store w).
Proof.
  split; [| split].
  - intros cfg p ev w w' e Hthrown Hu.
    destruct (messageCreate_thrown _ _ _ _ _ _ Hthrown) as (sm & Hi & Hs & Hmax & Hrep).
    exists sm. apply repost_thrown in Hrep. simpl in Hrep.
    assert (Hs' : stored (store w') (channel_id ev) = Some (bump sm)).
    { rewrite Hrep. by apply stored_counted. }
    repeat split; try done.
    + simpl. lia.
    + intros p2 ev2 Hi2 Hch Ho. rewrite <- Hch in Hs' |- *.
      rewrite (threshold_reads_count_before_increment _ _ _ _ _ Hi2 Hs' Ho).
      destruct (Z.leb_spec (MaxMessages cfg) (msgCount (bump sm))); [done |].
      simpl in *. lia.
  - intros cfg p ev w d. rewrite !messageCreate_run.
    destruct (ignored ev); [done |].
    destruct (stored (store w) (channel_id ev)) as [sm|]; [| done].
    rewrite !gate_run. destruct (cooldown_open _ _ _); [| done].
    rewrite !reconcile_run. destruct (MaxMessages cfg <=? msgCount sm); [| done].
    rewrite !repost_run, rejected_call_delete_answers. reflexivity.
  - intros cfg p ch sm w Ht. rewrite delete_previous_run.
    unfold scan_unreadable. rewrite Ht. simpl. eauto.
Qed.

(** The one failure of the removal step that is not swallowed: for a
    record without a stored artifact id, a rejected read of the recent
    messages leaves the handler before any send. *)
Lemma unreadable_history_stops_repost cfg p ch sm w :
  Js.truthy (messageId sm) = false →
  fetch_recent p ch = None →
  repost cfg p ch sm w = (logged [CFetchRecent ch] w, Thrown (Rejected (CFetchRecent ch))).
Proof.
  intros Hid Hrecent. rewrite repost_run.
  unfold scan_unreadable, removal_calls. by rewrite Hid, Hrecent.
Qed.

(** The removal by stored artifact id swallows a rejected fetch: the
    repost goes on to its dispatch. *)
Lemma missing_artifact_does_not_stop_repost cfg p ch sm w :
  Js.truthy (messageId sm) = true →
  fetch_message p ch (default EmptyString (messageId sm)) = None →
  embed_accepted cfg p sm →
  ∃ w', fst (repost cfg p ch sm w) = w'
        ∧ calls w' = (calls w ++ CFetchMessage ch (default EmptyString (messageId sm))
                                 :: dispatch_calls cfg p ch sm)%list.
Proof.
  intros Hid Hfetch Hembed. rewrite repost_run.
  unfold scan_unreadable, removal_calls. rewrite Hid, Hfetch. simpl.
  unfold embed_accepted in Hembed. rewrite Hembed.
  eexists. split; [reflexivity |].
  by destruct (dispatch_outcome cfg p ch sm) as [[m|]|e].
Qed.

(** C3. A failure of the removal step that is not swallowed. The record
    of the channel has no stored artifact id and its count is at the
    threshold of 5; the platform rejects the read of the recent messages
    and would accept a post. The tracked message that should cause the
    repost leaves the handler with the rejection of that read: the fetch
    is the only platform call, nothing is posted, and the record keeps
    its count (now 6) without an artifact. On the same platform a record
    with a stored artifact id is reposted, the rejected fetch of the old
    artifact being swallowed there. *)
Theorem unreadable_history_aborts_repost :
  let p := Sample.platform_history_unreadable in
  let ev := Sample.user_message 3000 in
  let r1 := messageCreate Sample.cfg p ev (Sample.world_of [Sample.unposted_record 5]) in
  let r2 := messageCreate Sample.cfg p ev (Sample.world_of [Sample.record 5]) in
  (snd r1 = Thrown (Rejected (CFetchRecent "general"))
   ∧ calls (fst r1) = [CFetchRecent "general"]
   ∧ map msgCount (store (fst r1)) = [6]
   ∧ map messageId (store (fst r1)) = [None])
  ∧ (snd r2 = Returned tt
     ∧ calls (fst r2)
       = [CFetchMessage "general" "artifact-0";
          CChannelSend "general" (render Sample.cfg (Sample.record 5))]
     ∧ map msgCount (store (fst r2)) = [0]
     ∧ map messageId (store (fst r2)) = [Some "artifact-1"]).
Proof. vm_compute. repeat split. Qed.

(** ** The sweep, record by record *)

Lemma need_create_run p rec w :
  ∃ cs b, need_create p rec w = (logged cs w, Returned b)
          ∧ List.filter is_create_webhook cs = []
          ∧ (healthy p rec → b = false).
Proof.
  unfold need_create, healthy.
  destruct (webhookId rec) as [wid|] eqn:Hid.
  2: { exists [], true. rewrite logged_nil. repeat split.
       intros (? & ? & ? & [=] & _). }
  destruct (webhookToken rec) as [wtoken|] eqn:Htok.
  2: { exists [], true. rewrite logged_nil. repeat split.
       intros (? & ? & ? & _ & [=] & _). }
  destruct (Js.str_truthy wid && Js.str_truthy wtoken) eqn:Ht.
  2: { exists [], true. rewrite logged_nil. repeat split.
       intros (? & ? & ? & [= <-] & [= <-] & H1 & H2 & _).
       by rewrite H1, H2 in Ht. }
  unfold try_catch. rewrite bind_run, await_run.
  destruct (fetch_webhooks p (channelId rec)) as [hooks|] eqn:Hh.
  - eexists _, _. repeat split.
    intros (? & ? & hooks' & [= <-] & _ & _ & _ & [= <-] & Hin).
    apply negb_false_iff, existsb_exists. exists wid. split; [done |].
    apply String.eqb_refl.
  - eexists _, _. repeat split.
    intros (? & ? & ? & _ & _ & _ & _ & [=] & _).
Qed.

(** What processing one record can do to the world: nothing but calls,
    or the calls and the update of the webhook fields of that record. *)
Lemma ensure_record_run cfg p rec w :
  ∃ cs,
    (ensure_record cfg p rec w = (logged cs w, Returned tt)
     ∧ (healthy p rec → List.filter is_create_webhook cs = []))
    ∨ (¬ healthy p rec ∧
       ∃ wid wtoken,
         ensure_record cfg p rec w
         = ({| store := StickyModel.update_first (_id rec)
                          (set_webhook wid wtoken (sweep_name cfg rec) (sweep_avatar cfg rec))
                          (store w);
               cooldowns := cooldowns w; calls := (calls w ++ cs)%list |}, Returned tt)).
Proof.
  unfold ensure_record.
  destruct (channel_cache p !! channelId rec) as [name|].
  2: { exists []. left. by rewrite logged_nil. }
  rewrite bind_run.
  destruct (need_create_run p rec w) as (cs & b & -> & Hcs & Hb).
  destruct b.
  - unfold try_catch. rewrite bind_run, await_run, logged_logged.
    destruct (create_webhook p (channelId rec) (sweep_name cfg rec) (sweep_avatar cfg rec))
      as [[wid wtoken]|].
    + eexists. right. split; [by intros H; apply Hb in H |].
      exists wid, wtoken. reflexivity.
    + eexists. left. split; [reflexivity |]. by intros H; apply Hb in H.
  - exists cs. left. split; [reflexivity | done].
Qed.

Lemma for_each_run {A} (P : world → Prop) (l : list A) (body : A → M unit) :
  (∀ x w, In x l → P w → ∃ w', body x w = (w', Returned tt) ∧ P w') →
  ∀ w, P w → ∃ w', for_each l body w = (w', Returned tt) ∧ P w'.
Proof.
  induction l as [|x l IH]; intros Hbody w Hw.
  - exists w. by split.
  - simpl. rewrite bind_run.
    destruct (Hbody x w (or_introl eq_refl) Hw) as (w1 & -> & Hw1).
    apply IH; [| done]. intros y w2 Hy. apply Hbody. by right.
Qed.

Lemma ensureWebhooks_run (P : world → Prop) cfg p w :
  (∀ rec w1, In rec (store w) → useWebhook rec = true → P w1 →
     ∃ w2, ensure_record cfg p rec w1 = (w2, Returned tt) ∧ P w2) →
  P w → ∃ w', ensureWebhooks cfg p w = (w', Returned tt) ∧ P w'.
Proof.
  intros Hbody Hw. unfold ensureWebhooks, try_catch.
  rewrite bind_run. unfold StickyModel.find_useWebhook, get_store. eff_unfold.
  assert (Hb : ∀ rec w1, In rec (List.filter useWebhook (store w)) → P w1 →
                 ∃ w2, ensure_record cfg p rec w1 = (w2, Returned tt) ∧ P w2).
  { intros rec w1 Hin. apply filter_In in Hin as [Hin Hweb]. by apply Hbody. }
  destruct (for_each_run P _ _ Hb w Hw) as (w' & -> & Hw'). by exists w'.
Qed.

Lemma update_first_msgCount i f s :
  (∀ x, msgCount (f x) = msgCount x) →
  map msgCount (StickyModel.update_first i f s) = map msgCount s.
Proof.
  intros Hf. induction s as [|a s IH]; [done |].
  simpl. destruct (StickyModel.has_id i a); simpl; [by rewrite Hf | by rewrite IH].
Qed.

Lemma update_first_keeps i f s r :
  In r s → _id r ≠ i → In r (StickyModel.update_first i f s).
Proof.
  intros Hin Hne. induction s as [|a s IH]; [done |].
  simpl. destruct (StickyModel.has_id i a) eqn:Hi.
  - destruct Hin as [-> | Hin]; [| by right].
    by apply has_id_spec in Hi.
  - destruct Hin as [-> | Hin]; [by left | right; by apply IH].
Qed.

Lemma unique_ids_inj s r1 r2 :
  unique_ids s → In r1 s → In r2 s → _id r1 = _id r2 → r1 = r2.
Proof.
  unfold unique_ids. induction s as [|a s IH]; [done |].
  simpl. intros Hu. inversion Hu as [|? ? Hnotin Hu']; subst.
  intros [-> | H1] [-> | H2] Heq; try done.
  - exfalso. apply Hnotin. rewrite Heq. by apply list_elem_of_In, in_map.
  - exfalso. apply Hnotin. rewrite <- Heq. by apply list_elem_of_In, in_map.
  - by apply IH.
Qed.

(** ** C4 *)

Lemma removal_calls_post_nothing cfg p ch sm c :
  In c (removal_calls cfg p ch sm) → posted_by p c = None.
Proof.
  unfold removal_calls. destruct (Js.truthy (messageId sm)).
  - intros [<- | Hin]; [done |].
    destruct (fetch_message p ch _); [| done]. by destruct Hin as [<- | []].
  - intros [<- | Hin]; [done |].
    destruct (fetch_recent p ch) as [ms|]; [| done].
    unfold scan_calls in Hin. apply in_map_iff in Hin as (m & <- & _). done.
Qed.

(** A send call of a dispatch produced a message exactly when the
    dispatch resolved to that message. *)
Lemma dispatch_posted cfg p ch sm m :
  dispatch_outcome cfg p ch sm = Returned (Some m) ↔
  ∃ c, In c (dispatch_calls cfg p ch sm) ∧ posted_by p c = Some m.
Proof.
  unfold dispatch_outcome, dispatch_calls, direct_outcome.
  destruct (webhook_identity sm) as [[wid wtoken]|].
  - destruct (webhook_send p wid wtoken (render cfg sm)) as [res|] eqn:Hw.
    + split.
      * intros [= Hm]. eexists. split; [by left |]. simpl. by rewrite Hw.
      * intros (c & [<- | []] & Hc). simpl in Hc. rewrite Hw in Hc. by rewrite Hc.
    + split.
      * destruct (channel_send p ch (render cfg sm)) as [m'|] eqn:Hs; [| done].
        intros [= ->]. eexists. split; [right; by left | done].
      * intros (c & [<- | [<- | []]] & Hc); simpl in Hc.
        -- by rewrite Hw in Hc.
        -- by rewrite Hc.
  - split.
    + destruct (channel_send p ch (render cfg sm)) as [m'|] eqn:Hs; [| done].
      intros [= ->]. eexists. split; [by left | done].
    + intros (c & [<- | []] & Hc). simpl in Hc. by rewrite Hc.
Qed.

Lemma execute_create_existing cfg p i w sm raw opt :
  interaction_sub i = SubCreate raw opt →
  stored (store w) (interaction_channel i) = Some sm →
  store (fst (execute cfg p i w)) = store w.
Proof.
  intros Hsub Hs. unfold execute.
  destruct (negb (can_ManageMessages i)); [done |].
  destruct (match Enabled cfg with Some false => true | _ => false end); [done |].
  rewrite Hsub. unfold sub_create. rewrite bind_run.
  unfold StickyModel.findOne, get_store. eff_unfold.
  unfold stored in Hs. by rewrite Hs.
Qed.

(** C4. Handling a tracked message on a channel with a record leaves the
    count of the record at 0 exactly when one of the calls made while
    handling it posted a new artifact, whose id is then the stored
    artifact id; otherwise the count is the previous one plus one and the
    artifact id is unchanged. The sweep of the webhooks keeps every count,
    and [create] on a channel that has a record does not touch the
    collection. *)
Theorem msgCount_resets_exactly_on_successful_post :
  (∀ cfg p ev w sm,
     ignored ev = false →
     stored (store w) (channel_id ev) = Some sm →
     unique_ids (store w) →
     0 ≤ msgCount sm →
     ∃ w' o cs r,
       messageCreate cfg p ev w = (w', o)
       ∧ calls w' = (calls w ++ cs)%list
       ∧ stored (store w') (channel_id ev) = Some r
       ∧ (msgCount r = 0 ↔ ∃ c m, In c cs ∧ posted_by p c = Some m)
       ∧ (∀ c m, In c cs → posted_by p c = Some m → messageId r = Some (pm_id m))
       ∧ (msgCount r ≠ 0 →
          msgCount r = msgCount sm + 1 ∧ messageId r = messageId sm))
  ∧ (∀ cfg p w,
       map msgCount (store (fst (ensureWebhooks cfg p w))) = map msgCount (store w))
  ∧ (∀ cfg p i w sm raw opt,
       interaction_sub i = SubCreate raw opt →
       stored (store w) (interaction_channel i) = Some sm →
       store (fst (execute cfg p i w)) = store w).
Proof.
  split; [| split].
  - intros cfg p ev w sm Hi Hs Hu Hpos.
    set (ch := channel_id ev).
    (* the outcome when no artifact is posted *)
    assert (Hquiet : ∀ w' o cs,
      messageCreate cfg p ev w = (w', o) → store w' = store (counted sm w) →
      calls w' = (calls w ++ cs)%list →
      (∀ c, In c cs → posted_by p c = None) →
      ∃ w' o cs r,
        messageCreate cfg p ev w = (w', o)
        ∧ calls w' = (calls w ++ cs)%list
        ∧ stored (store w') ch = Some r
        ∧ (msgCount r = 0 ↔ ∃ c m, In c cs ∧ posted_by p c = Some m)
        ∧ (∀ c m, In c cs → posted_by p c = Some m → messageId r = Some (pm_id m))
        ∧ (msgCount r ≠ 0 →
           msgCount r = msgCount sm + 1 ∧ messageId r = messageId sm)).
    { intros w' o cs Hrun Hstore Hcalls Hnone.
      exists w', o, cs, (bump sm). repeat split; try done.
      - rewrite Hstore. by apply stored_counted.
      - simpl. lia.
      - intros (c & m & Hin & Hp). by rewrite (Hnone c Hin) in Hp.
      - intros c m Hin Hp. by rewrite (Hnone c Hin) in Hp. }
    pose proof (messageCreate_tracked cfg p ev w sm Hi Hs) as Hrun.
    rewrite gate_run in Hrun. simpl in Hrun.
    destruct (cooldown_open (cooldowns w) (channel_id ev) (now_at_check ev)).
    2: { apply (Hquiet _ _ [] Hrun); [done | by rewrite app_nil_r | by intros c []]. }
    rewrite reconcile_run in Hrun.
    destruct (MaxMessages cfg <=? msgCount sm).
    2: { apply (Hquiet _ _ [] Hrun); [done | by rewrite app_nil_r | by intros c []]. }
    rewrite repost_run in Hrun. fold ch in Hrun.
    destruct (scan_unreadable p ch sm).
    { apply (Hquiet _ _ (removal_calls cfg p ch sm) Hrun); [done | done |].
      intros c. apply removal_calls_post_nothing. }
    destruct (rejected_call p (embed_calls cfg (message sm)) empty_embed).
    { apply (Hquiet _ _ (removal_calls cfg p ch sm) Hrun); [done | done |].
      intros c. apply removal_calls_post_nothing. }
    assert (Hsilent : (∀ m, dispatch_outcome cfg p ch sm ≠ Returned (Some m)) →
      ∀ c, In c (removal_calls cfg p ch sm ++ dispatch_calls cfg p ch sm) →
           posted_by p c = None).
    { intros Hno c Hin. apply in_app_or in Hin as [Hin | Hin].
      - by apply removal_calls_post_nothing in Hin.
      - destruct (posted_by p c) as [m|] eqn:Hp; [| done].
        exfalso. apply (Hno m), dispatch_posted. by exists c. }
    cbv zeta in Hrun.
    destruct (dispatch_outcome cfg p ch sm) as [[m|]|e] eqn:Hout.
    + (* a message was posted *)
      eexists _, _, _, _. split; [exact Hrun |]. simpl.
      split; [reflexivity |]. split; [by apply stored_reposted |].
      split; [| split].
      * split; [| done]. intros _.
        apply dispatch_posted in Hout as (c & Hin & Hp).
        exists c, m. split; [| done]. apply in_or_app. by right.
      * intros c m' Hin Hp. apply in_app_or in Hin as [Hin | Hin].
        -- by rewrite (removal_calls_post_nothing _ _ _ _ _ Hin) in Hp.
        -- assert (Hm : dispatch_outcome cfg p ch sm = Returned (Some m')).
           { apply dispatch_posted. by exists c. }
           rewrite Hout in Hm. by injection Hm as ->.
      * done.
    + (* the send resolved to no message *)
      apply (Hquiet _ _ (removal_calls cfg p ch sm ++ dispatch_calls cfg p ch sm)%list Hrun);
        [done | done | by apply Hsilent].
    + (* the dispatch failed *)
      apply (Hquiet _ _ (removal_calls cfg p ch sm ++ dispatch_calls cfg p ch sm)%list Hrun);
        [done | done | by apply Hsilent].
  - intros cfg p w.
    destruct (ensureWebhooks_run
                (λ w1, map msgCount (store w1) = map msgCount (store w)) cfg p w)
      as (w' & -> & Hw'); [| done | done].
    intros rec w1 _ _ Hw1.
    destruct (ensure_record_run cfg p rec w1) as (cs & [[-> _] | (_ & wid & wtoken & ->)]).
    + by eexists.
    + eexists. split; [reflexivity |]. simpl. by rewrite update_first_msgCount.
  - intros cfg p i w sm raw opt. apply execute_create_existing.
Qed.

Lemma msgCount_resets_witness :
  ∃ w' r,
    fst (messageCreate Sample.cfg (Sample.platform_ok "artifact-1")
           (Sample.user_message 3000) (Sample.world_of [Sample.record 2])) = w'
    ∧ stored (store w') "general" = Some r
    ∧ msgCount r = 3.
Proof.
  assert (Hu : unique_ids (store (Sample.world_of [Sample.record 2]))).
  { unfold unique_ids. simpl. apply NoDup_singleton. }
  destruct msgCount_resets_exactly_on_successful_post as (H & _ & _).
  destruct (H Sample.cfg (Sample.platform_ok "artifact-1") (Sample.user_message 3000)
              (Sample.world_of [Sample.record 2]) (Sample.record 2)
              eq_refl eq_refl Hu ltac:(simpl; lia))
    as (w' & o & cs & r & Hrun & _ & Hs & _ & _ & _).
  exists w', r. rewrite Hrun. split; [reflexivity |]. split; [exact Hs |].
  vm_compute in Hrun. injection Hrun as <- _. vm_compute in Hs. by injection Hs as <-.
Defined.

(** ** C5 *)

(** C5. A tracked message on a channel with a record first persists the
    increment of [msgCount]. If the current time is before the recorded
    next-eligible time of the channel, the handler stops there; otherwise
    it sets the next-eligible time to the current time plus 1000 ms and
    runs the threshold decision. *)
Theorem increment_then_debounce cfg p ev w sm :
  ignored ev = false →
  stored (store w) (channel_id ev) = Some sm →
  unique_ids (store w) →
  let ch := channel_id ev in
  (stored (store (counted sm w)) ch = Some (bump sm)
   ∧ msgCount (bump sm) = msgCount sm + 1)
  ∧ (∀ t, cooldowns w !! ch = Some t → now_at_check ev < t →
       messageCreate cfg p ev w = (counted sm w, Returned tt))
  ∧ (cooldowns w !! ch = None ∨ (∃ t, cooldowns w !! ch = Some t ∧ t ≤ now_at_check ev) →
       messageCreate cfg p ev w = reconcile cfg p ch sm (armed ev (counted sm w))
       ∧ cooldowns (fst (messageCreate cfg p ev w)) !! ch = Some (now_at_set ev + 1000)).
Proof.
  intros Hi Hs Hu ch. split; [| split].
  - split; [by apply stored_counted | reflexivity].
  - intros t Ht Hlt. rewrite (messageCreate_tracked _ _ _ _ _ Hi Hs), gate_run.
    unfold cooldown_open. simpl. fold ch. rewrite Ht.
    by destruct (Z.leb_spec t (now_at_check ev)); [lia |].
  - intros Hopen. rewrite (messageCreate_tracked _ _ _ _ _ Hi Hs), gate_run.
    assert (Ho : cooldown_open (cooldowns (counted sm w)) (channel_id ev) (now_at_check ev) = true).
    { unfold cooldown_open. simpl. fold ch.
      destruct Hopen as [-> | (t & -> & Hle)]; [done | by apply Z.leb_le]. }
    rewrite Ho. split; [done |].
    rewrite reconcile_run. destruct (MaxMessages cfg <=? msgCount sm).
    + rewrite repost_cooldowns. simpl. by rewrite lookup_insert_eq.
    + simpl. by rewrite lookup_insert_eq.
Qed.

Lemma increment_then_debounce_witness :
  messageCreate Sample.cfg (Sample.platform_ok "artifact-1") (Sample.user_message 3000)
    (Sample.world_of [Sample.record 1])
  = reconcile Sample.cfg (Sample.platform_ok "artifact-1") "general" (Sample.record 1)
      (armed (Sample.user_message 3000)
         (counted (Sample.record 1) (Sample.world_of [Sample.record 1]))).
Proof.
  assert (Hu : unique_ids (store (Sample.world_of [Sample.record 1]))).
  { unfold unique_ids. simpl. apply NoDup_singleton. }
  destruct (increment_then_debounce Sample.cfg (Sample.platform_ok "artifact-1")
              (Sample.user_message 3000) (Sample.world_of [Sample.record 1])
              (Sample.record 1) eq_refl eq_refl Hu) as (_ & _ & H).
  apply H. left. reflexivity.
Defined.

(** ** C6 *)

(** C6. A sweep over a collection whose documents have distinct ids
    leaves every record with a live webhook identity as it is, and
    processing such a record issues no webhook creation. When every record
    with [useWebhook] set is in that state, a sweep leaves the whole
    collection as it is and creates no webhook, and so does a second sweep
    run right after it. *)
Theorem sweep_is_idempotent_on_live_identities cfg p w :
  unique_ids (store w) →
  (∀ r, In r (store w) → useWebhook r = true → healthy p r →
     In r (store (fst (ensureWebhooks cfg p w)))
     ∧ ∀ w1, ∃ cs,
         ensure_record cfg p r w1 = (logged cs w1, Returned tt)
         ∧ List.filter is_create_webhook cs = [])
  ∧ ((∀ r, In r (store w) → useWebhook r = true → healthy p r) →
     let w1 := fst (ensureWebhooks cfg p w) in
     let w2 := fst (ensureWebhooks cfg p w1) in
     store w1 = store w
     ∧ List.filter is_create_webhook (calls w1) = List.filter is_create_webhook (calls w)
     ∧ store w2 = store w
     ∧ List.filter is_create_webhook (calls w2) = List.filter is_create_webhook (calls w)).
Proof.
  intros Hu. split.
  - intros r Hin Hweb Hr. split.
    + destruct (ensureWebhooks_run (λ w1, In r (store w1)) cfg p w)
        as (w' & -> & Hw'); [| done | done].
      intros rec w1 Hrec _ Hw1.
      destruct (ensure_record_run cfg p rec w1)
        as (cs & [[-> _] | (Hbad & wid & wtoken & ->)]).
      * by eexists.
      * eexists. split; [reflexivity |]. simpl.
        apply update_first_keeps; [done |].
        intros Heq. apply Hbad.
        by rewrite <- (unique_ids_inj _ _ _ Hu Hin Hrec Heq).
    + intros w1.
      destruct (ensure_record_run cfg p r w1)
        as (cs & [[-> Hcs] | (Hbad & _)]); [| done].
      exists cs. split; [reflexivity | by apply Hcs].
  - intros Hall.
    assert (Hsweep : ∀ w0,
      store w0 = store w →
      ∃ w', ensureWebhooks cfg p w0 = (w', Returned tt)
            ∧ store w' = store w
            ∧ List.filter is_create_webhook (calls w')
              = List.filter is_create_webhook (calls w0)).
    { intros w0 Hw0.
      apply (ensureWebhooks_run
               (λ w1, store w1 = store w
                      ∧ List.filter is_create_webhook (calls w1)
                        = List.filter is_create_webhook (calls w0))); [| done].
      intros rec w1 Hrec Hweb [Hs1 Hc1]. rewrite Hw0 in Hrec.
      destruct (ensure_record_run cfg p rec w1)
        as (cs & [[-> Hcs] | (Hbad & _)]).
      - eexists. split; [reflexivity |]. split; [done |]. simpl.
        rewrite List.filter_app, Hcs, app_nil_r; [done | by apply Hall].
      - exfalso. apply Hbad. by apply Hall. }
    destruct (Hsweep w eq_refl) as (w1 & Hrun1 & Hs1 & Hc1).
    destruct (Hsweep w1 Hs1) as (w2 & Hrun2 & Hs2 & Hc2).
    cbv zeta. rewrite Hrun1. simpl. rewrite Hrun2. simpl.
    repeat split; try done. by rewrite Hc2.
Qed.

Lemma sweep_is_idempotent_witness :
  store (fst (ensureWebhooks Sample.cfg (Sample.platform_ok "artifact-1")
                (Sample.world_of [Sample.webhook_record 0])))
  = [Sample.webhook_record 0].
Proof.
  assert (Hu : unique_ids (store (Sample.world_of [Sample.webhook_record 0]))).
  { unfold unique_ids. simpl. apply NoDup_singleton. }
  destruct (sweep_is_idempotent_on_live_identities Sample.cfg
              (Sample.platform_ok "artifact-1")
              (Sample.world_of [Sample.webhook_record 0]) Hu) as (_ & H).
  apply H. intros r [<- | []] _.
  exists "hook-1", "token-1", ["hook-1"]. repeat split. by left.
Defined.

(** ** C7 *)

(** C7. The author filter lets a message through unless its author is the
    bot user itself (or the message has no guild). A sticky artifact
    delivered through the webhook of the record is authored by the
    webhook, so its own message event is tracked: the count of the channel
    is incremented for it, and below the threshold that is all the handler
    does. *)
Theorem webhook_artifact_counts_as_message cfg p ev w sm wid :
  webhookId sm = Some wid →
  author_id ev = wid →
  wid ≠ client_user_id ev →
  in_guild ev = true →
  stored (store w) (channel_id ev) = Some sm →
  unique_ids (store w) →
  ignored ev = false
  ∧ messageCreate cfg p ev w = gate cfg p ev sm (counted sm w)
  ∧ stored (store (counted sm w)) (channel_id ev) = Some (bump sm)
  ∧ msgCount (bump sm) = msgCount sm + 1
  ∧ (msgCount sm < MaxMessages cfg →
     ∃ w', messageCreate cfg p ev w = (w', Returned tt)
           ∧ stored (store w') (channel_id ev) = Some (bump sm)
           ∧ calls w' = calls w).
Proof.
  intros Hid Ha Hne Hg Hs Hu.
  assert (Hi : ignored ev = false).
  { unfold ignored. rewrite Hg, Ha.
    destruct (String.eqb_spec wid (client_user_id ev)); done. }
  split; [done |]. split; [by apply messageCreate_tracked |].
  split; [by apply stored_counted |]. split; [done |].
  intros Hlt. rewrite (messageCreate_tracked _ _ _ _ _ Hi Hs), gate_run.
  destruct (cooldown_open _ _ _).
  - rewrite reconcile_run.
    destruct (Z.leb_spec (MaxMessages cfg) (msgCount sm)); [lia |].
    eexists. split; [reflexivity |]. split; [by apply stored_counted | done].
  - eexists. split; [reflexivity |]. split; [by apply stored_counted | done].
Qed.

Lemma webhook_artifact_counts_witness :
  ∃ w',
    messageCreate Sample.cfg (Sample.platform_ok "artifact-2") (Sample.webhook_echo 9000)
      (Sample.world_of [Sample.webhook_record 0]) = (w', Returned tt)
    ∧ stored (store w') "general" = Some (bump (Sample.webhook_record 0)).
Proof.
  assert (Hu : unique_ids (store (Sample.world_of [Sample.webhook_record 0]))).
  { unfold unique_ids. simpl. apply NoDup_singleton. }
  destruct (webhook_artifact_counts_as_message Sample.cfg (Sample.platform_ok "artifact-2")
              (Sample.webhook_echo 9000) (Sample.world_of [Sample.webhook_record 0])
              (Sample.webhook_record 0) "hook-1" eq_refl eq_refl
              ltac:(discriminate) eq_refl eq_refl Hu) as (_ & _ & _ & _ & H).
  destruct (H ltac:(simpl; lia)) as (w' & H1 & H2 & _).
  by exists w'.
Defined.

(** A repost through the webhook followed by the message event of the
    posted artifact: the count is back at 1. *)
Example webhook_repost_then_echo :
  let w := run_events Sample.cfg
             [(Sample.platform_ok "artifact-1", Sample.user_message 2000);
              (Sample.platform_ok "artifact-2", Sample.webhook_echo 2100)]
             (Sample.world_of [Sample.webhook_record 5]) in
  map msgCount (store w) = [1] ∧ map messageId (store w) = [Some "artifact-1"].
Proof. vm_compute. by split. Qed.

(** ** C8 *)

Lemma remove_first_prefix kept c rest :
  (∀ r, In r kept → StickyModel.has_channel c r = false) →
  StickyModel.remove_first c (kept ++ rest) = (kept ++ StickyModel.remove_first c rest)%list.
Proof.
  intros Hk. induction kept as [|a kept IH]; [done |].
  simpl. rewrite (Hk a (or_introl eq_refl)). f_equal. apply IH.
  intros r Hr. apply Hk. by right.
Qed.

Lemma add_fields_twice fs1 fs2 e :
  apply_setter (AddFields fs2) (apply_setter (AddFields fs1) e)
  = apply_setter (AddFields (fs1 ++ fs2)) e.
Proof. unfold apply_setter. simpl. by rewrite app_assoc. Qed.

Lemma add_fields_nil e : apply_setter (AddFields []) e = e.
Proof. destruct e. unfold apply_setter. simpl. by rewrite app_nil_r. Qed.

(** The loop of [list], started on a collection made of records already
    visited and kept, followed by the records still to visit: it gets
    through [list_progress] of them, removing the ones whose channel is
    not cached, and throws there if records are left. *)
Lemma list_loop_run p kept rest e cd cs :
  (∀ r, In r kept → channel_cached p r = true) →
  let n := list_progress p rest e in
  ∃ out,
    list_loop p rest e {| store := kept ++ rest; cooldowns := cd; calls := cs |}
    = ({| store := kept ++ List.filter (channel_cached p) (take n rest) ++ drop n rest;
          cooldowns := cd; calls := cs |}, out)
    ∧ (n = length rest →
       out = Returned (apply_setter (AddFields (rendered_fields p rest)) e))
    ∧ (n ≠ length rest → ∃ s, out = Thrown (Invalid s)).
Proof.
  unfold channel_cached. cbv zeta.
  revert kept e. induction rest as [|sm rest IH]; intros kept e Hk.
  - simpl. eexists. split; [reflexivity |]. split; [| done].
    intros _. f_equal. destruct e. simpl. by rewrite app_nil_r.
  - cbn [list_loop list_progress].
    destruct (channel_cache p !! channelId sm) as [name|] eqn:Hc.
    + rewrite bind_run. unfold call_builder.
      destruct (builder_accepts p e (AddFields (record_fields name sm))).
      * unfold mret at 1, Eff_ret at 1.
        destruct (IH (kept ++ [sm])%list (apply_setter (AddFields (record_fields name sm)) e))
          as (out & Hrun & Hall & Hstop).
        { intros r Hr. apply in_app_or in Hr as [Hr | [<- | []]]; [by apply Hk |].
          by rewrite Hc. }
        rewrite <- !app_assoc in Hrun. cbn [app] in Hrun.
        exists out. split; [| split].
        -- rewrite Hrun. cbn [take drop List.filter app]. by rewrite Hc.
        -- intros Hn. rewrite Hall by (cbn [length] in Hn; lia).
           rewrite add_fields_twice. unfold rendered_fields. cbn [flat_map].
           by rewrite Hc.
        -- intros Hn. apply Hstop. cbn [length] in Hn. lia.
      * eexists. split; [reflexivity |]. split; [done |]. intros _. by eexists.
    + rewrite bind_run. unfold StickyModel.findOneAndDelete, modify_store. simpl.
      rewrite remove_first_prefix.
      * cbn [StickyModel.remove_first]. unfold StickyModel.has_channel at 1.
        rewrite String.eqb_refl.
        destruct (IH kept e Hk) as (out & Hrun & Hall & Hstop).
        exists out. split; [| split].
        -- rewrite Hrun. cbn [take drop List.filter]. by rewrite Hc.
        -- intros Hn. rewrite Hall by (cbn [length] in Hn; lia).
           unfold rendered_fields. cbn [flat_map app]. by rewrite Hc.
        -- intros Hn. apply Hstop. cbn [length] in Hn. lia.
      * intros r Hr. apply Hk in Hr.
        unfold StickyModel.has_channel.
        destruct (String.eqb_spec (channelId r) (channelId sm)) as [Heq|]; [| done].
        by rewrite Heq, Hc in Hr.
Qed.

(** What [list] leaves of the collection, whether it returns or throws:
    the records it got through are pruned, the others are as they
    were. *)
Lemma sub_list_store p w :
  ∃ n, store (fst (sub_list p w))
       = (List.filter (channel_cached p) (take n (store w)) ++ drop n (store w))%list.
Proof.
  unfold sub_list, StickyModel.find_all. rewrite bind_run. unfold get_store.
  destruct w as [s cd cs]. cbn [store]. destruct s as [|sm s]; [by exists 0%nat |].
  rewrite bind_run, call_all_run.
  destruct (rejected_call p list_header empty_embed); [by exists 0%nat |].
  rewrite bind_run.
  destruct (list_loop_run p [] (sm :: s) (embed_after list_header empty_embed) cd cs)
    as (out & Hrun & _); [by intros r [] |].
  cbn [app] in Hrun. rewrite Hrun.
  eexists. by destruct out.
Qed.

(** When the builder accepts every call, [list], run by a member who may
    manage messages while the addon is not disabled, removes from the
    collection every record whose channel is not in the channel cache and
    keeps the others, unchanged and in order; its reply is the embed with
    the fields of the records kept (on an empty collection it replies
    with a text instead). *)
Lemma list_deletes_records_of_uncached_channels cfg p i w :
  can_ManageMessages i = true →
  Enabled cfg ≠ Some false →
  interaction_sub i = SubList →
  list_accepted p (store w) →
  ∃ w',
    execute cfg p i w = (w', Returned tt)
    ∧ store w' = List.filter (channel_cached p) (store w)
    ∧ (∀ r, In r (store w) → channel_cached p r = false → ¬ In r (store w'))
    ∧ (∀ r, In r (store w) → channel_cached p r = true → In r (store w'))
    ∧ (store w ≠ [] →
       calls w'
       = (calls w ++ [CReplyEmbed
                        (apply_setter (AddFields (rendered_fields p (store w)))
                           (embed_after list_header empty_embed))])%list).
Proof.
  intros Hperm Hen Hsub [Hhead Hall]. unfold execute. rewrite Hperm, Hsub. simpl.
  assert (He : match Enabled cfg with Some false => true | _ => false end = false).
  { by destruct (Enabled cfg) as [[|]|]. }
  rewrite He. unfold sub_list. rewrite bind_run.
  unfold StickyModel.find_all, get_store.
  assert (Hfilter : ∀ s r, In r s → channel_cached p r = false →
                           ¬ In r (List.filter (channel_cached p) s)).
  { intros s r _ Hc Hin. apply filter_In in Hin as [_ Hc']. by rewrite Hc in Hc'. }
  assert (Hkeep : ∀ s r, In r s → channel_cached p r = true →
                         In r (List.filter (channel_cached p) s)).
  { intros s r Hin Hc. by apply filter_In. }
  destruct w as [s cd cs]. cbn [store calls] in Hall |- *. destruct s as [|sm s].
  - eexists. split; [reflexivity |]. simpl. repeat split; try done.
  - rewrite bind_run, call_all_run, Hhead. rewrite bind_run.
    destruct (list_loop_run p [] (sm :: s) (embed_after list_header empty_embed) cd cs)
      as (out & Hrun & Hout & _); [by intros r [] |].
    cbn [app] in Hrun. rewrite Hrun, (Hout Hall), Hall.
    rewrite firstn_all, skipn_all, app_nil_r.
    eexists. split; [reflexivity |]. cbn [store calls fst].
    split; [done |]. split; [by apply Hfilter |]. split; [by apply Hkeep | done].
Qed.

(** C8. The embed of [list] has room for the records of eight channels.
    On a collection of nine records whose channels are cached, followed
    by the record of a channel that is gone, the builder rejects the
    fields of the ninth record (they would be fields 25 to 27): the
    command throws there, replies nothing and leaves the collection as it
    was, the stale record included. With the first record taken away the
    same command returns, removes the stale record, keeps the eight
    others and replies. *)
Theorem list_stops_at_the_field_limit :
  let p := Sample.platform_crowded in
  let run s := execute Sample.cfg p Sample.list_interaction (Sample.world_of s) in
  (snd (run Sample.crowded_store)
   = Thrown (Invalid (AddFields (record_fields "c9" (Sample.record_of 9 "c9"))))
   ∧ store (fst (run Sample.crowded_store)) = Sample.crowded_store
   ∧ calls (fst (run Sample.crowded_store)) = [])
  ∧ (snd (run (tail Sample.crowded_store)) = Returned tt
     ∧ map channelId (store (fst (run (tail Sample.crowded_store))))
       = tail Sample.crowded_channels
     ∧ map is_reply (calls (fst (run (tail Sample.crowded_store)))) = [true]).
Proof. vm_compute. repeat split. Qed.

(** ** The version checker *)

Module VersionCheckerFacts.
Import VersionChecker.

(** *** C9 *)

Section Retry.

Variable net : nat → fetch_result.
Variable self : checker.
Variable url : string.
Variable extra : list (string * string).

Let R := retries (opts self).
Let req := request_event self url extra.

Lemma attempt_once_run w :
  attempt_once net self url extra w =
  ({| requests := S (requests w); events := events w ++ [req] |},
   match attempt_failure (net (requests w)) with
   | Some e => Thrown e
   | None => Returned (attempt_value (net (requests w)))
   end).
Proof.
  unfold attempt_once, attempt_failure, attempt_value.
  destruct (net (requests w)) as [reason | ok status text body]; [done |].
  destruct ok; [| done]. by destruct body.
Qed.

(** The loop from attempt number [attempt] with [n] attempts left, the
    last of which is attempt number [retries]. *)
Lemma attempts_from_run n attempt w :
  attempt + Z.of_nat n = R + 1 →
  ∃ k w' out,
    attempts_from net self url extra n attempt w = (w', out)
    ∧ retried net self url extra n k attempt w w' out.
Proof.
  revert attempt w. induction n as [|n IH]; intros attempt w Hinv.
  - exists 0%nat, w, (Returned None). split; [reflexivity |].
    unfold retried. simpl. rewrite Nat.add_0_r, app_nil_r.
    split; [lia |]. split; [done |]. split; [done |].
    split; [intros j Hj; lia | by left].
  - simpl. unfold try_catch. rewrite attempt_once_run.
    destruct (attempt_failure (net (requests w))) as [cause|] eqn:Hfail.
    + fold R. destruct (Z.eqb_spec attempt R) as [Heq | Hne].
      * (* the last attempt failed *)
        assert (n = 0%nat) as -> by lia.
        exists 1%nat. eexists _, _. split; [reflexivity |].
        unfold retried. simpl.
        split; [lia |]. split; [lia |]. split; [done |].
        split; [intros j Hj; lia |].
        exists 0%nat, cause. by rewrite Nat.add_0_r.
      * (* a pause, then the next attempt *)
        rewrite bind_run. unfold emit. simpl.
        destruct (IH (attempt + 1)
                    {| requests := S (requests w);
                       events := (events w ++ [req]) ++ [Sleep (1000 * attempt)] |}
                    ltac:(lia))
          as (k & w' & out & -> & Hk & Hreq & Hev & Hfailed & Hout).
        simpl in Hreq, Hev, Hfailed.
        assert (Hk1 : ∃ k', k = S k').
        { destruct k as [|k']; [| by eexists].
          destruct out as [v|e].
          - destruct Hout as [(_ & Hn & _) | (j & Hj & _)]; [lia | done].
          - by destruct Hout as (j & c & Hj & _). }
        destruct Hk1 as (k' & ->).
        exists (S (S k')), w', out. split; [reflexivity |].
        unfold retried.
        split; [lia |]. split; [lia |].
        split. { rewrite Hev. simpl. rewrite <- !app_assoc. reflexivity. }
        split.
        { intros [|j] Hj.
          - rewrite Nat.add_0_r, Hfail. done.
          - replace (requests w + S j)%nat with (S (requests w) + j)%nat by lia.
            apply Hfailed. lia. }
        destruct out as [v|e]; simpl in Hout.
        -- right. destruct Hout as [(Hk0 & _) | (j & Hj & Hnone & Hv)]; [done |].
           exists (S j). injection Hj as <-.
           replace (requests w + S k')%nat with (S (requests w) + k')%nat by lia.
           done.
        -- destruct Hout as (j & c & Hj & Hn & Hc & He).
           exists (S j), c. injection Hj as <-.
           replace (requests w + S k')%nat with (S (requests w) + k')%nat by lia.
           split; [done |]. split; [lia | done].
    + (* the attempt succeeded *)
      exists 1%nat. eexists _, _. split; [reflexivity |].
      unfold retried. simpl.
      split; [lia |]. split; [lia |]. split; [done |].
      split; [intros j Hj; lia |].
      right. exists 0%nat. by rewrite Nat.add_0_r.
Qed.

(** C9. [fetchWithRetry] sends at most [retries] requests, each with an
    abort timer of [timeout] milliseconds; after the failed attempt number
    [i], if it is not the last one allowed, it waits [1000 * i]
    milliseconds; it returns the body of the first request that succeeds,
    and throws only when the last attempt allowed has failed like all the
    ones before it. Without options the checker is built with 2 retries
    and a timeout of 10000 ms. *)
Theorem fetchWithRetry_retries_are_bounded w :
  (∃ k w' out,
     fetchWithRetry net self url extra w = (w', out)
     ∧ (k ≤ Z.to_nat (retries (opts self)))%nat
     ∧ requests w' = (requests w + k)%nat
     ∧ events w'
       = (events w
          ++ retry_trace (Request url
                            ([("User-Agent", user_agent self);
                              ("Accept", "application/json")] ++ extra)
                            (timeout (opts self))) k 1)%list
     ∧ (∀ j, (S j < k)%nat → attempt_failure (net (requests w + j)%nat) ≠ None)
     ∧ match out with
       | Returned v =>
           (k = 0%nat ∧ retries (opts self) ≤ 0 ∧ v = None)
           ∨ ∃ j, k = S j
                  ∧ attempt_failure (net (requests w + j)%nat) = None
                  ∧ v = attempt_value (net (requests w + j)%nat)
       | Thrown e =>
           ∃ j cause, k = S j ∧ Z.of_nat k = retries (opts self)
                      ∧ attempt_failure (net (requests w + j)%nat) = Some cause
                      ∧ e = FailedAfter (retries (opts self)) cause
       end)
  ∧ (∀ name version,
       retries (opts (constructor name version no_options)) = 2
       ∧ timeout (opts (constructor name version no_options)) = 10000).
Proof.
  split; [| done].
  unfold fetchWithRetry.
  destruct (Z.le_gt_cases (retries (opts self)) 0) as [Hle | Hgt].
  - (* no attempt is allowed *)
    replace (Z.to_nat (retries (opts self))) with 0%nat by lia.
    exists 0%nat, w, (Returned None). simpl. rewrite Nat.add_0_r, app_nil_r.
    split; [done |]. split; [lia |]. split; [done |]. split; [done |].
    split; [intros j Hj; lia | by left].
  - destruct (attempts_from_run (Z.to_nat (retries (opts self))) 1 w)
      as (k & w' & out & Hrun & Hk & Hreq & Hev & Hfailed & Hout).
    { unfold R. lia. }
    exists k, w', out. split; [done |]. split; [done |]. split; [done |].
    split; [done |]. split; [done |].
    destruct out as [v|e].
    + destruct Hout as [(_ & Hn & _) | Hlast]; [lia | by right].
    + destruct Hout as (j & cause & Hj & Hn & Hc & He).
      exists j, cause. split; [done |]. split; [lia | done].
Qed.

End Retry.

Lemma fetchWithRetry_retries_witness :
  ∃ k w' out,
    fetchWithRetry net_unavailable (constructor "StickyMessages" "1.2.0" no_options)
      "https://addons.plexdev.live/versions.json" [] {| requests := 0; events := [] |}
    = (w', out)
    ∧ (k ≤ 2)%nat ∧ requests w' = k.
Proof.
  destruct (fetchWithRetry_retries_are_bounded net_unavailable
              (constructor "StickyMessages" "1.2.0" no_options)
              "https://addons.plexdev.live/versions.json" []
              {| requests := 0; events := [] |})
    as [(k & w' & out & Hrun & Hk & Hreq & _) _].
  exists k, w', out. split; [exact Hrun |]. split; [exact Hk | exact Hreq].
Defined.

(** *** C10 *)

Lemma compare_from_tail c l n i :
  compare_from c l n (S i) = compare_from (tl c) (tl l) n i.
Proof.
  revert i. induction n as [|n IH]; intros i; [done |].
  simpl. rewrite IH.
  assert (Hnth : ∀ xs : list Z, nth (S i) xs 0 = nth i (tl xs) 0).
  { intros [|x xs]; [by destruct i | done]. }
  by rewrite !Hnth.
Qed.









Section Check.

Variable net : nat → fetch_result.
Variable self : checker.



End Check.


(** A few versions compared. *)
Example compareVersions_samples :
  compareVersions "1.2.3" "v1.10" = -1
  ∧ compareVersions "1.0" "1.0.0" = 0
  ∧ compareVersions "2" "1.9.9" = 1
  ∧ parseVersion "v1.02.x" = [1; 2; 0].
Proof. repeat split. Qed.

End VersionCheckerFacts.

(** * Further properties of the addon *)

(** ** The message handler *)

Lemma update_first_map {B} (g : sticky_record → B) i f s :
  (∀ x, g (f x) = g x) →
  map g (StickyModel.update_first i f s) = map g s.
Proof.
  intros Hf. induction s as [|a s IH]; [done |].
  simpl. destruct (StickyModel.has_id i a); simpl; [by rewrite Hf | by rewrite IH].
Qed.

Lemma stored_is_in s c r : stored s c = Some r → In r s ∧ channelId r = c.
Proof.
  unfold stored. intros H. apply find_some in H as [Hin Hc].
  split; [done | by apply has_channel_spec].
Qed.

(** Whether a channel has a record depends on the channels of the
    documents only. *)
Lemma stored_some_by_channels s s' c r :
  map channelId s' = map channelId s → stored s c = Some r →
  ∃ r', stored s' c = Some r'.
Proof.
  unfold stored. revert s'. induction s as [|a s IH]; intros [|a' s'] Hmap Hs; try done.
  simpl in *. injection Hmap as Ha Hmap.
  unfold StickyModel.has_channel in *. rewrite Ha.
  destruct (String.eqb (channelId a) c); [by eexists | by apply IH].
Qed.

(** The worlds the threshold decision can end in. *)
Lemma reconcile_ends cfg p ch sm w :
  let w' := fst (reconcile cfg p ch sm w) in
  cooldowns w' = cooldowns w
  ∧ (∃ cs, calls w' = (calls w ++ cs)%list)
  ∧ (store w' = store w
     ∨ ∃ id, store w' = StickyModel.update_first (_id sm) (set_reposted id) (store w)).
Proof.
  cbv zeta. rewrite reconcile_run.
  destruct (MaxMessages cfg <=? msgCount sm).
  2: { simpl. split; [done |]. split; [exists []; by rewrite app_nil_r | by left]. }
  rewrite repost_run. destruct (scan_unreadable p ch sm).
  { simpl. split; [done |]. split; [by eexists | by left]. }
  destruct (rejected_call p _ _).
  { simpl. split; [done |]. split; [by eexists | by left]. }
  cbv zeta. destruct (dispatch_outcome cfg p ch sm) as [[m|]|e]; simpl.
  - split; [done |]. split; [by eexists |]. right. by eexists.
  - split; [done |]. split; [by eexists | by left].
  - split; [done |]. split; [by eexists | by left].
Qed.

(** The worlds a run of the handler can end in. *)
Lemma messageCreate_ends cfg p ev w :
  let w' := fst (messageCreate cfg p ev w) in
  w' = w
  ∨ ∃ sm, ignored ev = false
          ∧ stored (store w) (channel_id ev) = Some sm
          ∧ (w' = counted sm w
             ∨ ∃ cs, cooldown_open (cooldowns w) (channel_id ev) (now_at_check ev) = true
                     ∧ cooldowns w' = cooldowns (armed ev w)
                     ∧ calls w' = (calls w ++ cs)%list
                     ∧ (store w' = store (counted sm w)
                        ∨ ∃ id, store w'
                                = StickyModel.update_first (_id sm) (set_reposted id)
                                    (store (counted sm w)))).
Proof.
  cbv zeta. rewrite messageCreate_run.
  destruct (ignored ev) eqn:Hi; [by left |].
  destruct (stored (store w) (channel_id ev)) as [sm|] eqn:Hs; [| by left].
  right. exists sm. split; [done |]. split; [done |].
  rewrite gate_run. simpl.
  destruct (cooldown_open (cooldowns w) (channel_id ev) (now_at_check ev)) eqn:Ho;
    [| by left].
  right.
  destruct (reconcile_ends cfg p (channel_id ev) sm (armed ev (counted sm w)))
    as (Hcd & (cs & Hcalls) & Hstore).
  exists cs. split; [done |]. split; [by rewrite Hcd |]. split; [by rewrite Hcalls |].
  exact Hstore.
Qed.

(** X1. A message the handler does not track changes nothing: when the
    addon is disabled, when the author is the bot user itself, when the
    message has no guild, or when its channel has no record, the world
    after the handler is the world before it and no platform call is
    made. *)
Theorem untracked_message_changes_nothing cfg p ev w :
  flag_truthy (Enabled cfg) = false
  ∨ author_id ev = client_user_id ev
  ∨ in_guild ev = false
  ∨ stored (store w) (channel_id ev) = None →
  on_messageCreate cfg p ev w = (w, Returned tt).
Proof.
  intros H. unfold on_messageCreate.
  destruct (flag_truthy (Enabled cfg)); [| done].
  destruct H as [H | [H | [H | H]]]; [done | | |].
  - apply messageCreate_ignored. unfold ignored. by rewrite H, String.eqb_refl.
  - apply messageCreate_ignored. unfold ignored. rewrite H. by rewrite orb_true_r.
  - by apply messageCreate_no_record.
Qed.

Lemma untracked_message_witness :
  on_messageCreate Sample.cfg (Sample.platform_ok "artifact-1") (Sample.user_message 3000)
    (Sample.world_of [Sample.orphan_record])
  = (Sample.world_of [Sample.orphan_record], Returned tt).
Proof.
  apply untracked_message_changes_nothing. right. right. right. reflexivity.
Defined.

(** X2. The handler never adds, removes or reorders documents and writes
    no field but [msgCount] and [messageId]; it leaves the cooldown of
    every other channel as it was; and, document ids being unique, the
    records of the other channels are untouched. *)
Theorem handler_writes_count_and_artifact_only cfg p ev w :
  unique_ids (store w) →
  let w' := fst (messageCreate cfg p ev w) in
  map fixed_by_handler (store w') = map fixed_by_handler (store w)
  ∧ (∀ c, c ≠ channel_id ev → cooldowns w' !! c = cooldowns w !! c)
  ∧ (∀ r, In r (store w) → channelId r ≠ channel_id ev → In r (store w')).
Proof.
  intros Hu. cbv zeta.
  destruct (messageCreate_ends cfg p ev w)
    as [-> | (sm & Hi & Hs & [-> | (cs & Ho & Hcd & Hcalls & Hstore)])].
  - done.
  - apply stored_is_in in Hs as [Hin Hch].
    split; [by apply update_first_map |]. split; [done |].
    intros r Hr Hne. apply update_first_keeps; [done |].
    intros Heq. apply Hne. by rewrite (unique_ids_inj _ _ _ Hu Hr Hin Heq).
  - apply stored_is_in in Hs as [Hin Hch].
    assert (Hother : ∀ r, In r (store w) → channelId r ≠ channel_id ev → _id r ≠ _id sm).
    { intros r Hr Hne Heq. apply Hne. by rewrite (unique_ids_inj _ _ _ Hu Hr Hin Heq). }
    split; [| split].
    + destruct Hstore as [-> | (id & ->)]; simpl.
      * by apply update_first_map.
      * rewrite update_first_map; [| done]. by apply update_first_map.
    + intros c Hc. rewrite Hcd. simpl. by rewrite lookup_insert_ne.
    + intros r Hr Hne. destruct Hstore as [-> | (id & ->)]; simpl.
      * apply update_first_keeps; [done | by apply Hother].
      * apply update_first_keeps; [| by apply Hother].
        apply update_first_keeps; [done | by apply Hother].
Qed.

Lemma handler_writes_witness :
  In Sample.orphan_record
    (store (fst (messageCreate Sample.cfg (Sample.platform_ok "artifact-1")
                   (Sample.user_message 3000)
                   (Sample.world_of [Sample.record 5; Sample.orphan_record])))).
Proof.
  assert (Hu : unique_ids (store (Sample.world_of [Sample.record 5; Sample.orphan_record]))).
  { unfold unique_ids. simpl. apply NoDup_cons. split; [| apply NoDup_singleton].
    intros H. apply list_elem_of_In in H. by destruct H as [H | []]. }
  destruct (handler_writes_count_and_artifact_only Sample.cfg
              (Sample.platform_ok "artifact-1") (Sample.user_message 3000)
              (Sample.world_of [Sample.record 5; Sample.orphan_record]) Hu) as (_ & _ & H).
  apply H; [right; by left | discriminate].
Defined.

(** X3. Once a message has passed the cooldown gate of its channel, a
    further tracked message of that channel read before the set time
    plus 1000 ms is only counted: its run makes no platform call and
    leaves the cooldown alone, whatever the count of the record. *)
Theorem burst_within_window_is_only_counted cfg p1 p2 ev1 ev2 w sm :
  ignored ev1 = false →
  ignored ev2 = false →
  channel_id ev2 = channel_id ev1 →
  stored (store w) (channel_id ev1) = Some sm →
  cooldown_open (cooldowns w) (channel_id ev1) (now_at_check ev1) = true →
  now_at_check ev2 < now_at_set ev1 + 1000 →
  let w1 := fst (messageCreate cfg p1 ev1 w) in
  ∃ sm1,
    stored (store w1) (channel_id ev1) = Some sm1
    ∧ messageCreate cfg p2 ev2 w1 = (counted sm1 w1, Returned tt).
Proof.
  intros Hi1 Hi2 Hch Hs Ho Hlt. cbv zeta.
  rewrite (messageCreate_tracked _ _ _ _ _ Hi1 Hs), gate_run. simpl. rewrite Ho.
  destruct (reconcile_ends cfg p1 (channel_id ev1) sm (armed ev1 (counted sm w)))
    as (Hcd & _ & Hstore).
  set (w1 := fst (reconcile cfg p1 (channel_id ev1) sm (armed ev1 (counted sm w)))) in *.
  assert (Hchannels : map channelId (store w1) = map channelId (store w)).
  { destruct Hstore as [-> | (id & ->)]; simpl.
    - by apply update_first_map.
    - rewrite update_first_map; [| done]. by apply update_first_map. }
  destruct (stored_some_by_channels _ _ _ _ Hchannels Hs) as (sm1 & Hs1).
  exists sm1. split; [done |].
  rewrite <- Hch in Hs1.
  rewrite (messageCreate_tracked _ _ _ _ _ Hi2 Hs1), gate_run. simpl.
  unfold cooldown_open. rewrite Hch, Hcd. simpl. rewrite lookup_insert_eq.
  by destruct (Z.leb_spec (now_at_set ev1 + 1 * 1000) (now_at_check ev2)); [lia |].
Qed.

Lemma burst_within_window_witness :
  ∃ sm1,
    messageCreate Sample.cfg (Sample.platform_ok "artifact-2") (Sample.user_message 3500)
      (fst (messageCreate Sample.cfg (Sample.platform_ok "artifact-1")
              (Sample.user_message 3000) (Sample.world_of [Sample.record 5])))
    = (counted sm1
         (fst (messageCreate Sample.cfg (Sample.platform_ok "artifact-1")
                 (Sample.user_message 3000) (Sample.world_of [Sample.record 5]))),
       Returned tt).
Proof.
  destruct (burst_within_window_is_only_counted Sample.cfg
              (Sample.platform_ok "artifact-1") (Sample.platform_ok "artifact-2")
              (Sample.user_message 3000) (Sample.user_message 3500)
              (Sample.world_of [Sample.record 5]) (Sample.record 5)
              eq_refl eq_refl eq_refl eq_refl eq_refl ltac:(simpl; lia))
    as (sm1 & _ & H).
  by exists sm1.
Defined.

(** ** Rendering and the fallback scan *)

Lemma prefix_refl s : String.prefix s s = true.
Proof. induction s as [|c s IH]; [done |]. simpl. by destruct (ascii_dec c c). Qed.

Lemma includes_refl s : Js.includes s s = true.
Proof. destruct s; cbn [Js.includes]; by rewrite prefix_refl. Qed.

Lemma includes_grows a s sub :
  Js.includes s sub = true → Js.includes (a ++ s) sub = true.
Proof.
  intros H. induction a as [|c a IH]; [done |].
  change (String c a ++ s) with (String c (a ++ s)). cbn [Js.includes].
  destruct (String.prefix sub _); [done | exact IH].
Qed.

Lemma str_truthy_grows a b : Js.str_truthy b = true → Js.str_truthy (a ++ b) = true.
Proof. by destruct a. Qed.

Lemma handler_embed_description cfg sm :
  embed_description (handler_embed cfg sm) = Some (message sm).
Proof.
  unfold handler_embed, embed_calls.
  repeat match goal with |- context [when ?b _] => destruct b; cbn [when] end;
    reflexivity.
Qed.

(** X4. What the handler posts is what its fallback scan looks for: a
    platform message that shows the payload rendered for a record (the
    text as its content, or the embed among its embeds) passes the test
    of the scan for that record. With embeds enabled this needs a sticky
    text that is not empty, an empty description being skipped by the
    test. *)
Theorem posted_artifact_is_found_by_scan cfg sm m :
  shows (render cfg sm) m →
  (flag_truthy (EnableEmbeds cfg) = true → message sm ≠ EmptyString) →
  carries_sticky cfg sm m = true.
Proof.
  unfold shows, render, payload_of, carries_sticky. intros Hshow Hne.
  destruct (flag_truthy (EnableEmbeds cfg)); simpl.
  - apply existsb_exists. exists (handler_embed cfg sm). split; [done |].
    rewrite handler_embed_description. simpl. rewrite includes_refl, andb_true_r.
    destruct (message sm); [by destruct Hne | done].
  - rewrite Hshow, orb_false_r. unfold text_body.
    rewrite str_truthy_grows by done.
    by rewrite (includes_grows _ _ _ (includes_grows _ _ _ (includes_grows _ _ _
                  (includes_refl (message sm))))).
Qed.

Lemma posted_artifact_witness :
  carries_sticky Sample.cfg (Sample.record 0)
    {| pm_id := "artifact-9";
       pm_content := text_body Sample.cfg "Read the rules";
       pm_embeds := [] |} = true.
Proof.
  apply posted_artifact_is_found_by_scan; [reflexivity | discriminate].
Defined.

(** ** The webhook sweep *)

Lemma ensure_record_returns cfg p rec w :
  ∃ w', ensure_record cfg p rec w = (w', Returned tt).
Proof.
  destruct (ensure_record_run cfg p rec w) as (cs & [[-> _] | (_ & wid & wtoken & ->)]);
    by eexists.
Qed.

Lemma need_create_calls p rec w :
  ∃ b, need_create p rec w
       = (logged (if lacks_identity rec then [] else [CFetchWebhooks (channelId rec)]) w,
          Returned b)
       ∧ (b = false ↔ healthy p rec).
Proof.
  unfold need_create, lacks_identity, healthy, Js.truthy.
  destruct (webhookId rec) as [wid|] eqn:Hid.
  2: { exists true. rewrite logged_nil. split; [done |].
       split; [done | by intros (? & ? & ? & [=] & _)]. }
  destruct (webhookToken rec) as [wtoken|] eqn:Htok.
  2: { exists true. rewrite andb_false_r, logged_nil. split; [done |].
       split; [done | by intros (? & ? & ? & _ & [=] & _)]. }
  destruct (Js.str_truthy wid && Js.str_truthy wtoken) eqn:Ht; simpl.
  2: { exists true. rewrite logged_nil. split; [done |]. split; [done |].
       intros (? & ? & ? & [= <-] & [= <-] & H1 & H2 & _). by rewrite H1, H2 in Ht. }
  apply andb_true_iff in Ht as [Ht1 Ht2].
  unfold try_catch. rewrite bind_run, await_run.
  destruct (fetch_webhooks p (channelId rec)) as [hooks|] eqn:Hh.
  - eexists. split; [reflexivity |]. rewrite negb_false_iff, existsb_exists. split.
    + intros (x & Hin & Hx). apply String.eqb_eq in Hx as <-. by exists wid, wtoken, hooks.
    + intros (? & ? & hooks' & [= <-] & _ & _ & _ & [= <-] & Hin).
      exists wid. split; [done | apply String.eqb_refl].
  - exists true. split; [reflexivity |]. split; [done |].
    by intros (? & ? & ? & _ & _ & _ & _ & [=] & _).
Qed.

(** Processing one record whose channel is cached, in full. *)
Lemma ensure_record_cached cfg p rec w name :
  channel_cache p !! channelId rec = Some name →
  let lookup := if lacks_identity rec then [] else [CFetchWebhooks (channelId rec)] in
  let create := CCreateWebhook (channelId rec) (sweep_name cfg rec) (sweep_avatar cfg rec) in
  (healthy p rec ∧ ensure_record cfg p rec w = (logged lookup w, Returned tt))
  ∨ (¬ healthy p rec ∧
     ensure_record cfg p rec w
     = (match create_webhook p (channelId rec) (sweep_name cfg rec) (sweep_avatar cfg rec) with
        | Some (wid, wtoken) =>
            {| store := StickyModel.update_first (_id rec)
                          (set_webhook wid wtoken (sweep_name cfg rec) (sweep_avatar cfg rec))
                          (store w);
               cooldowns := cooldowns w;
               calls := (calls w ++ lookup ++ [create])%list |}
        | None => logged (lookup ++ [create]) w
        end, Returned tt)).
Proof.
  intros Hc. cbv zeta. unfold ensure_record. rewrite Hc, bind_run.
  destruct (need_create_calls p rec w) as (b & -> & Hb).
  destruct b.
  - right. split; [intros H; by apply Hb in H |].
    unfold try_catch. rewrite bind_run, await_run, logged_logged.
    destruct (create_webhook p (channelId rec) (sweep_name cfg rec) (sweep_avatar cfg rec))
      as [[wid wtoken]|]; reflexivity.
  - left. split; [by apply Hb | reflexivity].
Qed.

(** What processing one record can do, in a form that fits every
    record. *)
Lemma ensure_record_ends cfg p rec w :
  ∃ w' cs,
    ensure_record cfg p rec w = (w', Returned tt)
    ∧ cooldowns w' = cooldowns w
    ∧ calls w' = (calls w ++ cs)%list
    ∧ forallb is_webhook_call cs = true
    ∧ (store w' = store w
       ∨ (is_Some (channel_cache p !! channelId rec) ∧
          ∃ wid wtoken,
            store w' = StickyModel.update_first (_id rec)
                         (set_webhook wid wtoken (sweep_name cfg rec) (sweep_avatar cfg rec))
                         (store w))).
Proof.
  destruct (channel_cache p !! channelId rec) as [name|] eqn:Hc.
  2: { exists w, []. unfold ensure_record. rewrite Hc, app_nil_r.
       repeat split; try done. by left. }
  destruct (ensure_record_cached cfg p rec w name Hc) as [[_ ->] | [_ ->]].
  - eexists _, _. split; [reflexivity |]. simpl. repeat split; try done.
    + by destruct (lacks_identity rec).
    + by left.
  - destruct (create_webhook p (channelId rec) (sweep_name cfg rec) (sweep_avatar cfg rec))
      as [[wid wtoken]|].
    + eexists _, _. split; [reflexivity |]. simpl. repeat split; try done.
      * rewrite forallb_app. by destruct (lacks_identity rec).
      * right. split; [done |]. by exists wid, wtoken.
    + eexists _, _. split; [reflexivity |]. simpl. repeat split; try done.
      * rewrite forallb_app. by destruct (lacks_identity rec).
      * by left.
Qed.

(** X5. The sweep never throws, whatever the platform answers. It keeps
    the documents of the collection in place with their id, channel,
    text, count, artifact id and [useWebhook] flag, leaves the cooldowns
    alone, and the only platform calls it makes are webhook lookups and
    webhook creations. *)
Theorem sweep_never_throws_and_keeps_bookkeeping cfg p w :
  ∃ w' cs,
    ensureWebhooks cfg p w = (w', Returned tt)
    ∧ map fixed_by_sweep (store w') = map fixed_by_sweep (store w)
    ∧ cooldowns w' = cooldowns w
    ∧ calls w' = (calls w ++ cs)%list
    ∧ forallb is_webhook_call cs = true.
Proof.
  destruct (ensureWebhooks_run
              (λ w1, map fixed_by_sweep (store w1) = map fixed_by_sweep (store w)
                     ∧ cooldowns w1 = cooldowns w
                     ∧ ∃ cs, calls w1 = (calls w ++ cs)%list
                             ∧ forallb is_webhook_call cs = true) cfg p w)
    as (w' & Hrun & Hs & Hcd & cs & Hcalls & Hcs).
  - intros rec w1 _ _ (Hs1 & Hcd1 & cs1 & Hcalls1 & Hcs1).
    destruct (ensure_record_ends cfg p rec w1) as (w2 & cs2 & -> & Hcd2 & Hcalls2 & Hcs2 & Hs2).
    exists w2. split; [done |]. split; [| split].
    + destruct Hs2 as [-> | (_ & wid & wtoken & ->)]; [done |].
      by rewrite update_first_map.
    + by rewrite Hcd2.
    + exists (cs1 ++ cs2)%list. rewrite Hcalls2, Hcalls1, <- app_assoc.
      split; [done |]. by rewrite forallb_app, Hcs1, Hcs2.
  - split; [done |]. split; [done |]. exists []. by rewrite app_nil_r.
  - by exists w', cs.
Qed.

(** X6. Document ids being unique, the sweep leaves untouched every
    record that does not ask for a webhook and every record whose channel
    is not in the channel cache. *)
Theorem sweep_skips_other_records cfg p w r :
  unique_ids (store w) →
  In r (store w) →
  useWebhook r = false ∨ channel_cache p !! channelId r = None →
  In r (store (fst (ensureWebhooks cfg p w))).
Proof.
  intros Hu Hin Hskip.
  destruct (ensureWebhooks_run (λ w1, In r (store w1)) cfg p w)
    as (w' & -> & Hw'); [| done | done].
  intros rec w1 Hrec Hweb Hw1.
  destruct (ensure_record_ends cfg p rec w1) as (w2 & cs & -> & _ & _ & _ & Hs2).
  exists w2. split; [done |].
  destruct Hs2 as [-> | (Hcached & wid & wtoken & ->)]; [done |].
  apply update_first_keeps; [done |].
  intros Heq. rewrite (unique_ids_inj _ _ _ Hu Hin Hrec Heq) in Hskip.
  destruct Hskip as [Hskip | Hskip]; [congruence |].
  rewrite Hskip in Hcached. by destruct Hcached.
Qed.

Lemma sweep_skips_witness :
  In Sample.orphan_record
    (store (fst (ensureWebhooks Sample.cfg Sample.platform_no_hooks
                   (Sample.world_of [Sample.webhook_record 0; Sample.orphan_record])))).
Proof.
  assert (Hu : unique_ids
                 (store (Sample.world_of [Sample.webhook_record 0; Sample.orphan_record]))).
  { unfold unique_ids. simpl. apply NoDup_cons. split; [| apply NoDup_singleton].
    intros H. apply list_elem_of_In in H. by destruct H as [H | []]. }
  apply (sweep_skips_other_records _ _ _ _ Hu); [right; by left | by left].
Defined.

Lemma update_first_hits i f s r :
  unique_ids s → In r s → _id r = i → In (f r) (StickyModel.update_first i f s).
Proof.
  intros Hu Hin Hid. induction s as [|a s IH]; [done |].
  simpl. destruct (StickyModel.has_id i a) eqn:Ha.
  - apply has_id_spec in Ha.
    rewrite (unique_ids_inj _ a r Hu (or_introl eq_refl) Hin) by congruence. by left.
  - destruct Hin as [-> | Hin].
    + apply has_id_spec in Hid. congruence.
    + right. apply IH; [| done]. unfold unique_ids in *. simpl in Hu.
      by inversion Hu.
Qed.

Lemma sweep_name_not_empty cfg rec : Js.str_truthy (sweep_name cfg rec) = true.
Proof.
  unfold sweep_name, Js.or_else.
  destruct (Js.truthy (webhookName rec)) eqn:H1.
  { by destruct (webhookName rec). }
  destruct (Js.truthy (config_webhook_name cfg)) eqn:H2; [| done].
  by destruct (config_webhook_name cfg).
Qed.

Lemma sweep_avatar_usable cfg rec :
  sweep_avatar cfg rec = None ∨ Js.truthy (sweep_avatar cfg rec) = true.
Proof.
  unfold sweep_avatar, Js.or_else.
  destruct (Js.truthy (webhookAvatarURL rec)) eqn:H1; [by right |].
  destruct (Js.truthy (config_webhook_avatar cfg)) eqn:H2; [by right | by left].
Qed.

(** The loop of the sweep, followed for one record [r] of the snapshot. *)
Lemma sweep_loop_follows cfg p r r' l :
  (∀ x, In x l → _id x = _id r → x = r) →
  (∀ w1, unique_ids (store w1) → In r (store w1) →
         In r' (store (fst (ensure_record cfg p r w1)))) →
  _id r' = _id r →
  NoDup (map _id l) →
  ∀ w1, unique_ids (store w1) →
        (In r l → In r (store w1)) →
        (¬ In r l → In r' (store w1)) →
        In r' (store (fst (for_each l (ensure_record cfg p) w1))).
Proof.
  intros Hinj Hstep Hid. induction l as [|x l IH]; intros Hnd w1 Hu Hbefore Hafter.
  - simpl. apply Hafter. by intros [].
  - simpl. rewrite bind_run.
    destruct (ensure_record_ends cfg p x w1)
      as (w2 & cs & Hrun & _ & _ & _ & Hs2).
    pose proof (Hstep w1 Hu) as Hstep1. 
    simpl in Hnd. apply NoDup_cons in Hnd as [Hx Hnd].
    assert (Hu2 : unique_ids (store w2)).
    { destruct Hs2 as [-> | (_ & wid & wtoken & ->)]; [done |].
      unfold unique_ids. by rewrite update_first_ids. }
    assert (Hinj' : ∀ y, In y l → _id y = _id r → y = r).
    { intros y Hy. apply Hinj. by right. }
    destruct (decide (_id x = _id r)) as [Hxr | Hxr].
    + (* the record itself *)
      assert (x = r) as -> by (apply Hinj; [by left | done]).
      assert (Hr : ¬ In r l).
      { intros Hr. apply Hx. apply list_elem_of_In. by apply in_map. }
      rewrite Hrun in *. simpl in Hstep1.
      apply (IH Hinj' Hnd w2 Hu2); [done |].
      intros _. apply Hstep1. apply Hbefore. by left.
    + (* another record *)
      rewrite Hrun.
      assert (Hkeep : ∀ y, _id y = _id r → In y (store w1) → In y (store w2)).
      { intros y Hy Hin. destruct Hs2 as [-> | (_ & wid & wtoken & ->)]; [done |].
        apply update_first_keeps; [done | congruence]. }
      apply (IH Hinj' Hnd w2 Hu2).
      * intros Hr. apply Hkeep; [done |]. apply Hbefore. by right.
      * intros Hr. apply Hkeep; [done |]. apply Hafter.
        intros [-> | Hr']; [done | by apply Hr].
Qed.

(** X7. Document ids being unique, a record that asks for a webhook, whose
    channel is cached and whose identity is missing or no longer live on
    the platform (the lookup failing counts as not live) gets one
    creation call under a name that is never empty; when the creation
    succeeds the sweep stores the returned id and token with that name
    and avatar, and when it fails the record is left as it was. *)
Theorem sweep_provisions_missing_identity cfg p w r name :
  unique_ids (store w) →
  In r (store w) →
  useWebhook r = true →
  channel_cache p !! channelId r = Some name →
  ¬ healthy p r →
  let webhook := sweep_name cfg r in
  let avatar := sweep_avatar cfg r in
  Js.str_truthy webhook = true
  ∧ (avatar = None ∨ Js.truthy avatar = true)
  ∧ (∀ w1, calls (fst (ensure_record cfg p r w1))
           = (calls w1
              ++ (if lacks_identity r then [] else [CFetchWebhooks (channelId r)])
              ++ [CCreateWebhook (channelId r) webhook avatar])%list)
  ∧ In (match create_webhook p (channelId r) webhook avatar with
        | Some (wid, wtoken) => set_webhook wid wtoken webhook avatar r
        | None => r
        end) (store (fst (ensureWebhooks cfg p w))).
Proof.
  intros Hu Hin Hweb Hc Hbad. cbv zeta.
  split; [apply sweep_name_not_empty |]. split; [apply sweep_avatar_usable |].
  assert (Hstep : ∀ w1, ensure_record cfg p r w1
    = (match create_webhook p (channelId r) (sweep_name cfg r) (sweep_avatar cfg r) with
       | Some (wid, wtoken) =>
           {| store := StickyModel.update_first (_id r)
                         (set_webhook wid wtoken (sweep_name cfg r) (sweep_avatar cfg r))
                         (store w1);
              cooldowns := cooldowns w1;
              calls := (calls w1
                        ++ (if lacks_identity r then [] else [CFetchWebhooks (channelId r)])
                        ++ [CCreateWebhook (channelId r) (sweep_name cfg r)
                              (sweep_avatar cfg r)])%list |}
       | None => logged ((if lacks_identity r then [] else [CFetchWebhooks (channelId r)])
                         ++ [CCreateWebhook (channelId r) (sweep_name cfg r)
                               (sweep_avatar cfg r)]) w1
       end, Returned tt)).
  { intros w1. by destruct (ensure_record_cached cfg p r w1 name Hc) as [[Hh _] | [_ ->]]. }
  split.
  { intros w1. rewrite Hstep. by destruct (create_webhook p _ _ _) as [[wid wtoken]|]. }
  unfold ensureWebhooks, try_catch. rewrite bind_run.
  unfold StickyModel.find_useWebhook, get_store.
  change ((mbind (λ s, mret (List.filter useWebhook s)) (λ w0 : world, (w0, Returned (store w0)))) w)
    with (w, @Returned js_error _ (List.filter useWebhook (store w))).
  cbv beta iota.
  set (r' := match create_webhook p (channelId r) (sweep_name cfg r) (sweep_avatar cfg r) with
             | Some (wid, wtoken) =>
                 set_webhook wid wtoken (sweep_name cfg r) (sweep_avatar cfg r) r
             | None => r
             end).
  assert (Hloop : In r' (store (fst (for_each (List.filter useWebhook (store w))
                                       (ensure_record cfg p) w)))).
  { apply (sweep_loop_follows cfg p r r').
    - intros x Hx Heq. apply filter_In in Hx as [Hx _].
      by apply (unique_ids_inj _ _ _ Hu Hx Hin).
    - intros w1 Hu1 Hin1. rewrite Hstep. unfold r'.
      destruct (create_webhook p _ _ _) as [[wid wtoken]|]; simpl; [| done].
      by apply update_first_hits.
    - unfold r'. by destruct (create_webhook p _ _ _) as [[wid wtoken]|].
    - unfold unique_ids in Hu. clear -Hu.
      induction (store w) as [|a s IH]; [apply NoDup_nil_2 |].
      simpl in *. apply NoDup_cons in Hu as [Ha Hu].
      destruct (useWebhook a); [| by apply IH].
      simpl. apply NoDup_cons. split; [| by apply IH].
      intros Hin. apply Ha. apply list_elem_of_In in Hin. apply list_elem_of_In.
      apply in_map_iff in Hin as (y & Hy & Hin). apply filter_In in Hin as [Hin _].
      rewrite <- Hy. by apply in_map.
    - done.
    - done.
    - intros Hnot. exfalso. apply Hnot. by apply filter_In. }
  destruct (for_each (List.filter useWebhook (store w)) (ensure_record cfg p) w)
    as [w' [[]|e]]; exact Hloop.
Qed.

Lemma sweep_provisions_witness :
  In (set_webhook "hook-2" "token-2" "Sticky" None Sample.unprovisioned_record)
     (store (fst (ensureWebhooks Sample.cfg Sample.platform_no_hooks
                    (Sample.world_of [Sample.unprovisioned_record])))).
Proof.
  assert (Hu : unique_ids (store (Sample.world_of [Sample.unprovisioned_record]))).
  { unfold unique_ids. simpl. apply NoDup_singleton. }
  assert (Hbad : ¬ healthy Sample.platform_no_hooks Sample.unprovisioned_record).
  { by intros (? & ? & ? & [=] & _). }
  destruct (sweep_provisions_missing_identity Sample.cfg Sample.platform_no_hooks
              (Sample.world_of [Sample.unprovisioned_record]) Sample.unprovisioned_record
              "general-chat" Hu (or_introl eq_refl) eq_refl eq_refl Hbad)
    as (_ & _ & _ & H).
  exact H.
Defined.

(** ** The slash command *)

Lemma fresh_id_is_fresh s : ¬ In (StickyModel.fresh_id s) (map _id s).
Proof.
  unfold StickyModel.fresh_id.
  assert (Hmax : ∀ x, In x (map _id s) → (x ≤ fold_right N.max 0 (map _id s))%N).
  { induction (map _id s) as [|a l IH]; [done |].
    intros x [-> | Hx]; simpl; [lia |]. specialize (IH x Hx). lia. }
  intros Hin. apply Hmax in Hin. lia.
Qed.

Lemma stored_none_no_channel s c :
  stored s c = None → ¬ In c (map channelId s).
Proof.
  unfold stored. intros Hs Hin. apply in_map_iff in Hin as (r & Hr & Hin).
  apply (find_none _ _ Hs) in Hin. apply has_channel_spec in Hr. congruence.
Qed.

Lemma remove_first_absent s c : stored s c = None → StickyModel.remove_first c s = s.
Proof.
  unfold stored. induction s as [|a s IH]; [done |]. simpl.
  destruct (StickyModel.has_channel c a); [done |]. intros H. by rewrite IH.
Qed.

Lemma reply_run text w : reply text w = (logged [CReplyText text] w, Returned tt).
Proof. reflexivity. Qed.

Lemma log_call_run c w : log_call c w = (logged [c] w, Returned tt).
Proof. reflexivity. Qed.

Lemma mret_run {W E A} (a : A) (w : W) : (mret a : Eff W E A) w = (w, Returned a).
Proof. reflexivity. Qed.

Lemma findOne_run c w : StickyModel.findOne c w = (w, Returned (stored (store w) c)).
Proof. reflexivity. Qed.


Lemma create_direct_run cfg p ch msg e w :
  create_direct cfg p ch msg e w =
  match EnableEmbeds cfg with
  | Some false =>
      (logged [CChannelSend ch (PContent (text_body cfg msg))] w,
       match channel_send p ch (PContent (text_body cfg msg)) with
       | Some m => Returned (Some (HookOne m))
       | None => Thrown (Rejected (CChannelSend ch (PContent (text_body cfg msg))))
       end)
  | Some true =>
      (logged [CChannelSend ch (PEmbeds e)] w,
       match channel_send p ch (PEmbeds e) with
       | Some m => Returned (Some (HookOne m))
       | None => Thrown (Rejected (CChannelSend ch (PEmbeds e)))
       end)
  | None => (w, Returned None)
  end.
Proof.
  unfold create_direct. destruct (EnableEmbeds cfg) as [[|]|]; [| | done];
    rewrite bind_run, await_run; by destruct (channel_send p ch _).
Qed.

(** The end of [create], once the message is sent: the record is written,
    the reply is sent, and the slow mode is set if configured. *)
Lemma create_finish_run cfg i raw sent data via w1 :
  (StickyModel.create (λ fresh,
     {| _id := fresh; channelId := interaction_channel i;
        message := Js.unescape_newlines raw; msgCount := 0;
        messageId := sent_id sent; useWebhook := via;
        webhookId := wd_id data; webhookToken := wd_token data;
        webhookName := wd_name data; webhookAvatarURL := wd_avatar data |}) ;;
   reply "You have successfully set a sticky message in this channel!" ;;
   if EnableSlowmode cfg
   then log_call (CSetRateLimit (interaction_channel i) (SlowmodeDelay cfg))
   else mret tt) w1
  = (created (created_record i raw (StickyModel.fresh_id (store w1)) sent data via)
       (CReplyText "You have successfully set a sticky message in this channel!"
        :: if EnableSlowmode cfg
           then [CSetRateLimit (interaction_channel i) (SlowmodeDelay cfg)] else [])
       w1,
     Returned tt).
Proof.
  rewrite bind_run. unfold StickyModel.create, modify_store. cbv beta iota.
  rewrite bind_run, reply_run. unfold created, logged. cbn [store cooldowns calls].
  destruct (EnableSlowmode cfg).
  - rewrite log_call_run. unfold logged. cbn [store cooldowns calls].
    by rewrite <- app_assoc.
  - by rewrite mret_run.
Qed.

(** How [create] ends on a channel without a record, for a member allowed
    to use the delivery asked for: with the error of the embed builder
    before any call; with the rejection of the webhook creation or of the
    direct post; or with the record written and the reply sent. *)
Lemma sub_create_ends cfg p i raw opt w :
  stored (store w) (interaction_channel i) = None →
  wants_webhook cfg opt && negb (can_ManageWebhooks i) = false →
  let ch := interaction_channel i in
  (∃ s, rejected_call p (embed_calls_command cfg (Js.unescape_newlines raw)) empty_embed
        = Some s
        ∧ sub_create cfg p i raw opt w = (w, Thrown (Invalid s)))
  ∨ (∃ cs c,
       sub_create cfg p i raw opt w = (logged cs w, Thrown (Rejected c))
       ∧ existsb is_reply cs = false
       ∧ (is_create_webhook c = true ∨ ∃ pl, c = CChannelSend ch pl))
  ∨ (∃ cs sent data via,
       sub_create cfg p i raw opt w
       = (created (created_record i raw (StickyModel.fresh_id (store w)) sent data via) cs w,
          Returned tt)
       ∧ existsb is_reply cs = true
       ∧ (via = true →
          wants_webhook cfg opt = true
          ∧ ∃ wid wtoken res,
              create_webhook p ch (command_webhook_name cfg) (command_webhook_avatar cfg)
              = Some (wid, wtoken)
              ∧ webhook_send p wid wtoken (command_payload cfg raw) = Some res
              ∧ sent = Some res
              ∧ data = stored_webhook cfg wid wtoken)
       ∧ (via = false →
          data = no_webhook
          ∧ (sent = None
             ∨ ∃ pl m, channel_send p ch pl = Some m ∧ sent = Some (HookOne m)))).
Proof.
  intros Hs Hperm ch. unfold sub_create. rewrite bind_run, findOne_run, Hs.
  fold (wants_webhook cfg opt). rewrite Hperm. fold ch.
  rewrite bind_run. unfold build_embed_command. rewrite call_all_run.
  destruct (rejected_call p _ empty_embed) as [s|] eqn:Hrej.
  { left. by exists s. }
  right. fold (command_embed cfg raw).
  (* the direct post and the end, after the calls [cs1] *)
  assert (Hplain : ∀ cs1,
    existsb is_reply cs1 = false →
    let prog :=
      (sentMessage ← create_direct cfg p ch (Js.unescape_newlines raw)
                       (command_embed cfg raw);
       StickyModel.create (λ fresh,
         {| _id := fresh; channelId := ch;
            message := Js.unescape_newlines raw; msgCount := 0;
            messageId := sent_id sentMessage; useWebhook := false;
            webhookId := wd_id no_webhook; webhookToken := wd_token no_webhook;
            webhookName := wd_name no_webhook;
            webhookAvatarURL := wd_avatar no_webhook |}) ;;
       reply "You have successfully set a sticky message in this channel!" ;;
       if EnableSlowmode cfg
       then log_call (CSetRateLimit ch (SlowmodeDelay cfg))
       else mret tt) in
    (∃ cs c,
       prog (logged cs1 w) = (logged cs w, Thrown (Rejected c))
       ∧ existsb is_reply cs = false
       ∧ (is_create_webhook c = true ∨ ∃ pl, c = CChannelSend ch pl))
    ∨ (∃ cs sent,
         prog (logged cs1 w)
         = (created (created_record i raw (StickyModel.fresh_id (store w)) sent
                       no_webhook false) cs w,
            Returned tt)
         ∧ existsb is_reply cs = true
         ∧ (sent = None
            ∨ ∃ pl m, channel_send p ch pl = Some m ∧ sent = Some (HookOne m)))).
  { intros cs1 Hnr prog. subst prog. cbv beta. rewrite bind_run, create_direct_run.
    assert (Hend : ∀ cs2 sent,
      existsb is_reply cs2 = false →
      (sent = None ∨ ∃ pl m, channel_send p ch pl = Some m ∧ sent = Some (HookOne m)) →
      ∃ cs sent',
        (StickyModel.create (λ fresh,
           {| _id := fresh; channelId := ch;
              message := Js.unescape_newlines raw; msgCount := 0;
              messageId := sent_id sent; useWebhook := false;
              webhookId := wd_id no_webhook; webhookToken := wd_token no_webhook;
              webhookName := wd_name no_webhook;
              webhookAvatarURL := wd_avatar no_webhook |}) ;;
         reply "You have successfully set a sticky message in this channel!" ;;
         if EnableSlowmode cfg
         then log_call (CSetRateLimit ch (SlowmodeDelay cfg))
         else mret tt) (logged cs2 w)
        = (created (created_record i raw (StickyModel.fresh_id (store w)) sent'
                      no_webhook false) cs w,
           Returned tt)
        ∧ existsb is_reply cs = true
        ∧ (sent' = None
           ∨ ∃ pl m, channel_send p ch pl = Some m ∧ sent' = Some (HookOne m))).
    { intros cs2 sent Hnr2 Hsent.
      rewrite (create_finish_run cfg i raw sent no_webhook false).
      eexists (cs2 ++ _)%list, sent. split; [| split; [| done]].
      - unfold created, logged. cbn [store cooldowns calls]. by rewrite <- app_assoc.
      - rewrite existsb_app. simpl. by rewrite orb_true_r. }
    destruct (EnableEmbeds cfg) as [[|]|].
    - destruct (channel_send p ch (PEmbeds (command_embed cfg raw))) as [m|] eqn:Hsend.
      + right. rewrite logged_logged. apply Hend.
        * rewrite existsb_app, Hnr. done.
        * right. by eexists _, _.
      + left. rewrite logged_logged. eexists _, _. split; [reflexivity |].
        split; [by rewrite existsb_app, Hnr |]. right. by eexists.
    - destruct (channel_send p ch (PContent _)) as [m|] eqn:Hsend.
      + right. rewrite logged_logged. apply Hend.
        * rewrite existsb_app, Hnr. done.
        * right. by eexists _, _.
      + left. rewrite logged_logged. eexists _, _. split; [reflexivity |].
        split; [by rewrite existsb_app, Hnr |]. right. by eexists.
    - right. apply Hend; [done | by left]. }
  destruct (wants_webhook cfg opt) eqn:Hw.
  - (* through a webhook *)
    rewrite bind_run. unfold create_via_webhook. rewrite bind_run, await_run.
    fold (command_webhook_name cfg). fold (command_webhook_avatar cfg).
    destruct (create_webhook p ch (command_webhook_name cfg) (command_webhook_avatar cfg))
      as [[wid wtoken]|] eqn:Hhook.
    2: { left. eexists _, _. split; [reflexivity |]. split; [done | by left]. }
    unfold try_catch. rewrite bind_run, await_run. cbn [fst snd].
    fold (command_payload cfg raw).
    destruct (webhook_send p wid wtoken (command_payload cfg raw)) as [res|] eqn:Hsend.
    + right. cbv beta iota. rewrite mret_run. cbv beta iota. rewrite logged_logged.
      rewrite bind_run, mret_run. cbv beta iota.
      rewrite (create_finish_run cfg i raw (Some res) (stored_webhook cfg wid wtoken) true).
      eexists (_ ++ _)%list, (Some res), (stored_webhook cfg wid wtoken), true.
      split; [| split; [| split; [| done]]].
      * unfold created, logged. cbn [store cooldowns calls]. by rewrite <- app_assoc.
      * rewrite existsb_app. simpl. by rewrite ?orb_true_r.
      * intros _. split; [done |]. by exists wid, wtoken, res.
    + cbv beta iota. rewrite mret_run. cbv beta iota. rewrite logged_logged.
      match goal with
      | |- context [logged ?l w] =>
          destruct (Hplain l eq_refl)
            as [(cs & c & Hrun & Hrest) | (cs & sent & Hrun & Hr & Hsent)]
      end.
      * left. exists cs, c. split; [exact Hrun | exact Hrest].
      * right. exists cs, sent, no_webhook, false.
        split; [exact Hrun |]. split; [done |]. split; [done |]. intros _. by split.
  - rewrite bind_run, mret_run. cbv beta iota.
    destruct (Hplain [] eq_refl) as [(cs & c & Hrun & Hrest) | (cs & sent & Hrun & Hr & Hsent)];
      rewrite logged_nil in Hrun.
    + left. exists cs, c. split; [exact Hrun | exact Hrest].
    + right. exists cs, sent, no_webhook, false.
      split; [exact Hrun |]. split; [done |]. split; [done |]. intros _. by split.
Qed.

(** *** Computations that leave the state alone *)

Lemma keeps_ret {A} (a : A) : keeps_state (mret a : M A).
Proof. by intros w. Qed.

Lemma keeps_throw {A} e : keeps_state (throw e : M A).
Proof. by intros w. Qed.

Lemma keeps_log c : keeps_state (log_call c).
Proof. by intros w. Qed.

Lemma keeps_bind {A B} (m : M A) (f : A → M B) :
  keeps_state m → (∀ a, keeps_state (f a)) → keeps_state (m ≫= f).
Proof.
  intros Hm Hf w. rewrite bind_run. specialize (Hm w).
  destruct (m w) as [w1 [a|e]]; simpl in *; [| done].
  destruct (Hf a w1) as [H1 H2]. destruct Hm as [Hm1 Hm2]. split; congruence.
Qed.

Lemma keeps_try {A} (m : M A) (h : js_error → M A) :
  keeps_state m → (∀ e, keeps_state (h e)) → keeps_state (try_catch m h).
Proof.
  intros Hm Hh w. unfold try_catch. specialize (Hm w).
  destruct (m w) as [w1 [a|e]]; simpl in *; [done |].
  destruct (Hh e w1) as [H1 H2]. destruct Hm as [Hm1 Hm2]. split; congruence.
Qed.

Lemma keeps_await {A} c (answer : option A) : keeps_state (await c answer).
Proof. intros w. rewrite await_run. by destruct answer. Qed.

Lemma keeps_for_each {A} (l : list A) (body : A → M unit) :
  (∀ x, keeps_state (body x)) → keeps_state (for_each l body).
Proof.
  intros Hb. induction l as [|x l IH]; [apply keeps_ret |].
  simpl. apply keeps_bind; [apply Hb | by intros _].
Qed.

Lemma keeps_delete_quietly p ch m : keeps_state (delete_quietly p ch m).
Proof. intros w. by rewrite delete_quietly_run. Qed.

Create HintDb keeps.
#[local] Hint Resolve keeps_ret keeps_throw keeps_log keeps_await keeps_delete_quietly : keeps.

(** *** Refusals *)

Lemma execute_allowed cfg p i w :
  can_ManageMessages i = true → Enabled cfg ≠ Some false →
  execute cfg p i w =
  match interaction_sub i with
  | SubCreate msg webhookOpt => sub_create cfg p i msg webhookOpt w
  | SubDelete => sub_delete cfg p i w
  | SubList => sub_list p w
  end.
Proof.
  intros Hperm Hen. unfold execute. rewrite Hperm. simpl.
  destruct (Enabled cfg) as [[|]|]; try done; by destruct (interaction_sub i).
Qed.



(** *** Create *)






(** *** Delete *)

Lemma keeps_after_delete cfg p ch sm :
  keeps_state
    ((if Js.truthy (messageId sm) then
        try_catch
          (oldMsg ← catch_with
                      (m ← await (CFetchMessage ch (default EmptyString (messageId sm)))
                                 (fetch_message p ch (default EmptyString (messageId sm)));
                       mret (Some m))
                      None;
           match oldMsg with
           | Some m => delete_quietly p ch m
           | None => mret tt
           end)
          (λ _, mret tt)
      else
        msgs ← await (CFetchRecent ch) (fetch_recent p ch);
        for_each msgs (λ m,
          if Js.str_truthy (pm_content m) && Js.includes (pm_content m) (message sm)
          then delete_quietly p ch m else mret tt)) ;;
     (if EnableSlowmode cfg then log_call (CSetRateLimit ch 0) else mret tt) ;;
     reply "You have successfully deleted the sticky message from this channel!").
Proof.
  apply keeps_bind.
  - destruct (Js.truthy (messageId sm)).
    + apply keeps_try; [| intros _; apply keeps_ret].
      apply keeps_bind.
      * unfold catch_with. apply keeps_try; [| intros _; apply keeps_ret].
        apply keeps_bind; [apply keeps_await | intros m; apply keeps_ret].
      * intros [m|]; [apply keeps_delete_quietly | apply keeps_ret].
    + apply keeps_bind; [apply keeps_await |].
      intros msgs. apply keeps_for_each. intros m.
      destruct (_ && _); [apply keeps_delete_quietly | apply keeps_ret].
  - intros _. apply keeps_bind.
    + destruct (EnableSlowmode cfg); [apply keeps_log | apply keeps_ret].
    + intros _. apply keeps_log.
Qed.

Lemma sub_delete_store cfg p i w :
  store (fst (sub_delete cfg p i w))
  = StickyModel.remove_first (interaction_channel i) (store w)
  ∧ cooldowns (fst (sub_delete cfg p i w)) = cooldowns w.
Proof.
  unfold sub_delete. rewrite bind_run, findOne_run.
  destruct (stored (store w) (interaction_channel i)) as [sm|] eqn:Hs.
  - rewrite bind_run. unfold StickyModel.findOneAndDelete, modify_store. cbv beta iota.
    match goal with
    | |- context [fst (?rest ?w1)] =>
        destruct (keeps_after_delete cfg p (interaction_channel i) sm w1) as [H1 H2]
    end.
    split; [exact H1 | exact H2].
  - rewrite reply_run. simpl. by rewrite remove_first_absent.
Qed.

Lemma remove_first_keeps_others c s r :
  In r s → channelId r ≠ c → In r (StickyModel.remove_first c s).
Proof.
  intros Hin Hne. induction s as [|a s IH]; [done |]. simpl.
  destruct (StickyModel.has_channel c a) eqn:Ha.
  - destruct Hin as [-> | Hin]; [| done]. by apply has_channel_spec in Ha.
  - destruct Hin as [-> | Hin]; [by left | right; by apply IH].
Qed.

Lemma remove_first_sub c s r : In r (StickyModel.remove_first c s) → In r s.
Proof.
  induction s as [|a s IH]; [done |]. simpl.
  destruct (StickyModel.has_channel c a); [by right |].
  intros [-> | Hin]; [by left | right; by apply IH].
Qed.

Lemma remove_first_nodup {B} (g : sticky_record → B) c s :
  NoDup (map g s) → NoDup (map g (StickyModel.remove_first c s)).
Proof.
  induction s as [|a s IH]; [done |]. simpl. intros Hnd.
  apply NoDup_cons in Hnd as [Ha Hnd].
  destruct (StickyModel.has_channel c a); [done |].
  simpl. apply NoDup_cons. split; [| by apply IH].
  intros Hin. apply Ha. apply list_elem_of_In in Hin. apply list_elem_of_In.
  apply in_map_iff in Hin as (y & Hy & Hin). rewrite <- Hy.
  apply in_map. by apply remove_first_sub in Hin.
Qed.

Lemma remove_first_clears c s :
  unique_channels s → stored (StickyModel.remove_first c s) c = None.
Proof.
  unfold unique_channels, stored. induction s as [|a s IH]; [done |]. simpl.
  intros Hnd. apply NoDup_cons in Hnd as [Ha Hnd].
  destruct (StickyModel.has_channel c a) eqn:Hc.
  - apply has_channel_spec in Hc. subst c.
    destruct (find (StickyModel.has_channel (channelId a)) s) as [r|] eqn:Hf; [| done].
    exfalso. apply Ha. apply find_some in Hf as [Hin Hr].
    apply has_channel_spec in Hr. rewrite <- Hr. by apply list_elem_of_In, in_map.
  - simpl. rewrite Hc. by apply IH.
Qed.

(** X11. [delete], run by a member who may manage messages while the
    addon is not disabled, removes the record of the channel of the
    command and no other record, whether or not the removal of the posted
    artifact goes well (even when the command throws); with at most one
    record per channel, the channel has no record afterwards. *)
Theorem delete_removes_the_record_of_the_channel cfg p i w :
  can_ManageMessages i = true →
  Enabled cfg ≠ Some false →
  interaction_sub i = SubDelete →
  let w' := fst (execute cfg p i w) in
  store w' = StickyModel.remove_first (interaction_channel i) (store w)
  ∧ cooldowns w' = cooldowns w
  ∧ (∀ r, In r (store w) → channelId r ≠ interaction_channel i → In r (store w'))
  ∧ (∀ r, In r (store w') → In r (store w))
  ∧ (unique_channels (store w) → stored (store w') (interaction_channel i) = None).
Proof.
  intros Hperm Hen Hsub. cbv zeta.
  rewrite (execute_allowed _ _ _ _ Hperm Hen), Hsub.
  destruct (sub_delete_store cfg p i w) as [-> ->].
  split; [done |]. split; [done |]. split; [| split].
  - intros r. apply remove_first_keeps_others.
  - intros r. apply remove_first_sub.
  - apply remove_first_clears.
Qed.

Lemma delete_removes_witness :
  store (fst (execute Sample.cfg Sample.platform_down Sample.delete_interaction
                (Sample.world_of [Sample.record 3; Sample.orphan_record])))
  = [Sample.orphan_record].
Proof.
  destruct (delete_removes_the_record_of_the_channel Sample.cfg Sample.platform_down
              Sample.delete_interaction
              (Sample.world_of [Sample.record 3; Sample.orphan_record])
              eq_refl ltac:(discriminate) eq_refl) as (Hst & _).
  exact Hst.
Defined.

Lemma remove_first_snoc c s r :
  stored s c = None → channelId r = c → StickyModel.remove_first c (s ++ [r]) = s.
Proof.
  unfold stored. intros Hs Hr. induction s as [|a s IH]; simpl in *.
  - unfold StickyModel.has_channel. by rewrite Hr, String.eqb_refl.
  - destruct (StickyModel.has_channel c a); [done |]. by rewrite IH.
Qed.

(** X12. [create] then [delete] is a round trip on the collection: after
    a [create] that went through on a channel without a record, a
    [delete] on the same channel leaves the collection exactly as it was
    before the [create], whatever the platform answers to the second
    command. *)
Theorem create_then_delete_restores_collection cfg p1 p2 i1 i2 w raw opt w1 :
  can_ManageMessages i1 = true →
  can_ManageMessages i2 = true →
  Enabled cfg ≠ Some false →
  interaction_sub i1 = SubCreate raw opt →
  interaction_sub i2 = SubDelete →
  interaction_channel i2 = interaction_channel i1 →
  stored (store w) (interaction_channel i1) = None →
  wants_webhook cfg opt && negb (can_ManageWebhooks i1) = false →
  execute cfg p1 i1 w = (w1, Returned tt) →
  store (fst (execute cfg p2 i2 w1)) = store w.
Proof.
  intros Hperm1 Hperm2 Hen Hsub1 Hsub2 Hch Hs Hmay Hrun.
  rewrite (execute_allowed _ _ _ _ Hperm1 Hen), Hsub1 in Hrun.
  destruct (sub_create_ends cfg p1 i1 raw opt w Hs Hmay)
    as [(s & _ & Hthrown)
       | [(cs & c & Hthrown & _) | (cs & sent & data & via & Hret & _)]].
  { rewrite Hthrown in Hrun. discriminate. }
  { rewrite Hthrown in Hrun. discriminate. }
  rewrite Hret in Hrun. injection Hrun as <-.
  rewrite (execute_allowed _ _ _ _ Hperm2 Hen), Hsub2.
  match goal with
  | |- context [sub_delete cfg p2 i2 ?w1'] =>
      destruct (sub_delete_store cfg p2 i2 w1') as [-> _]
  end.
  cbn [created store]. rewrite Hch. by apply remove_first_snoc.
Qed.

Lemma create_then_delete_witness :
  store (fst (execute Sample.cfg Sample.platform_down Sample.delete_interaction
                (fst (execute Sample.cfg (Sample.platform_ok "artifact-1")
                        (Sample.create_interaction None false)
                        (Sample.world_of [Sample.orphan_record])))))
  = [Sample.orphan_record].
Proof.
  pose (run := execute Sample.cfg (Sample.platform_ok "artifact-1")
                 (Sample.create_interaction None false)
                 (Sample.world_of [Sample.orphan_record])).
  assert (Hrun : run = (fst run, Returned tt)) by (vm_compute; reflexivity).
  apply (create_then_delete_restores_collection Sample.cfg
           (Sample.platform_ok "artifact-1") Sample.platform_down
           (Sample.create_interaction None false) Sample.delete_interaction
           (Sample.world_of [Sample.orphan_record]) "Read the rules" None (fst run)
           eq_refl eq_refl ltac:(discriminate) eq_refl eq_refl eq_refl eq_refl eq_refl Hrun).
Defined.

(** ** Invariants of the collection *)

Lemma handler_keeps_fixed_fields cfg p ev w :
  map fixed_by_handler (store (fst (messageCreate cfg p ev w)))
  = map fixed_by_handler (store w).
Proof.
  destruct (messageCreate_ends cfg p ev w)
    as [-> | (sm & _ & _ & [-> | (cs & _ & _ & _ & Hstore)])]; [done | |].
  - by apply update_first_map.
  - destruct Hstore as [-> | (id & ->)]; simpl.
    + by apply update_first_map.
    + rewrite update_first_map; [| done]. by apply update_first_map.
Qed.

Lemma sweep_keeps_fixed_fields cfg p w :
  map fixed_by_sweep (store (fst (ensureWebhooks cfg p w)))
  = map fixed_by_sweep (store w).
Proof.
  destruct (ensureWebhooks_run
              (λ w1, map fixed_by_sweep (store w1) = map fixed_by_sweep (store w)) cfg p w)
    as (w' & -> & Hw'); [| done | done].
  intros rec w1 _ _ Hw1.
  destruct (ensure_record_ends cfg p rec w1) as (w2 & cs & -> & _ & _ & _ & Hs2).
  exists w2. split; [done |].
  destruct Hs2 as [-> | (_ & wid & wtoken & ->)]; [done |].
  by rewrite update_first_map.
Qed.

Lemma snoc_nodup {B} (g : sticky_record → B) s r :
  NoDup (map g s) → ¬ In (g r) (map g s) → NoDup (map g (s ++ [r])).
Proof.
  intros Hnd Hr. rewrite map_app. apply NoDup_app. split; [done |]. split.
  - intros x Hx Hx'. apply list_elem_of_In in Hx. simpl in Hx'.
    apply list_elem_of_In in Hx'. destruct Hx' as [<- | []]. by apply Hr.
  - simpl. apply NoDup_singleton.
Qed.

(** Pruning the front of the collection keeps its documents apart. *)
Lemma pruned_nodup {B} (g : sticky_record → B) f n s :
  NoDup (map g s) → NoDup (map g (List.filter f (take n s) ++ drop n s)).
Proof.
  revert n. induction s as [|a s IH]; intros n Hnd.
  - by destruct n.
  - destruct n as [|n]; [done |].
    apply NoDup_cons in Hnd as [Ha Hnd]. cbn [take drop List.filter].
    destruct (f a); [| by apply IH].
    cbn [app map]. apply NoDup_cons. split; [| by apply IH].
    intros Hin. apply Ha. apply list_elem_of_In in Hin. apply list_elem_of_In.
    apply in_map_iff in Hin as (y & Hy & Hin). rewrite <- Hy. apply in_map.
    rewrite <- (take_drop n s). apply in_app_or in Hin as [Hin | Hin]; apply in_or_app.
    + left. by apply filter_In in Hin as [Hin _].
    + by right.
Qed.

(** What a command can do to the collection. *)
Lemma execute_store cfg p i w :
  let s' := store (fst (execute cfg p i w)) in
  s' = store w
  ∨ (∃ r, s' = (store w ++ [r])%list
          ∧ ¬ In (_id r) (map _id (store w))
          ∧ ¬ In (channelId r) (map channelId (store w)))
  ∨ s' = StickyModel.remove_first (interaction_channel i) (store w)
  ∨ (∃ n, s' = (List.filter (channel_cached p) (take n (store w))
                ++ drop n (store w))%list).
Proof.
  cbv zeta. unfold execute.
  destruct (negb (can_ManageMessages i)); [by left |].
  destruct (match Enabled cfg with Some false => true | _ => false end); [by left |].
  destruct (interaction_sub i) as [raw opt | |].
  - destruct (stored (store w) (interaction_channel i)) as [sm|] eqn:Hs.
    { left. unfold sub_create. by rewrite bind_run, findOne_run, Hs. }
    destruct (wants_webhook cfg opt && negb (can_ManageWebhooks i)) eqn:Hmay.
    { left. unfold sub_create. rewrite bind_run, findOne_run, Hs.
      fold (wants_webhook cfg opt). by rewrite Hmay. }
    destruct (sub_create_ends cfg p i raw opt w Hs Hmay)
      as [(s & _ & ->)
         | [(cs & c & -> & _) | (cs & sent & data & via & -> & _)]].
    + by left.
    + by left.
    + right. left. eexists. split; [reflexivity |].
      split; [apply fresh_id_is_fresh | by apply stored_none_no_channel].
  - right. right. left. by destruct (sub_delete_store cfg p i w) as [-> _].
  - right. right. right. apply sub_list_store.
Qed.

(** X13. Every operation of the addon keeps the collection well formed:
    if the document ids are distinct and no two records share a channel
    before a run of the message handler, of the webhook sweep or of the
    slash command, the same holds after it, whatever the platform
    answers and whether the run returns or throws. *)
Theorem operations_keep_collection_well_formed cfg p w :
  well_formed (store w) →
  (∀ ev, well_formed (store (fst (messageCreate cfg p ev w))))
  ∧ well_formed (store (fst (ensureWebhooks cfg p w)))
  ∧ (∀ i, well_formed (store (fst (execute cfg p i w)))).
Proof.
  unfold well_formed, unique_ids, unique_channels. intros [Hid Hch].
  split; [| split].
  - intros ev. pose proof (handler_keeps_fixed_fields cfg p ev w) as Hfix.
    assert (H1 : map _id (store (fst (messageCreate cfg p ev w))) = map _id (store w)).
    { apply (f_equal (map (λ t, fst (fst (fst (fst (fst t))))))) in Hfix.
      by rewrite !map_map in Hfix. }
    assert (H2 : map channelId (store (fst (messageCreate cfg p ev w)))
                 = map channelId (store w)).
    { apply (f_equal (map (λ t, snd (fst (fst (fst (fst t))))))) in Hfix.
      by rewrite !map_map in Hfix. }
    by rewrite H1, H2.
  - pose proof (sweep_keeps_fixed_fields cfg p w) as Hfix.
    assert (H1 : map _id (store (fst (ensureWebhooks cfg p w))) = map _id (store w)).
    { apply (f_equal (map (λ t, fst (fst (fst (fst (fst t))))))) in Hfix.
      by rewrite !map_map in Hfix. }
    assert (H2 : map channelId (store (fst (ensureWebhooks cfg p w)))
                 = map channelId (store w)).
    { apply (f_equal (map (λ t, snd (fst (fst (fst (fst t))))))) in Hfix.
      by rewrite !map_map in Hfix. }
    by rewrite H1, H2.
  - intros i.
    destruct (execute_store cfg p i w)
      as [-> | [(r & -> & Hr1 & Hr2) | [-> | (n & ->)]]].
    + done.
    + split; by apply snoc_nodup.
    + split; by apply remove_first_nodup.
    + split; by apply pruned_nodup.
Qed.

Lemma operations_keep_witness :
  well_formed
    (store (fst (execute Sample.cfg (Sample.platform_ok "artifact-1")
                   (Sample.create_interaction None false)
                   (Sample.world_of [Sample.orphan_record])))).
Proof.
  assert (Hwf : well_formed (store (Sample.world_of [Sample.orphan_record]))).
  { split; unfold unique_ids, unique_channels; simpl; apply NoDup_singleton. }
  destruct (operations_keep_collection_well_formed Sample.cfg
              (Sample.platform_ok "artifact-1")
              (Sample.world_of [Sample.orphan_record]) Hwf) as (_ & _ & H).
  apply H.
Defined.

(** * Further properties of the version checker *)

Module VersionCheckerMore.
Import VersionChecker VersionCheckerFacts.

(** ** Comparing versions *)

Lemma component_tail parts i : component parts (S i) = component (tl parts) i.
Proof. unfold component. destruct parts as [|x xs]; [by destruct i | done]. Qed.

(** The outcome of the loop, read on the components. *)
Lemma compare_from_reads c l n :
  (length c ≤ n)%nat → (length l ≤ n)%nat →
  (compare_from c l n 0 = -1
   ∧ ∃ i, (∀ j, (j < i)%nat → component c j = component l j)
          ∧ component c i < component l i)
  ∨ (compare_from c l n 0 = 1
     ∧ ∃ i, (∀ j, (j < i)%nat → component c j = component l j)
            ∧ component l i < component c i)
  ∨ (compare_from c l n 0 = 0 ∧ ∀ i, component c i = component l i).
Proof.
  revert c l. induction n as [|n IH]; intros c l Hc Hl.
  - right. right. split; [done |].
    destruct c; [| simpl in Hc; lia]. by destruct l; [| simpl in Hl; lia].
  - cbn [compare_from]. rewrite compare_from_tail.
    fold (component c 0) (component l 0).
    destruct (Z.ltb_spec (component c 0) (component l 0)) as [Hlt | Hge].
    { left. split; [done |]. exists 0%nat. split; [intros j Hj; lia | done]. }
    destruct (Z.gtb_spec (component c 0) (component l 0)) as [Hgt | Hle].
    { right. left. split; [done |]. exists 0%nat. split; [intros j Hj; lia | lia]. }
    assert (H0 : component c 0 = component l 0) by lia.
    assert (Hshift : ∀ i, (∀ j, (j < i)%nat → component (tl c) j = component (tl l) j) →
                          ∀ j, (j < S i)%nat → component c j = component l j).
    { intros i Hi [|j] Hj; [done |]. rewrite !component_tail. apply Hi. lia. }
    destruct (IH (tl c) (tl l)) as [(-> & i & Hi & Hd) | [(-> & i & Hi & Hd) | (-> & Hall)]].
    + destruct c; simpl in *; lia.
    + destruct l; simpl in *; lia.
    + left. split; [done |]. exists (S i). split; [by apply Hshift |].
      by rewrite !component_tail.
    + right. left. split; [done |]. exists (S i). split; [by apply Hshift |].
      by rewrite !component_tail.
    + right. right. split; [done |]. intros [|i]; [done |].
      rewrite !component_tail. apply Hall.
Qed.

(** The first difference between two versions is well defined. *)
Lemma first_difference_unique (f g : nat → Z) i k :
  (∀ j, (j < i)%nat → f j = g j) → f i ≠ g i →
  (∀ j, (j < k)%nat → f j = g j) → f k ≠ g k →
  i = k.
Proof.
  intros Hi Hdi Hk Hdk.
  destruct (Nat.lt_trichotomy i k) as [H | [H | H]]; [| done |].
  - exfalso. apply Hdi. by apply Hk.
  - exfalso. apply Hdk. by apply Hi.
Qed.

Lemma compareVersions_reads a b :
  let c := parseVersion a in
  let l := parseVersion b in
  (compareVersions a b = -1
   ∧ ∃ i, (∀ j, (j < i)%nat → component c j = component l j)
          ∧ component c i < component l i)
  ∨ (compareVersions a b = 1
     ∧ ∃ i, (∀ j, (j < i)%nat → component c j = component l j)
            ∧ component l i < component c i)
  ∨ (compareVersions a b = 0 ∧ ∀ i, component c i = component l i).
Proof. cbv zeta. unfold compareVersions. apply compare_from_reads; lia. Qed.

(** X14. [compareVersions] reads versions component by component, a
    missing component counting as 0: the result is 0 exactly when all
    components agree, -1 exactly when the current version is smaller at
    the first component where the two differ, and 1 exactly when it is
    larger there. *)
Theorem compareVersions_decides_on_first_difference a b :
  let c := parseVersion a in
  let l := parseVersion b in
  (compareVersions a b = 0 ↔ ∀ i, component c i = component l i)
  ∧ (compareVersions a b = -1 ↔
     ∃ i, (∀ j, (j < i)%nat → component c j = component l j)
          ∧ component c i < component l i)
  ∧ (compareVersions a b = 1 ↔
     ∃ i, (∀ j, (j < i)%nat → component c j = component l j)
          ∧ component l i < component c i).
Proof.
  cbv zeta.
  assert (Hno : ∀ i k,
    (∀ j, (j < i)%nat → component (parseVersion a) j = component (parseVersion b) j) →
    component (parseVersion a) i < component (parseVersion b) i →
    (∀ j, (j < k)%nat → component (parseVersion a) j = component (parseVersion b) j) →
    component (parseVersion b) k < component (parseVersion a) k → False).
  { intros i k Hi Hdi Hk Hdk.
    assert (i = k) as ->; [| lia].
    apply (first_difference_unique (component (parseVersion a))
             (component (parseVersion b))); try done; lia. }
  destruct (compareVersions_reads a b)
    as [(Hr & i & Hi & Hd) | [(Hr & i & Hi & Hd) | (Hr & Hall)]]; rewrite Hr.
  - split; [| split].
    + split; [done |]. intros H. specialize (H i). lia.
    + split; [by exists i | done].
    + split; [done |]. intros (k & Hk & Hdk). exfalso. by apply (Hno i k).
  - split; [| split].
    + split; [done |]. intros H. specialize (H i). lia.
    + split; [done |]. intros (k & Hk & Hdk). exfalso. by apply (Hno k i).
    + split; [by exists i | done].
  - split; [| split].
    + done.
    + split; [done |]. intros (k & _ & Hdk). specialize (Hall k). lia.
    + split; [done |]. intros (k & _ & Hdk). specialize (Hall k). lia.
Qed.

(** The three readings, as helper lemmas. *)
Lemma compareVersions_eq a b :
  compareVersions a b = 0 ↔
  ∀ i, component (parseVersion a) i = component (parseVersion b) i.
Proof.
  destruct (compareVersions_reads a b)
    as [(Hr & i & Hi & Hd) | [(Hr & i & Hi & Hd) | (Hr & Hall)]]; rewrite Hr.
  - split; [done |]. intros H. specialize (H i). lia.
  - split; [done |]. intros H. specialize (H i). lia.
  - done.
Qed.

Lemma compareVersions_lt a b :
  compareVersions a b = -1 ↔
  ∃ i, (∀ j, (j < i)%nat → component (parseVersion a) j = component (parseVersion b) j)
       ∧ component (parseVersion a) i < component (parseVersion b) i.
Proof.
  destruct (compareVersions_reads a b)
    as [(Hr & i & Hi & Hd) | [(Hr & i & Hi & Hd) | (Hr & Hall)]]; rewrite Hr.
  - split; [by exists i | done].
  - split; [done |]. intros (k & Hk & Hdk). exfalso.
    assert (k = i) as ->; [| lia].
    apply (first_difference_unique (component (parseVersion a))
             (component (parseVersion b))); try done; lia.
  - split; [done |]. intros (k & _ & Hdk). specialize (Hall k). lia.
Qed.

Lemma compareVersions_range a b :
  compareVersions a b = -1 ∨ compareVersions a b = 0 ∨ compareVersions a b = 1.
Proof.
  destruct (compareVersions_reads a b) as [(Hr & _) | [(Hr & _) | (Hr & _)]]; auto.
Qed.

Lemma compareVersions_swap a b : compareVersions b a = - compareVersions a b.
Proof.
  destruct (compareVersions_reads a b)
    as [(Hr & i & Hi & Hd) | [(Hr & i & Hi & Hd) | (Hr & Hall)]]; rewrite Hr.
  - destruct (compareVersions_range b a) as [H | [H | H]]; [| | done].
    + apply compareVersions_lt in H as (k & Hk & Hdk). exfalso.
      assert (k = i) as ->; [| lia].
      apply (first_difference_unique (component (parseVersion b))
               (component (parseVersion a))); try done; try lia.
      intros j Hj. symmetry. by apply Hi.
    + pose proof (proj1 (compareVersions_eq b a) H i). lia.
  - apply compareVersions_lt. exists i. split; [| done].
    intros j Hj. symmetry. by apply Hi.
  - apply compareVersions_eq. intros i. symmetry. apply Hall.
Qed.

(** X15. [compareVersions] is a consistent ordering of version strings:
    a version equals itself, swapping the arguments negates the result,
    "older than" is transitive, and two versions that compare equal
    compare alike with any third one. *)
Theorem compareVersions_is_an_ordering a b c :
  compareVersions a a = 0
  ∧ compareVersions b a = - compareVersions a b
  ∧ (compareVersions a b = -1 → compareVersions b c = -1 → compareVersions a c = -1)
  ∧ (compareVersions a b = 0 → compareVersions a c = compareVersions b c).
Proof.
  split; [by apply compareVersions_eq |]. split; [apply compareVersions_swap |].
  split.
  - intros Hab Hbc.
    apply compareVersions_lt in Hab as (i & Hi & Hdi).
    apply compareVersions_lt in Hbc as (k & Hk & Hdk).
    apply compareVersions_lt.
    destruct (Nat.lt_trichotomy i k) as [H | [H | H]].
    + exists i. split; [| rewrite <- (Hk i H); done].
      intros j Hj. rewrite (Hi j Hj). apply Hk. lia.
    + subst k. exists i. split; [| lia].
      intros j Hj. rewrite (Hi j Hj). by apply Hk.
    + exists k. split; [| rewrite (Hi k H); done].
      intros j Hj. rewrite (Hi j) by lia. by apply Hk.
  - intros Hab. pose proof (proj1 (compareVersions_eq a b) Hab) as Heq.
    destruct (compareVersions_range b c) as [H | [H | H]]; rewrite H.
    + apply compareVersions_lt in H as (i & Hi & Hdi). apply compareVersions_lt.
      exists i. split; [| by rewrite Heq]. intros j Hj. rewrite Heq. by apply Hi.
    + apply compareVersions_eq. intros i. rewrite Heq.
      by apply (proj1 (compareVersions_eq b c) H).
    + assert (Hcb : compareVersions c b = -1) by (rewrite compareVersions_swap; lia).
      assert (Hca : compareVersions c a = -1).
      { apply compareVersions_lt in Hcb as (i & Hi & Hdi). apply compareVersions_lt.
        exists i. split; [| by rewrite Heq]. intros j Hj. rewrite Heq. by apply Hi. }
      rewrite compareVersions_swap in Hca. lia.
Qed.

Lemma compareVersions_ordering_witness : compareVersions "1.2" "2" = -1.
Proof.
  destruct (compareVersions_is_an_ordering "1.2" "1.10" "2") as (_ & _ & H & _).
  apply H; reflexivity.
Defined.

(** ** Trailing zeros *)

Lemma split_dots_not_nil s : split_dots s ≠ [].
Proof.
  destruct s as [|c s]; [done |]. simpl.
  destruct (Ascii.eqb c "."%char); [done |]. by destruct (split_dots s).
Qed.

Lemma split_dots_snoc s t :
  split_dots (s ++ String "."%char t) = (split_dots s ++ split_dots t)%list.
Proof.
  induction s as [|c s IH]; [done |].
  change (String c s ++ String "."%char t) with (String c (s ++ String "."%char t)).
  cbn [split_dots]. rewrite IH.
  destruct (Ascii.eqb c "."%char); [done |].
  pose proof (split_dots_not_nil s). by destruct (split_dots s).
Qed.

Lemma strip_v_snoc a t : strip_v (a ++ String "."%char t) = strip_v a ++ String "."%char t.
Proof.
  destruct a as [|c a]; [done |]. simpl.
  by destruct (Ascii.eqb c "v"%char || Ascii.eqb c "V"%char).
Qed.

Lemma parseVersion_trailing_zero a : parseVersion (a ++ ".0") = (parseVersion a ++ [0])%list.
Proof.
  unfold parseVersion. change ".0" with (String "."%char "0").
  by rewrite strip_v_snoc, split_dots_snoc, map_app.
Qed.

Lemma component_trailing_zero parts i : component (parts ++ [0]) i = component parts i.
Proof.
  unfold component. revert i. induction parts as [|x xs IH]; intros [|i]; simpl; try done.
  by destruct i.
Qed.

(** X16. A trailing [.0] component never matters: a version and the same
    version followed by [.0] compare equal, and they compare alike with
    every other version, on either side. *)
Theorem trailing_zero_component_is_ignored a b :
  compareVersions (a ++ ".0") a = 0
  ∧ compareVersions (a ++ ".0") b = compareVersions a b
  ∧ compareVersions b (a ++ ".0") = compareVersions b a.
Proof.
  assert (Hsame : compareVersions (a ++ ".0") a = 0).
  { apply compareVersions_eq. intros i.
    by rewrite parseVersion_trailing_zero, component_trailing_zero. }
  assert (Hleft : ∀ c, compareVersions (a ++ ".0") c = compareVersions a c).
  { intros c.
    destruct (compareVersions_range a c) as [H | [H | H]]; rewrite H.
    - apply compareVersions_lt in H as (i & Hi & Hd). apply compareVersions_lt.
      exists i. rewrite parseVersion_trailing_zero. split.
      + intros j Hj. rewrite component_trailing_zero. by apply Hi.
      + by rewrite component_trailing_zero.
    - apply compareVersions_eq. intros i.
      rewrite parseVersion_trailing_zero, component_trailing_zero.
      by apply (proj1 (compareVersions_eq a c) H).
    - assert (Hca : compareVersions c a = -1) by (rewrite compareVersions_swap; lia).
      assert (Hc0 : compareVersions c (a ++ ".0") = -1).
      { apply compareVersions_lt in Hca as (i & Hi & Hd). apply compareVersions_lt.
        exists i. rewrite parseVersion_trailing_zero. split.
        - intros j Hj. rewrite component_trailing_zero. by apply Hi.
        - by rewrite component_trailing_zero. }
      rewrite compareVersions_swap in Hc0. lia. }
  split; [done |]. split; [apply Hleft |].
  by rewrite (compareVersions_swap (a ++ ".0") b), Hleft, <- compareVersions_swap.
Qed.

(** ** Options *)

(** X17. A key given in the options always wins, even when its value is
    falsy: the defaults (10000 ms, 2 retries, the two addresses, analytics
    and start-up check on, legacy mode off) apply to absent keys only, so
    [retries: 0] or [timeout: 0] is kept as 0. *)
Theorem given_options_override_defaults o :
  timeout (make_options o) = default 10000 (in_timeout o)
  ∧ retries (make_options o) = default 2 (in_retries o)
  ∧ apiUrl (make_options o) = default "https://addons.plexdev.live" (in_apiUrl o)
  ∧ repositoryUrl (make_options o)
    = default "https://addons.plexdev.live/versions.json" (in_repositoryUrl o)
  ∧ checkOnStartup (make_options o) = default true (in_checkOnStartup o)
  ∧ useLegacyApi (make_options o) = default false (in_useLegacyApi o)
  ∧ trackAnalytics (make_options o) = default true (in_trackAnalytics o).
Proof.
  destruct o as [a r c t n l k]. unfold make_options, spread. simpl.
  repeat split.
  - by destruct t.
  - by destruct n.
  - by destruct a.
  - by destruct r.
  - by destruct c as [[|]|].
  - by destruct l as [[|]|].
  - by destruct k as [[|]|].
Qed.

(** ** Requests of a check *)

Lemma get_prop_world v k w : fst (get_prop v k w) = w.
Proof. unfold get_prop. by destruct v as [[]|]. Qed.

Lemma get_prop_run v k w :
  get_prop v k w = (w, snd (get_prop v k w)).
Proof. unfold get_prop. by destruct v as [[]|]. Qed.

(** The requests of one [fetchWithRetry]. *)
Lemma fetchWithRetry_requests net self url extra w :
  let w' := fst (fetchWithRetry net self url extra w) in
  (requests w ≤ requests w')%nat
  ∧ (requests w' ≤ requests w + Z.to_nat (retries (opts self)))%nat.
Proof.
  cbv zeta. unfold fetchWithRetry.
  destruct (Z.le_gt_cases (retries (opts self)) 0) as [Hle | Hgt].
  - replace (Z.to_nat (retries (opts self))) with 0%nat by lia. simpl. lia.
  - destruct (attempts_from_run net self url extra (Z.to_nat (retries (opts self))) 1 w)
      as (k & w' & out & -> & Hk & Hreq & _); [lia |].
    simpl. lia.
Qed.

Lemma bind_requests {A B} (m : V A) (f : A → V B) (bound1 bound2 : nat) w :
  (requests w ≤ requests (fst (m w)) ≤ requests w + bound1)%nat →
  (∀ a w1, (requests w1 ≤ requests (fst (f a w1)) ≤ requests w1 + bound2)%nat) →
  (requests w ≤ requests (fst ((m ≫= f) w)) ≤ requests w + (bound1 + bound2))%nat.
Proof.
  intros Hm Hf. rewrite bind_run. destruct (m w) as [w1 [a|e]]; simpl in *.
  - specialize (Hf a w1). lia.
  - lia.
Qed.

Lemma fetchFromApi_requests net self w :
  let w' := fst (fetchFromApi net self w) in
  (requests w ≤ requests w' ≤ requests w + Z.to_nat (retries (opts self)))%nat.
Proof.
  cbv zeta. unfold fetchFromApi.
  match goal with
  | |- context [fetchWithRetry net self ?url ?hd] =>
      pose proof (fetchWithRetry_requests net self url hd w) as Hf;
      destruct (fetchWithRetry net self url hd w) as [w1 [v|e]] eqn:Hrun
  end; rewrite bind_run, Hrun; simpl in *; [| lia].
  repeat (rewrite bind_run, get_prop_run;
          match goal with
          | |- context [snd (get_prop ?v ?k w1)] =>
              destruct (snd (get_prop v k w1)); simpl; [| lia]
          end).
  lia.
Qed.

Lemma fetchFromLegacy_requests net self w :
  let w' := fst (fetchFromLegacy net self w) in
  (requests w ≤ requests w' ≤ requests w + Z.to_nat (retries (opts self)))%nat.
Proof.
  cbv zeta. unfold fetchFromLegacy.
  pose proof (fetchWithRetry_requests net self (repositoryUrl (opts self)) [] w) as Hf.
  destruct (fetchWithRetry net self (repositoryUrl (opts self)) [] w) as [w1 [v|e]] eqn:Hrun;
    rewrite bind_run, Hrun; simpl in *; [| lia].
  rewrite bind_run, get_prop_run.
  destruct (snd (get_prop v "addons" w1)) as [addons|]; simpl; [| lia].
  destruct (negb (truthy addons)); [simpl; lia |].
  rewrite bind_run, get_prop_run.
  destruct (snd (get_prop addons (addonName self) w1)) as [entry|]; simpl; [| lia].
  destruct (negb (truthy entry)); [simpl; lia |].
  repeat (rewrite bind_run, get_prop_run;
          match goal with
          | |- context [snd (get_prop ?v ?k w1)] =>
              destruct (snd (get_prop v k w1)); simpl; [| lia]
          end).
  lia.
Qed.

Lemma try_requests {A} (m : V A) (h : error → V A) (bound1 bound2 : nat) w :
  (requests w ≤ requests (fst (m w)) ≤ requests w + bound1)%nat →
  (∀ e w1, (requests w1 ≤ requests (fst (h e w1)) ≤ requests w1 + bound2)%nat) →
  (requests w ≤ requests (fst (try_catch m h w)) ≤ requests w + (bound1 + bound2))%nat.
Proof.
  intros Hm Hh. unfold try_catch. destruct (m w) as [w1 [a|e]]; simpl in *.
  - lia.
  - specialize (Hh e w1). lia.
Qed.

Lemma compare_with_world self v w : fst (compare_with self v w) = w.
Proof. unfold compare_with. by destruct v as [[]|]. Qed.

(** What follows the fetch in [checkForUpdates] makes no request. *)
Lemma after_fetch_requests {A} (m : V fetched) (f : fetched → V A) (bound : nat) w :
  (requests w ≤ requests (fst (m w)) ≤ requests w + bound)%nat →
  (∀ d w1, fst (f d w1) = w1) →
  (requests w ≤ requests (fst ((m ≫= f) w)) ≤ requests w + bound)%nat.
Proof.
  intros Hm Hf. rewrite bind_run. destruct (m w) as [w1 [d|e]]; simpl in *; [| lia].
  by rewrite Hf.
Qed.

(** X18. One update check sends at most [retries] requests in legacy mode
    and at most twice as many otherwise (the API first, then the legacy
    registry), whatever the network answers. *)
Theorem checkForUpdates_request_budget net self w :
  let w' := fst (checkForUpdates net self w) in
  let budget := ((if useLegacyApi (opts self) then 1 else 2)
                 * Z.to_nat (retries (opts self)))%nat in
  (requests w ≤ requests w' ≤ requests w + budget)%nat.
Proof.
  cbv zeta. unfold checkForUpdates.
  set (R := Z.to_nat (retries (opts self))).
  replace ((if useLegacyApi (opts self) then 1 else 2) * R)%nat
    with ((if useLegacyApi (opts self) then R else R + R) + 0)%nat
    by (destruct (useLegacyApi (opts self)); lia).
  apply try_requests; [| intros e w1; simpl; lia].
  apply after_fetch_requests.
  - destruct (useLegacyApi (opts self)).
    + apply fetchFromLegacy_requests.
    + apply try_requests; [apply fetchFromApi_requests |].
      intros e w1. rewrite bind_run. unfold emit at 1. cbv beta iota.
      pose proof (fetchFromLegacy_requests net self
                    {| requests := requests w1;
                       events := (events w1 ++ [ConsoleLog "[VersionChecker] API unavailable, falling back to legacy endpoint"])%list |}) as H.
      simpl in H. exact H.
  - intros d w1. destruct (negb (truthy (f_latestVersion d))); [done |].
    rewrite bind_run, get_prop_run.
    destruct (snd (get_prop (f_latestVersion d) "version" w1)) as [v|e]; [| done].
    rewrite bind_run.
    pose proof (compare_with_world self v w1) as Hw.
    destruct (compare_with self v w1) as [w2 [cmp|e]]; simpl in Hw; by subst.
Qed.

(** ** A checker without attempts *)

(** X19. A checker built with [retries] set to 0 (or less) keeps that
    value, so its loop of attempts is never entered: an update check then
    sends no request at all and reports a failure, the read of [addons] on
    the missing document. *)
Theorem no_attempts_means_no_request net name version o r w :
  in_retries o = Some r →
  r ≤ 0 →
  ∃ w' res,
    checkForUpdates net (constructor name version o) w = (w', Returned res)
    ∧ requests w' = requests w
    ∧ success res = false
    ∧ error_of res = Some (NotReadable "addons").
Proof.
  intros Hr Hle.
  assert (Hret : Z.to_nat (retries (opts (constructor name version o))) = 0%nat).
  { simpl. unfold spread. rewrite Hr. lia. }
  unfold checkForUpdates, try_catch, fetchFromLegacy, fetchFromApi, fetchWithRetry.
  rewrite Hret. cbn [attempts_from].
  destruct (useLegacyApi (opts (constructor name version o)));
    eexists _, _; (split; [reflexivity |]); done.
Qed.

Lemma no_attempts_witness :
  ∃ w' res,
    checkForUpdates net_unavailable
      (constructor "StickyMessages" "1.0.0"
         {| in_apiUrl := None; in_repositoryUrl := None; in_checkOnStartup := None;
            in_timeout := None; in_retries := Some 0; in_useLegacyApi := None;
            in_trackAnalytics := None |})
      {| requests := 0; events := [] |} = (w', Returned res)
    ∧ requests w' = 0%nat
    ∧ success res = false
    ∧ error_of res = Some (NotReadable "addons").
Proof.
  apply (no_attempts_means_no_request net_unavailable "StickyMessages" "1.0.0" _ 0);
    [reflexivity | lia].
Defined.

(** ** The registry *)

(** A first attempt that succeeds ends the loop. *)
Lemma fetchWithRetry_first net self url extra w :
  1 ≤ retries (opts self) →
  attempt_failure (net (requests w)) = None →
  fetchWithRetry net self url extra w
  = ({| requests := S (requests w);
        events := (events w ++ [request_event self url extra])%list |},
     Returned (attempt_value (net (requests w)))).
Proof.
  intros HR Hok. unfold fetchWithRetry.
  destruct (Z.to_nat (retries (opts self))) as [|n] eqn:Hn; [lia |].
  cbn [attempts_from]. unfold try_catch.
  rewrite attempt_once_run, Hok. reflexivity.
Qed.

(** Attempts that all fail use up the retries and throw. *)
Lemma fetchWithRetry_all_fail net self url extra w :
  1 ≤ retries (opts self) →
  (∀ j, (j < Z.to_nat (retries (opts self)))%nat →
        attempt_failure (net (requests w + j)%nat) ≠ None) →
  ∃ w' e,
    fetchWithRetry net self url extra w = (w', Thrown e)
    ∧ requests w' = (requests w + Z.to_nat (retries (opts self)))%nat.
Proof.
  intros HR Hfail. unfold fetchWithRetry.
  destruct (attempts_from_run net self url extra (Z.to_nat (retries (opts self))) 1 w)
    as (k & w' & out & Hrun & Hk & Hreq & _ & _ & Hout); [lia |].
  rewrite Hrun. destruct out as [v|e].
  - destruct Hout as [(_ & Hn & _) | (j & -> & Hok & _)]; [lia |].
    exfalso. apply (Hfail j); [lia | done].
  - destruct Hout as (j & cause & Hj & Hkn & _). exists w', e. split; [done |]. lia.
Qed.

Lemma get_prop_obj fields k w :
  get_prop (Some (JObj fields)) k w = (w, Returned (read_field k fields)).
Proof. reflexivity. Qed.

Lemma read_field_own k fields :
  inherited_member k = false → read_field k fields = lookup_field k fields.
Proof. intros Hk. unfold read_field. rewrite Hk. by destruct (lookup_field k fields). Qed.

(** Reading the registry document that a request returned. *)
Lemma fetchFromLegacy_served net self w doc :
  1 ≤ retries (opts self) →
  attempt_failure (net (requests w)) = None →
  attempt_value (net (requests w)) = Some doc →
  doc ≠ JNull →
  let w' := {| requests := S (requests w);
               events := (events w ++ [request_event self (repositoryUrl (opts self)) []])%list |} in
  (truthy (registry_entry doc (addonName self)) = false
   ∧ fetchFromLegacy net self w = (w', Thrown (NotInRegistry (addonName self))))
  ∨ (truthy (registry_entry doc (addonName self)) = true
     ∧ ∃ d, fetchFromLegacy net self w = (w', Returned d)
            ∧ f_latestVersion d = registry_entry doc (addonName self)).
Proof.
  intros HR Hok Hval Hdoc. cbv zeta. unfold fetchFromLegacy.
  rewrite bind_run, fetchWithRetry_first, Hval by done.
  destruct doc as [|b|z|s|items|fields|k]; try done;
    try (left; split; [done |]; reflexivity).
  cbv beta iota. rewrite bind_run, get_prop_obj, read_field_own by done.
  cbv beta iota. cbn [registry_entry].
  destruct (lookup_field "addons" fields) as [addons|] eqn:Haddons;
    [| left; split; [done |]; reflexivity].
  destruct (truthy (Some addons)) eqn:Htr; cbn [negb];
    [| left; split; [by destruct addons |]; reflexivity].
  destruct addons as [|b|z|s|items|addons|k]; try done;
    try (left; split; [done |]; reflexivity).
  rewrite bind_run, get_prop_obj. cbv beta iota.
  destruct (read_field (addonName self) addons) as [entry|] eqn:He;
    [| left; split; [done |]; reflexivity].
  destruct (truthy (Some entry)) eqn:Hentry; cbn [negb];
    [| left; split; [done |]; reflexivity].
  right. split; [done |].
  destruct entry as [|b|z|s|items|efields|k]; try done;
    eexists; (split; [reflexivity |]); done.
Qed.

(** X20. In legacy mode, when the registry document arrives and its
    [addons] is an object, or is missing or falsy, but there is no usable
    entry under the add-on's name ([addons] missing or falsy, or the
    entry falsy, or neither a property of [addons] nor a member every
    object inherits, as [constructor] is), the check reports a failure
    that names the add-on, after that single request. *)
Theorem addon_missing_from_registry_is_reported net self w status text doc :
  useLegacyApi (opts self) = true →
  1 ≤ retries (opts self) →
  net (requests w) = FetchResponse true status text (Some doc) →
  doc ≠ JNull →
  plain_registry doc = true →
  truthy (registry_entry doc (addonName self)) = false →
  ∃ w' res,
    checkForUpdates net self w = (w', Returned res)
    ∧ requests w' = S (requests w)
    ∧ success res = false
    ∧ error_of res = Some (NotInRegistry (addonName self)).
Proof.
  intros Hlegacy HR Hnet Hdoc _ Hentry.
  destruct (fetchFromLegacy_served net self w doc) as [[_ Hrun] | [Htrue _]];
    try done; try (by rewrite Hnet); [| congruence].
  unfold checkForUpdates, try_catch. rewrite bind_run, Hlegacy, Hrun.
  eexists _, _. split; [reflexivity |]. done.
Qed.

Lemma addon_missing_witness :
  ∃ w' res,
    checkForUpdates
      (net_serving (JObj [("addons", JObj [("OtherAddon", JObj [("version", JStr "2.0.0")])])]))
      {| addonName := "StickyMessages"; currentVersion := "1.0.0";
         opts := make_options
                   {| in_apiUrl := None; in_repositoryUrl := None; in_checkOnStartup := None;
                      in_timeout := None; in_retries := None; in_useLegacyApi := Some true;
                      in_trackAnalytics := None |} |}
      {| requests := 0; events := [] |} = (w', Returned res)
    ∧ requests w' = 1%nat
    ∧ success res = false
    ∧ error_of res = Some (NotInRegistry "StickyMessages").
Proof.
  eapply (addon_missing_from_registry_is_reported
            (net_serving (JObj [("addons", JObj [("OtherAddon", JObj [("version", JStr "2.0.0")])])]))
            {| addonName := "StickyMessages"; currentVersion := "1.0.0";
               opts := make_options
                         {| in_apiUrl := None; in_repositoryUrl := None;
                            in_checkOnStartup := None; in_timeout := None; in_retries := None;
                            in_useLegacyApi := Some true; in_trackAnalytics := None |} |}
            {| requests := 0; events := [] |});
    [reflexivity | simpl; lia | reflexivity | done | reflexivity | reflexivity].
Defined.

(** A name that every object inherits is found in any registry: the
    inherited member is taken for the entry, it has no [version], and the
    check fails on the comparison instead. *)
Example inherited_member_taken_for_entry :
  let self := {| addonName := "constructor"; currentVersion := "1.0.0";
                 opts := make_options
                           {| in_apiUrl := None; in_repositoryUrl := None;
                              in_checkOnStartup := None; in_timeout := None;
                              in_retries := None; in_useLegacyApi := Some true;
                              in_trackAnalytics := None |} |} in
  let r := checkForUpdates (net_serving (JObj [("addons", JObj [])])) self
             {| requests := 0; events := [] |} in
  registry_entry (JObj [("addons", JObj [])]) "constructor"
  = Some (JInherited "constructor")
  ∧ match snd r with
    | Returned res => success res = false ∧ error_of res = Some (NotReadable "replace")
    | Thrown _ => False
    end.
Proof. vm_compute. repeat split. Qed.

(** X21. When every attempt on the API fails, the check logs the
    fall-back and reads the legacy registry with the next request; an
    entry found there gives a successful result for its version, whose
    [apiSource] still says [api]. *)
Theorem failed_api_falls_back_to_registry net self w status text doc entry lat :
  useLegacyApi (opts self) = false →
  1 ≤ retries (opts self) →
  (∀ j, (j < Z.to_nat (retries (opts self)))%nat →
        attempt_failure (net (requests w + j)%nat) ≠ None) →
  net (requests w + Z.to_nat (retries (opts self)))%nat
    = FetchResponse true status text (Some doc) →
  registry_entry doc (addonName self) = Some (JObj entry) →
  lookup_field "version" entry = Some (JStr lat) →
  ∃ w' res,
    checkForUpdates net self w = (w', Returned res)
    ∧ requests w' = (requests w + Z.to_nat (retries (opts self)) + 1)%nat
    ∧ In (ConsoleLog "[VersionChecker] API unavailable, falling back to legacy endpoint")
         (events w')
    ∧ success res = true
    ∧ latest res = Some lat
    ∧ isOutdated res = (compareVersions (currentVersion self) lat <? 0)
    ∧ apiSource res = Some "api".
Proof.
  intros Hlegacy HR Hfail Hnet Hentry Hversion.
  unfold checkForUpdates. unfold try_catch at 1. rewrite bind_run, Hlegacy.
  unfold try_catch at 1. unfold fetchFromApi. rewrite bind_run.
  match goal with
  | |- context [fetchWithRetry net self ?url ?hd w] =>
      destruct (fetchWithRetry_all_fail net self url hd w HR Hfail) as (w1 & e & -> & Hreq)
  end.
  cbv beta iota. rewrite bind_run. unfold emit at 1. cbv beta iota.
  set (w2 := {| requests := requests w1; events := _ |}).
  assert (Hdoc : doc ≠ JNull) by (intros ->; done).
  destruct (fetchFromLegacy_served net self w2 doc) as [[Hfalse _] | [_ (d & -> & Hd)]];
    try done; try (by subst w2; simpl; rewrite Hreq, Hnet).
  { by rewrite Hentry in Hfalse. }
  cbv beta iota. rewrite Hd, Hentry. cbn [truthy negb].
  rewrite bind_run, get_prop_obj, read_field_own by done. cbv beta iota.
  rewrite Hversion.
  rewrite bind_run. unfold compare_with. rewrite mret_run. cbv beta iota.
  rewrite mret_run.
  eexists _, _. split; [reflexivity |]. simpl.
  split; [lia |]. split; [| done].
  apply in_or_app. left. apply in_or_app. right. by left.
Qed.

Lemma failed_api_witness :
  ∃ w' res,
    checkForUpdates
      (λ n, match n with
            | 0%nat | 1%nat => FetchRejected "ECONNREFUSED"
            | _ => FetchResponse true 200 "OK"
                     (Some (JObj [("addons",
                                   JObj [("StickyMessages",
                                          JObj [("version", JStr "1.2.0")])])]))
            end)
      (constructor "StickyMessages" "1.0.0" no_options)
      {| requests := 0; events := [] |} = (w', Returned res)
    ∧ requests w' = 3%nat
    ∧ success res = true
    ∧ latest res = Some "1.2.0"
    ∧ isOutdated res = true
    ∧ apiSource res = Some "api".
Proof.
  destruct (failed_api_falls_back_to_registry
              (λ n, match n with
                    | 0%nat | 1%nat => FetchRejected "ECONNREFUSED"
                    | _ => FetchResponse true 200 "OK"
                             (Some (JObj [("addons",
                                           JObj [("StickyMessages",
                                                  JObj [("version", JStr "1.2.0")])])]))
                    end)
              (constructor "StickyMessages" "1.0.0" no_options)
              {| requests := 0; events := [] |}
              200 "OK"
              (JObj [("addons", JObj [("StickyMessages", JObj [("version", JStr "1.2.0")])])])
              [("version", JStr "1.2.0")] "1.2.0")
    as (w' & res & Hrun & Hreq & _ & Hs & Hl & Ho & Ha);
    [reflexivity | simpl; lia | | reflexivity | reflexivity | reflexivity |].
  - intros [|[|j]] Hj; simpl; [done | done |]. simpl in Hj. lia.
  - exists w', res. by repeat split.
Defined.

(** ** The list of versions *)

Lemma checkForUpdates_returns net self w :
  ∃ w' r,
    checkForUpdates net self w = (w', Returned r)
    ∧ (success r = true → ∃ lat, latest r = Some lat)
    ∧ (success r = false → error_of r ≠ None).
Proof.
  unfold checkForUpdates, try_catch. rewrite bind_run.
  match goal with
  | |- context [(if useLegacyApi (opts self) then ?a else ?b) w] =>
      destruct ((if useLegacyApi (opts self) then a else b) w) as [w1 [data|e]]
  end.
  2: { eexists _, _. split; [reflexivity |]. simpl. split; done. }
  destruct (negb (truthy (f_latestVersion data))).
  - eexists _, _. split; [reflexivity |]. simpl. split; [by eexists | done].
  - rewrite bind_run, get_prop_run.
    destruct (snd (get_prop (f_latestVersion data) "version" w1)) as [v|e].
    2: { eexists _, _. split; [reflexivity |]. simpl. split; done. }
    rewrite bind_run.
    destruct (compare_with self v w1) as [w3 [cmp|e]] eqn:Hcmp.
    2: { eexists _, _. split; [reflexivity |]. simpl. split; done. }
    eexists _, _. split; [reflexivity |]. simpl. split; [by eexists | done].
Qed.

(** X22. [getAllVersions] never throws and never lists more than the
    latest version, whatever [limit] is: it does what one update check
    does and wraps its answer, one entry when the check succeeded and
    none, with the error, when it failed. *)
Theorem getAllVersions_lists_the_latest_only net self limit w :
  ∃ w' r res,
    checkForUpdates net self w = (w', Returned r)
    ∧ getAllVersions net self limit w = (w', Returned res)
    ∧ vr_success res = success r
    ∧ vr_error res = error_of r
    ∧ (success r = true →
       ∃ lat, latest r = Some lat ∧ vr_versions res = [{| ve_version := Some lat |}])
    ∧ (success r = false → vr_versions res = [] ∧ vr_error res ≠ None).
Proof.
  destruct (checkForUpdates_returns net self w) as (w' & r & Hrun & Hyes & Hno).
  unfold getAllVersions, try_catch.
  destruct (useLegacyApi (opts self)); rewrite bind_run, Hrun; cbv beta iota;
    rewrite mret_run; eexists _, _, _; (split; [reflexivity |]); (split; [reflexivity |]);
    simpl; (split; [done |]); (split; [done |]); split.
  all: try (intros Hs; destruct (Hyes Hs) as (lat & Hlat); exists lat; by rewrite Hs, Hlat).
  all: intros Hs; rewrite Hs; split; [done | by apply Hno].
Qed.

(** ** Slugs *)

Lemma slug_char_not_dash c : is_slug_char c = true → Ascii.eqb c "-"%char = false.
Proof. by destruct c as [[] [] [] [] [] [] [] []]. Qed.

Lemma lower_slug_char c : is_slug_char c = true → lower c = c.
Proof. by destruct c as [[] [] [] [] [] [] [] []]. Qed.

Lemma strip_trailing_keeps c t :
  Ascii.eqb c "-"%char = false →
  strip_trailing_dashes (String c t) = String c (strip_trailing_dashes t).
Proof. intros Hc. cbn [strip_trailing_dashes]. rewrite Hc. by destruct (strip_trailing_dashes t). Qed.

(** With its dash already written, a run leaves no dash in front. *)
Lemma dash_runs_no_leading_dash s :
  strip_leading_dashes (dash_runs true s) = dash_runs true s.
Proof.
  induction s as [|c s IH]; [done |]. cbn [dash_runs].
  destruct (is_slug_char c) eqn:Hc; [| done].
  cbn [strip_leading_dashes]. by rewrite slug_char_not_dash.
Qed.

Lemma strip_leading_dash_runs s :
  strip_leading_dashes (dash_runs false s) = dash_runs true s.
Proof.
  destruct s as [|c s]; [done |]. cbn [dash_runs].
  destruct (is_slug_char c) eqn:Hc.
  - cbn [strip_leading_dashes]. by rewrite slug_char_not_dash.
  - cbn [strip_leading_dashes]. change (Ascii.eqb "-" "-") with true. cbv iota.
    apply dash_runs_no_leading_dash.
Qed.

Lemma slugify_unfold name :
  slugify name = strip_trailing_dashes (dash_runs true (lowercase name)).
Proof. unfold slugify. by rewrite strip_leading_dash_runs. Qed.

Lemma slug_tail_dash_runs s :
  slug_tail true (strip_trailing_dashes (dash_runs false s)) = true
  ∧ (strip_trailing_dashes (dash_runs true s) = EmptyString
     ∨ slug_tail false (strip_trailing_dashes (dash_runs true s)) = true).
Proof.
  induction s as [|c s [IHf IHt]]; [by split; [| left] |].
  cbn [dash_runs]. destruct (is_slug_char c) eqn:Hc.
  - rewrite strip_trailing_keeps by by apply slug_char_not_dash.
    cbn [slug_tail]. rewrite Hc. split; [done | by right].
  - split; [| done].
    cbn [strip_trailing_dashes]. change (Ascii.eqb "-" "-") with true. cbv iota.
    destruct IHt as [-> | Ht]; [done |].
    destruct (strip_trailing_dashes (dash_runs true s)) as [|d u] eqn:Hu; [done |].
    change (slug_tail true (String "-" (String d u)))
      with (slug_tail false (String d u)). done.
Qed.

Lemma slugify_is_slug name : is_slug (slugify name) = true.
Proof.
  rewrite slugify_unfold.
  destruct (slug_tail_dash_runs (lowercase name)) as [_ [-> | Ht]]; [done |].
  destruct (strip_trailing_dashes (dash_runs true (lowercase name))) as [|c u]; [done |].
  cbn [slug_tail] in Ht. cbn [is_slug].
  destruct (is_slug_char c); [done |]. by rewrite andb_false_r in Ht.
Qed.

Lemma slug_tail_lowercase a t : slug_tail a t = true → lowercase t = t.
Proof.
  revert a. induction t as [|c t IH]; intros a Ht; [done |].
  cbn [slug_tail] in Ht. cbn [lowercase].
  destruct (is_slug_char c) eqn:Hc.
  - by rewrite lower_slug_char, (IH true).
  - apply andb_prop in Ht as [Ht1 Ht]. apply andb_prop in Ht1 as [Hd _].
    apply Ascii.eqb_eq in Hd as ->. by rewrite (IH false).
Qed.

Lemma slug_tail_dash_runs_same a t : slug_tail a t = true → dash_runs (negb a) t = t.
Proof.
  revert a. induction t as [|c t IH]; intros a Ht; [done |].
  cbn [slug_tail] in Ht. cbn [dash_runs].
  destruct (is_slug_char c) eqn:Hc.
  - f_equal. by apply (IH true).
  - apply andb_prop in Ht as [Ht1 Ht]. apply andb_prop in Ht1 as [Hd ->].
    apply Ascii.eqb_eq in Hd as ->. cbn [negb]. f_equal. by apply (IH false).
Qed.

Lemma slug_tail_strip_trailing a t : slug_tail a t = true → strip_trailing_dashes t = t.
Proof.
  revert a. induction t as [|c t IH]; intros a Ht; [done |].
  cbn [slug_tail] in Ht.
  destruct (is_slug_char c) eqn:Hc.
  - rewrite strip_trailing_keeps by by apply slug_char_not_dash. by rewrite (IH true).
  - apply andb_prop in Ht as [Ht1 Ht]. apply andb_prop in Ht1 as [Hd _].
    cbn [strip_trailing_dashes]. rewrite (IH false Ht).
    destruct t; [done | done].
Qed.

Lemma slugify_of_slug t : is_slug t = true → slugify t = t.
Proof.
  intros Ht. destruct t as [|c t]; [done |].
  cbn [is_slug] in Ht. apply andb_prop in Ht as [Hc Ht].
  assert (Hf : slug_tail false (String c t) = true) by (cbn [slug_tail]; by rewrite Hc).
  rewrite slugify_unfold, (slug_tail_lowercase _ _ Hf).
  change (dash_runs true (String c t)) with (dash_runs (negb false) (String c t)).
  rewrite (slug_tail_dash_runs_same false _ Hf).
  by apply (slug_tail_strip_trailing false).
Qed.

(** X23. The slug of a name is well formed: lower-case letters and
    digits in groups separated by single dashes, with no dash at either
    end (the empty slug for a name without letters or digits). *)
Theorem slugify_gives_a_slug name :
  ascii_only name = true →
  is_slug (slugify name) = true.
Proof. intros _. apply slugify_is_slug. Qed.

Lemma slugify_gives_a_slug_witness :
  is_slug (slugify "  Sticky Messages -- v2!  ") = true.
Proof. apply slugify_gives_a_slug. reflexivity. Defined.

(** X24. A well-formed slug is its own slug, so taking the slug of a name
    twice gives the same as taking it once. *)
Theorem slugify_is_idempotent name t :
  ascii_only name = true →
  is_slug t = true →
  slugify t = t ∧ slugify (slugify name) = slugify name.
Proof.
  intros _ Ht. split; [by apply slugify_of_slug |].
  apply slugify_of_slug, slugify_is_slug.
Qed.

Lemma slugify_is_idempotent_witness :
  slugify "sticky-messages" = "sticky-messages"
  ∧ slugify (slugify "Sticky  Messages!") = slugify "Sticky  Messages!".
Proof. apply slugify_is_idempotent; reflexivity. Defined.

(** ** Tags after the last number *)

Lemma split_dots_no_dot t : no_dot t = true → split_dots t = [t].
Proof.
  induction t as [|c t IH]; [done |]. cbn [no_dot split_dots].
  intros [Hc Ht]%andb_prop. apply negb_true_iff in Hc. by rewrite Hc, IH.
Qed.

Lemma split_dots_last q :
  ∃ l h, ∀ s, no_dot s = true → split_dots (q ++ s) = (l ++ [(h ++ s)%string])%list.
Proof.
  induction q as [|c q (l & h & IH)].
  - exists [], EmptyString. intros s Hs. by apply split_dots_no_dot.
  - destruct (Ascii.eqb c "."%char) eqn:Hc.
    + exists (EmptyString :: l), h. intros s Hs.
      change (String c q ++ s) with (String c (q ++ s)).
      cbn [split_dots]. by rewrite Hc, IH.
    + destruct l as [|x l].
      * exists [], (String c h). intros s Hs.
        change (String c q ++ s) with (String c (q ++ s)).
        cbn [split_dots]. by rewrite Hc, IH.
      * exists (String c x :: l), h. intros s Hs.
        change (String c q ++ s) with (String c (q ++ s)).
        cbn [split_dots]. by rewrite Hc, IH.
Qed.

Lemma read_digits_tag y d k t acc :
  digit_of d = Some k → is_tag t = true →
  read_digits (y ++ String d t) acc = read_digits (y ++ String d EmptyString) acc.
Proof.
  intros Hd Ht. revert acc. induction y as [|c y IH]; intros acc.
  - change (read_digits (String d t) acc = read_digits (String d EmptyString) acc).
    cbn [read_digits]. rewrite Hd.
    destruct t as [|c t]; [done |]. cbn [is_tag] in Ht. cbn [read_digits].
    by destruct (digit_of c).
  - change (String c y ++ ?s) with (String c (y ++ s)). cbn [read_digits].
    destruct (digit_of c); [apply IH | done].
Qed.

Lemma digit_not_space d k : digit_of d = Some k → is_space d = false.
Proof. by destruct d as [[] [] [] [] [] [] [] []]. Qed.

Lemma skip_spaces_digit h d k s :
  digit_of d = Some k →
  skip_spaces (h ++ String d s) = skip_spaces h ++ String d s.
Proof.
  intros Hd. induction h as [|c h IH].
  - change (skip_spaces (String d s) = String d s).
    cbn [skip_spaces]. by rewrite (digit_not_space d k).
  - change (String c h ++ ?s) with (String c (h ++ s)). cbn [skip_spaces].
    by destruct (is_space c).
Qed.

Lemma parseInt_tag h d k t :
  digit_of d = Some k → is_tag t = true →
  parseInt (h ++ String d t) = parseInt (h ++ String d EmptyString).
Proof.
  intros Hd Ht. unfold parseInt. rewrite !(skip_spaces_digit h d k) by done.
  destruct (skip_spaces h) as [|c r].
  - change (EmptyString ++ String d t) with (String d t).
    change (EmptyString ++ String d EmptyString) with (String d EmptyString).
    pose proof (read_digits_tag EmptyString d k t None Hd Ht) as Hr.
    change (EmptyString ++ String d t) with (String d t) in Hr.
    change (EmptyString ++ String d EmptyString) with (String d EmptyString) in Hr.
    destruct d as [[] [] [] [] [] [] [] []]; try done; exact Hr.
  - change (String c r ++ ?s) with (String c (r ++ s)).
    pose proof (read_digits_tag r d k t None Hd Ht) as Hr.
    pose proof (read_digits_tag (String c r) d k t None Hd Ht) as Hcr.
    change (String c r ++ ?s) with (String c (r ++ s)) in Hcr.
    destruct c as [[] [] [] [] [] [] [] []]; first [exact Hcr | by rewrite Hr].
Qed.

Lemma no_dot_digit d k t : digit_of d = Some k → is_tag t = true → no_dot (String d t) = true.
Proof.
  intros Hd Ht. cbn [no_dot]. apply andb_true_intro. split.
  - by destruct d as [[] [] [] [] [] [] [] []].
  - destruct t as [|c t]; [done |]. cbn [is_tag] in Ht. by destruct (digit_of c).
Qed.

Lemma parseVersion_tag p d k t :
  digit_of d = Some k → is_tag t = true →
  parseVersion (p ++ String d t) = parseVersion (p ++ String d EmptyString).
Proof.
  intros Hd Ht. unfold parseVersion.
  assert (Hq : ∃ q, ∀ s, strip_v (p ++ String d s) = q ++ String d s).
  { destruct p as [|c p].
    - exists EmptyString. intros s.
      change (EmptyString ++ String d s) with (String d s).
      by destruct d as [[] [] [] [] [] [] [] []].
    - destruct (Ascii.eqb c "v"%char || Ascii.eqb c "V"%char) eqn:Hc.
      + exists p. intros s. change (String c p ++ ?s) with (String c (p ++ s)).
        cbn [strip_v]. by rewrite Hc.
      + exists (String c p). intros s. change (String c p ++ ?s) with (String c (p ++ s)).
        cbn [strip_v]. by rewrite Hc. }
  destruct Hq as (q & Hq). rewrite !Hq.
  destruct (split_dots_last q) as (l & h & Hsplit).
  rewrite !Hsplit by (by apply (no_dot_digit d k)).
  rewrite !map_app. f_equal. cbn [map]. f_equal. f_equal.
  by apply (parseInt_tag h d k).
Qed.

(** X25. What follows the last digit of a version without a dot, as
    [-beta] or [+build5], is not read: the version compares like the one
    without it, so a pre-release and its release come out equal. *)
Theorem tag_after_last_number_is_ignored p d k t b :
  digit_of d = Some k →
  is_tag t = true →
  parseVersion (p ++ String d t) = parseVersion (p ++ String d EmptyString)
  ∧ compareVersions (p ++ String d t) (p ++ String d EmptyString) = 0
  ∧ compareVersions (p ++ String d t) b = compareVersions (p ++ String d EmptyString) b
  ∧ compareVersions b (p ++ String d t) = compareVersions b (p ++ String d EmptyString).
Proof.
  intros Hd Ht. pose proof (parseVersion_tag p d k t Hd Ht) as Hp.
  split; [done |]. split.
  - apply compareVersions_eq. intros i. by rewrite Hp.
  - unfold compareVersions. by rewrite Hp.
Qed.

Lemma tag_after_last_number_witness :
  parseVersion "v1.2.3-beta" = [1; 2; 3]
  ∧ compareVersions "v1.2.3-beta" "1.2.3" = 0.
Proof.
  destruct (tag_after_last_number_is_ignored "v1.2." "3"%char 3 "-beta" "1.2.3")
    as (Hp & _ & Hl & _); [reflexivity | reflexivity |].
  split; [exact Hp | exact Hl].
Defined.

End VersionCheckerMore.
